(** * Ocean clustering utilities ([cluster_utils_PANGEO.py]): model and properties

    A shallow embedding of the classification-and-alignment pipeline of
    [cluster_utils_PANGEO.py]: the sampler, the NaN-aware wrappers around the
    trained PCA and Gaussian-mixture models, the label aligners and the
    aggregators.

    Conventions of the embedding.
    - A float64 is either [NaN] or a finite value carried as an exact
      rational, where no statement depends on rounding, overflow or the
      infinities; the distances of [match_profiles], which do depend on
      them, are computed in IEEE 754 binary64 ([Binary64]).
    - An n-dimensional array is a nested list in C order; shapes are stated
      as hypotheses where a function relies on them.
    - A Python exception is a value of [exn]; a function that can raise
      returns a [result].
    - The trained scikit-learn models and the random generator are external
      to the module: they are parameters, constrained by their documented
      contracts where a property needs them. *)

From Stdlib Require Import ZArith QArith Lia Lqa Sorted SpecFloat.
From stdpp Require Import base list strings gmap.

Close Scope Q_scope.
Open Scope Z_scope.

(** ** Python: exceptions and results *)

Module Py.

Inductive exn : Type :=
| NameError (name : string)
| IndexError
| ValueError
| AssertionError.

Inductive result (A : Type) : Type :=
| Ok (a : A)
| Raise (e : exn).
Arguments Ok {A} a.
Arguments Raise {A} e.

#[global] Instance result_ret : MRet result := fun A a => Ok a.
#[global] Instance result_bind : MBind result := fun A B f m =>
  match m with
  | Ok a => f a
  | Raise e => Raise e
  end.

(** [[f(x) for x in l]], stopping at the first exception. *)
Fixpoint traverse {A B} (f : A -> result B) (l : list A) : result (list B) :=
  match l with
  | [] => Ok []
  | x :: l' => y ← f x; ys ← traverse f l'; Ok (y :: ys)
  end.

(** Names bound at module level by the imports and the [def]s of
    [cluster_utils_PANGEO.py]. *)
Definition module_globals : list string :=
  [ "fsspec"; "mdates"; "plt"; "np"; "pd"; "xr"; "zarr"; "pickle"; "cartopy";
    "dask"; "date"; "PCA"; "GaussianMixture"; "DateFormatter"; "cm"; "signal";
    "sts"; "retrieve_profiles"; "random_sample"; "normalise_data"; "train_pca";
    "pca_transform"; "train_gmm"; "gmm_classify"; "gmm_prob";
    "gmm_score_samples"; "generate_trainingset"; "count_area"; "mean_lat";
    "avg_profiles"; "pca_sort"; "match_profiles"; "match_spatial"; "temp_sort";
    "reorder"; "modal_classes"; "write_tonc" ]%string.

End Py.
Export Py.

(** ** numpy: floats with NaN, indexing, masks *)

Module Np.

Inductive float64 : Type :=
| NaN
| Fin (q : Q).

Definition isnan (x : float64) : bool :=
  match x with NaN => true | Fin _ => false end.

Definition zero : float64 := Fin (0 # 1).

(** [len(a)] as a Python int. *)
Definition size {A} (a : list A) : Z := Z.of_nat (length a).

(** [np.zeros(n)] and [np.arange(0, n, dtype='int')] holding integers. *)
Definition zeros (n : nat) : list Z := replicate n 0.
Definition arange (n : nat) : list Z := Z.of_nat <$> seq 0 n.

(** Integer indexing: a negative index counts from the end, an index
    outside [[-n, n)] raises [IndexError]. *)
Definition norm_index (n : Z) (i : Z) : result nat :=
  if (0 <=? i) && (i <? n) then Ok (Z.to_nat i)
  else if (- n <=? i) && (i <? 0) then Ok (Z.to_nat (n + i))
  else Raise IndexError.

Definition getitem {A} (a : list A) (i : Z) : result A :=
  k ← norm_index (size a) i;
  match a !! k with
  | Some x => Ok x
  | None => Raise IndexError
  end.

Definition setitem {A} (a : list A) (i : Z) (v : A) : result (list A) :=
  k ← norm_index (size a) i;
  Ok (<[k := v]> a).

(** [a[idx]] for an integer array [idx]. *)
Definition getitems {A} (a : list A) (idx : list Z) : result (list A) :=
  traverse (getitem a) idx.

(** [a[idx] = vals] for an integer array [idx]: the assignments are made
    in order, so that the last of two equal indices wins. *)
Fixpoint put {A} (a : list A) (idx : list Z) (vals : list A) : result (list A) :=
  match idx, vals with
  | [], [] => Ok a
  | i :: idx', v :: vals' => a' ← setitem a i v; put a' idx' vals'
  | _, _ => Raise ValueError
  end.

(** [a[mask] = v] for a boolean mask of the shape of [a]. *)
Definition putmask {A} (a : list A) (mask : list bool) (v : A) : list A :=
  zip_with (fun x (m : bool) => if m then v else x) a mask.

(** Arithmetic: a NaN operand gives NaN, finite operands are combined
    exactly. *)
Definition fbinop (op : Q -> Q -> Q) (x y : float64) : float64 :=
  match x, y with
  | Fin a, Fin b => Fin (op a b)
  | _, _ => NaN
  end.
Definition fadd : float64 -> float64 -> float64 := fbinop Qplus.
Definition fsub : float64 -> float64 -> float64 := fbinop Qminus.
Definition fmul : float64 -> float64 -> float64 := fbinop Qmult.
(** Division is only applied to nonzero divisors. *)
Definition fdiv : float64 -> float64 -> float64 := fbinop Qdiv.

(** Comparisons: any comparison with NaN is false. *)
Definition Qltb (a b : Q) : bool := negb (Qle_bool b a).
Definition fltb (x y : float64) : bool :=
  match x, y with Fin a, Fin b => Qltb a b | _, _ => false end.
Definition fgeb (x y : float64) : bool :=
  match x, y with Fin a, Fin b => Qle_bool b a | _, _ => false end.

Definition finite (x : float64) : Prop := isnan x = false.

(** [x op y] for 1-D arrays, with numpy's broadcasting of a length-1
    operand; other length mismatches raise [ValueError]. *)
Definition broadcast2 (op : float64 -> float64 -> float64)
    (x y : list float64) : result (list float64) :=
  if (length x =? length y)%nat then Ok (zip_with op x y)
  else match x, y with
       | _, [b] => Ok ((fun a => op a b) <$> x)
       | [a], _ => Ok (op a <$> y)
       | _, _ => Raise ValueError
       end.

(** [np.sum(x)]; the order of summation is immaterial in exact arithmetic. *)
Definition sum (x : list float64) : float64 := foldr fadd zero x.

(** [np.argmin] of a 1-D array: the first index of the least element, a NaN
    counting as least; the scan stops at the first NaN.  [mp] is the least
    value so far, [mi] its index and [i] the index of the head of [l]. *)
Fixpoint argmin_from (mp : float64) (mi i : Z) (l : list float64) : Z :=
  match l with
  | [] => mi
  | x :: l' =>
      if isnan mp then mi
      else if negb (fgeb x mp) then argmin_from x i (i + 1) l'
      else argmin_from mp mi (i + 1) l'
  end.

Definition argmin (a : list float64) : result Z :=
  match a with
  | [] => Raise ValueError
  | x :: l => Ok (argmin_from x 0 1 l)
  end.

(** [np.argsort] of a 1-D array: ascending, NaN last.  Ties are kept in
    index order here; numpy's default sort leaves their order open, and no
    statement below depends on it. *)
Definition sort_lt (x y : float64) : bool :=
  match x, y with
  | Fin a, Fin b => Qltb a b
  | Fin _, NaN => true
  | NaN, _ => false
  end.

Fixpoint insert_key (k : float64 * Z) (l : list (float64 * Z)) : list (float64 * Z) :=
  match l with
  | [] => [k]
  | h :: t => if sort_lt h.1 k.1 then h :: insert_key k t else k :: l
  end.

Definition argsort (a : list float64) : list Z :=
  snd <$> foldr insert_key [] (zip a (arange (length a))).

End Np.
Export Np.

(** ** The label aligner *)

(** A [ClassAssignment] is indexed by (time, location). *)
Definition class_array : Type := list (list Z).

(** [reorder(data_classes, inds)].  [inds_r] is created by [np.zeros] and so
    holds its integers as float64, as does the result; they are carried as
    integers here, [astype('int')] being exact on them.  On an in-memory
    array [xr.apply_ufunc] calls [func] once, on the whole array. *)
Definition reorder_func (inds_r : list Z) (arr : class_array) : result class_array :=
  out ← traverse (getitems inds_r) arr;
  Ok (zip_with (fun o a => putmask o ((fun x => x =? -1) <$> a) (-1)) out arr).

Definition reorder (data_classes : class_array) (inds : list Z) : result class_array :=
  let inds_r := zeros (length inds) in
  inds_r ← put inds_r inds (arange (length inds));
  reorder_func inds_r data_classes.

(** A per-class summary, the dictionary [{'mean': ..., 'std': ...}] built by
    [avg_profiles]. *)
Record ProfileSummary : Type := { mean : list float64; std : list float64 }.

(** [temp_sort(data_classes, avg, arg)]: the permutation when [arg] is set,
    the relabelled assignment otherwise. *)
Definition temp_sort (data_classes : class_array) (avg : list ProfileSummary)
    (arg : bool) : result (list Z + class_array) :=
  top_mean ← traverse (fun i => getitem (mean i) 0) avg;
  let inds := argsort top_mean in
  if arg then Ok (inl inds)
  else out ← reorder data_classes inds; Ok (inr out).

(** [match_profiles(avg0, avg1, dist)] on the summaries of [avg_profiles],
    the distances being carried exactly: it serves where a statement does
    not depend on the value of a distance.  [Binary64.match_profiles]
    below is the same function with the distances of float64.
    [norm_entry] is the body of the double loop, the value stored in
    [norms[i, j]]. *)
Definition norm_entry (dist : option (ProfileSummary -> ProfileSummary -> float64))
    (a0 a1 : ProfileSummary) : result float64 :=
  match dist with
  | None =>
      diff ← broadcast2 fsub (mean a0) (mean a1);
      Ok (sum (zip_with fmul diff diff))
  | Some d => Ok (d a0 a1)
  end.

Definition match_profiles (avg0 avg1 : list ProfileSummary)
    (dist : option (ProfileSummary -> ProfileSummary -> float64)) : result (list Z) :=
  let n_classes := length avg0 in
  if negb (n_classes =? length avg1)%nat then Raise AssertionError
  else
    norms ← traverse (fun a0 => traverse (norm_entry dist a0) avg1) avg0;
    (* np.argmin(norms, axis=1); for n_classes = 0 the reduced axis is empty *)
    if (n_classes =? 0)%nat then Raise ValueError
    else traverse argmin norms.

(** ** Arrays of profiles *)

(** A [ProfileArray] is indexed by (time, location, depth level), a
    [ReducedArray] by (time, location, component). *)
Definition array3 : Type := list (list (list float64)).

(** [k] rows of [w] entries each, cut from a flat sequence. *)
Fixpoint chunks {A} (w k : nat) (flat : list A) : list (list A) :=
  match k with
  | O => []
  | S k' => firstn w flat :: chunks w k' (skipn w flat)
  end.

(** [np.reshape(arr, (-1, w))]: the elements of [arr] in C order, cut in
    rows of [w]; [ValueError] when the number of rows cannot be inferred. *)
Definition reshape_rows {A} (w : nat) (arr : list (list (list A)))
    : result (list (list A)) :=
  let flat := concat (concat arr) in
  if (w =? 0)%nat || negb (length flat mod w =? 0)%nat then Raise ValueError
  else Ok (chunks w (length flat / w) flat).

(** [np.reshape(rows, shape)] back to the leading axes of [arr]. *)
Fixpoint reshape_like {A B} (arr : list (list A)) (rows : list B) : list (list B) :=
  match arr with
  | [] => []
  | slice :: arr' =>
      firstn (length slice) rows :: reshape_like arr' (skipn (length slice) rows)
  end.

(** [rows[inds] = 0] for [inds = np.isnan(rows)]. *)
Definition zero_fill (row : list float64) : list float64 :=
  putmask row (isnan <$> row) zero.

(** How [arr_r = np.reshape(arr, (-1, w))] relates to [arr].  numpy returns
    a view whenever the strides of [arr] allow it, as they do for a
    C-contiguous array, the array of a [DataArray] built in memory with the
    core axis last; it returns a copy otherwise, as for an array that
    [xr.apply_ufunc] had to transpose to bring the core axis last. *)
Inductive reshaped : Type :=
| View
| Copy.

(** The caller's array [arr] after [arr_r[inds] = 0]: the assignment is made
    in [arr] through a view, and leaves [arr] alone behind a copy. *)
Definition after_fill (m : reshaped) (arr : array3) (arr_r : list (list float64))
    : array3 :=
  match m with
  | View => reshape_like arr arr_r
  | Copy => arr
  end.

(** A method of a fitted scikit-learn estimator applied to the 2-D array
    [X]: the rows are handled one by one, after the validation of the
    input, which raises [ValueError] for an array without row. *)
Definition on_samples {B} (f : list float64 -> B) (X : list (list float64))
    : result (list B) :=
  match X with
  | [] => Raise ValueError
  | _ => Ok (f <$> X)
  end.

(** [out[mask] = v] for a 2-D boolean mask, which must have the shape of
    [out]; numpy raises [IndexError] otherwise. *)
Definition putmask2 {A} (out : list (list A)) (mask : list (list bool)) (v : A)
    : result (list (list A)) :=
  if bool_decide (length <$> out = length <$> mask)
  then Ok (zip_with (fun o m => putmask o m v) out mask)
  else Raise IndexError.

(** [inds[:, 0]] for a 2-D array. *)
Definition column0 {A} (inds : list (list A)) : result (list A) :=
  traverse (fun r => getitem r 0) inds.

(** ** The reducer *)

(** A fitted [sklearn.decomposition.PCA], seen through what the module uses
    of it: [n_components] and [transform], which projects each row of a 2-D
    array without missing values independently of the others. *)
Record ReducerModel : Type := {
  n_components : nat;
  transform : list float64 -> list float64
}.

(** [pca_transform(data, pca)] on an in-memory array: [xr.apply_ufunc] hands
    the array of [data] to [func], and [m] tells whether [arr_r] is a view
    on it.  The first component of the result is the caller's array after
    the call, the second is the returned array. *)
Definition pca_transform_func (m : reshaped) (pca : ReducerModel) (lev_size : nat)
    (arr : array3) : result (array3 * array3) :=
  let n_comp := n_components pca in
  arr_r ← reshape_rows lev_size arr;
  let inds := fmap (M:=list) isnan <$> arr_r in
  let arr_r := zero_fill <$> arr_r in
  out ← on_samples (transform pca) arr_r;
  out ← putmask2 out (firstn n_comp <$> inds) NaN;
  Ok (after_fill m arr arr_r, reshape_like arr out).

Definition pca_transform (m : reshaped) (lev_size : nat) (data : array3)
    (pca : ReducerModel) : result (array3 * array3) :=
  pca_transform_func m pca lev_size data.

(** ** The classifier *)

(** A fitted [sklearn.mixture.GaussianMixture]: its number of components and
    the three per-row scoring functions. *)
Record ClassifierModel : Type := {
  gmm_n_components : nat;
  predict : list float64 -> Z;
  predict_proba : list float64 -> list float64;
  score_samples : list float64 -> float64
}.

(** [gmm_classify(data_trans, gmm)]; as in [pca_transform], the first
    component of the result is the caller's array after the call. *)
Definition gmm_classify_func (m : reshaped) (gmm : ClassifierModel) (pca_size : nat)
    (arr : array3) : result (array3 * class_array) :=
  arr_r ← reshape_rows pca_size arr;
  let inds := fmap (M:=list) isnan <$> arr_r in
  let arr_r := zero_fill <$> arr_r in
  out ← on_samples (predict gmm) arr_r;
  col ← column0 inds;
  let out := putmask out col (-1) in
  Ok (after_fill m arr arr_r, reshape_like arr out).

Definition gmm_classify (m : reshaped) (pca_size : nat) (data_trans : array3)
    (gmm : ClassifierModel) : result (array3 * class_array) :=
  gmm_classify_func m gmm pca_size data_trans.

(** [gmm_prob(data_trans, gmm)]: a masked row is set to NaN throughout. *)
Definition gmm_prob_func (m : reshaped) (gmm : ClassifierModel) (pca_size : nat)
    (arr : array3) : result (array3 * array3) :=
  arr_r ← reshape_rows pca_size arr;
  let inds := fmap (M:=list) isnan <$> arr_r in
  let arr_r := zero_fill <$> arr_r in
  out ← on_samples (predict_proba gmm) arr_r;
  col ← column0 inds;
  let out := zip_with (fun (o : list float64) (b : bool) =>
                           if b then (fun _ => NaN) <$> o else o) out col in
  Ok (after_fill m arr arr_r, reshape_like arr out).

Definition gmm_prob (m : reshaped) (pca_size : nat) (data_trans : array3)
    (gmm : ClassifierModel) : result (array3 * array3) :=
  gmm_prob_func m gmm pca_size data_trans.

(** [gmm_score_samples(data_trans, gmm)]. *)
Definition gmm_score_samples_func (m : reshaped) (gmm : ClassifierModel)
    (pca_size : nat) (arr : array3) : result (array3 * list (list float64)) :=
  arr_r ← reshape_rows pca_size arr;
  let inds := fmap (M:=list) isnan <$> arr_r in
  let arr_r := zero_fill <$> arr_r in
  out ← on_samples (score_samples gmm) arr_r;
  col ← column0 inds;
  let out := putmask out col NaN in
  Ok (after_fill m arr arr_r, reshape_like arr out).

Definition gmm_score_samples (m : reshaped) (pca_size : nat) (data_trans : array3)
    (gmm : ClassifierModel) : result (array3 * list (list float64)) :=
  gmm_score_samples_func m gmm pca_size data_trans.

(** ** The aggregators *)

(** [for x in xs: s = body(x, s)], stopping at the first exception. *)
Fixpoint for_in {S} (xs : list Z) (body : Z -> S -> result S) (s : S) : result S :=
  match xs with
  | [] => Ok s
  | x :: xs' => s' ← body x s; for_in xs' body s'
  end.

(** [arr == i] as it enters a product with a float array: 1.0 or 0.0. *)
Definition class_mask (arr : list Z) (i : Z) : list float64 :=
  (fun x => if x =? i then Fin 1 else zero) <$> arr.

(** [np.mean(x)]: NaN for an empty array. *)
Definition np_mean (x : list float64) : float64 :=
  match x with
  | [] => NaN
  | _ => fdiv (sum x) (Fin (inject_Z (size x)))
  end.

Section Aggregator.

(** [np.pi] and [np.cos], external. *)
Variable np_pi : float64.
Variable np_cos : float64 -> float64.

(** The inner [func] of [count_area]: it fills [out] and ends without a
    [return], so that a call evaluates to [None]. *)
Definition count_area_func (cos_lats : list float64) (K : nat) (arr : list Z)
    : result unit :=
  let out := replicate K zero in
  out ← for_in (arange K) (fun i out =>
           prod ← broadcast2 fmul cos_lats (class_mask arr i);
           setitem out i (sum prod)) out;
  Ok tt.

(** [count_area(data_classes, K)], [lats] being [data_classes['lat'].values].
    The statement [return out] is indented as a statement of [count_area],
    not of [func].  [out] is assigned in [func] only; in the body of
    [count_area] it is a free name, which Python looks up among the globals
    of the module and the builtins when the statement runs.  Neither binds
    it: the statement raises [NameError].  The call of [xr.apply_ufunc]
    that follows it in the source is never reached. *)
Definition count_area (lats : list float64) (data_classes : class_array) (K : nat)
    : result (list (list float64)) :=
  let cos_lats := (fun lat => np_cos (fdiv (fmul lat np_pi) (Fin 180))) <$> lats in
  let func := count_area_func cos_lats K in
  Raise (NameError "out").

(** The value that the loop of the inner [func] of [mean_lat] stores in
    [out[i]]. *)
Definition mean_lat_entry (lats : list float64) (arr : list Z) (i : Z) : result float64 :=
  prod ← broadcast2 fmul lats (class_mask arr i);
  Ok (np_mean prod).

Definition mean_lat_func (lats : list float64) (K : nat) (arr : list Z) : result unit :=
  let out := replicate K zero in
  out ← for_in (arange K) (fun i out =>
           v ← mean_lat_entry lats arr i;
           setitem out i v) out;
  Ok tt.

(** [mean_lat(data_classes, K)]: the same layout as [count_area], with the
    same [return out] at the level of the outer function. *)
Definition mean_lat (lats : list float64) (data_classes : class_array) (K : nat)
    : result (list (list float64)) :=
  let func := mean_lat_func lats K in
  Raise (NameError "out").

End Aggregator.

(** ** The sampler *)

Section Sampler.

(** The generator returned by [np.random.default_rng()]: its state, and the
    indices that [choice(arr, N, replace=False)] draws among [n] rows,
    together with the next state. *)
Variable rng_state : Type.
Variable draw : rng_state -> nat -> nat -> list nat * rng_state.

(** [rng.choice(arr, N, replace=False)] along the first axis. *)
Definition rng_choice (s : rng_state) (arr : list (list float64)) (N : nat)
    : result (list (list float64)) * rng_state :=
  if (length arr <? N)%nat then (Raise ValueError, s)
  else
    let '(idx, s') := draw s (length arr) N in
    (traverse (fun i => getitem arr (Z.of_nat i)) idx, s').

(** The loop of [np.vectorize]: [func] is called on the time slices in
    turn, with the one generator. *)
Fixpoint vectorize_loop (s : rng_state) (data : array3) (N : nat) : result array3 :=
  match data with
  | [] => Ok []
  | arr :: data' =>
      let '(r, s') := rng_choice s arr N in
      rows ← r; rest ← vectorize_loop s' data' N; Ok (rows :: rest)
  end.

(** [xr.apply_ufunc(func, ..., vectorize=True)] with the new output
    dimension [M]: [np.vectorize] with signature [(n,lev)->(M,lev)].  On an
    empty time axis [func] is never called, the size of [M] stays unknown
    and numpy raises [ValueError]. *)
Definition sample_slices (s : rng_state) (data : array3) (N : nat) : result array3 :=
  match data with
  | [] => Raise ValueError
  | _ => vectorize_loop s data N
  end.

(** [result.stack(N=('M', 'time')).transpose('N', 'lev')]: the draw index
    varies slowest, sample [m * T + t] is draw [m] of time [t]. *)
Definition stack_M_time (N : nat) (out : array3) : list (list float64) :=
  concat ((fun m => omap (fun slice : list (list float64) => slice !! m) out) <$> seq 0 N).

Definition random_sample (s : rng_state) (data : array3) (N : nat)
    : result (list (list float64)) :=
  out ← sample_slices s data N;
  Ok (stack_M_time N out).

(** What numpy documents of [choice] without replacement: [N] pairwise
    distinct indices below [n], whenever [N <= n]. *)
Definition draws_without_replacement : Prop :=
  forall s n N, (N <= n)%nat ->
    length (draw s n N).1 = N /\ NoDup (draw s n N).1 /\
    Forall (fun i => (i < n)%nat) (draw s n N).1.

End Sampler.

(** ** Vocabulary of the statements *)

(** The shallowest-level mean of a class. *)
Definition shallowest (s : ProfileSummary) : option float64 := head (mean s).

(** Strictly ascending for [<]. *)
Fixpoint ascending (l : list float64) : Prop :=
  match l with
  | x :: (y :: _) as l' => fltb x y = true /\ ascending l'
  | _ => True
  end.

(** The same value: equal rationals, or both NaN. *)
Definition same_value (x y : float64) : Prop :=
  match x, y with
  | Fin a, Fin b => Qeq a b
  | NaN, NaN => True
  | _, _ => False
  end.

(** [p] is a permutation of [[0, K)], given as the array [p[0], ..., p[K-1]]. *)
Definition is_perm (K : nat) (p : list Z) : Prop :=
  length p = K /\ NoDup p /\ Forall (fun x => 0 <= x < Z.of_nat K) p.

(** [q] is the inverse of [p]: [q[p] == arange(len(p))]. *)
Definition inverse_of (p q : list Z) : Prop :=
  length q = length p /\ getitems q p = Ok (arange (length p)).

(** Every entry is a label in [[0, K)] or the sentinel [-1]. *)
Definition ClassAssignment (K : nat) (a : class_array) : Prop :=
  Forall (Forall (fun x => x = -1 \/ 0 <= x < Z.of_nat K)) a.

(** The entry at time [t], location [j]. *)
Definition at2 {A} (a : list (list A)) (t j : nat) : option A :=
  a !! t ≫= (.!! j).

(** [y] is the new label of [x] under [reorder(_, p)]: the sentinel is kept,
    any other label becomes its position in [p]. *)
Definition relabel (p : list Z) (x y : Z) : Prop :=
  (x = -1 /\ y = -1) \/ (x <> -1 /\ 0 <= y /\ p !! Z.to_nat y = Some x).

(** The ranks of classes 0, 1, 2 when their shallowest-level means are
    5.0, 1.0, 3.0; the sentinel is kept. *)
Definition rank_513 (x : Z) : Z :=
  match x with 0 => 2 | 1 => 0 | 2 => 1 | _ => x end.

(** Summaries used to exercise the statements. *)
Definition avg_513 : list ProfileSummary :=
  [ {| mean := [Fin 5; Fin 2]; std := [Fin 1; Fin 1] |};
    {| mean := [Fin 1; Fin 0]; std := [Fin 1; Fin 1] |};
    {| mean := [Fin 3; Fin 0]; std := [Fin 1; Fin 1] |} ].

Definition avg_135 : list ProfileSummary :=
  [ {| mean := [Fin 1; Fin 0]; std := [Fin 1; Fin 1] |};
    {| mean := [Fin 3; Fin 0]; std := [Fin 1; Fin 1] |};
    {| mean := [Fin 5; Fin 2]; std := [Fin 1; Fin 1] |} ].

(** Every profile of [a] has [L] entries along the last axis. *)
Definition last_axis (L : nat) (a : array3) : Prop :=
  Forall (Forall (fun row => length row = L)) a.

(** [a] has shape [(T, n, L)]. *)
Definition shape3 (T n L : nat) (a : array3) : Prop :=
  length a = T /\ Forall (fun s => length s = n) a /\ last_axis L a.

Definition has_missing (row : list float64) : Prop :=
  Exists (fun x => isnan x = true) row.
Definition fully_missing (row : list float64) : Prop :=
  Forall (fun x => isnan x = true) row.
Definition no_missing (row : list float64) : Prop := Forall finite row.

(** The array holds at least one profile. *)
Definition has_profile (a : array3) : Prop := concat a <> [].

(** The caller's array after a wrapper has run on it: zero-filled when the
    wrapper worked on a view, as it was otherwise. *)
Definition filled (m : reshaped) (a : array3) : array3 :=
  match m with
  | View => fmap (M:=list) zero_fill <$> a
  | Copy => a
  end.

(** Whether the first entry of a row is missing. *)
Definition first_missing (row : list float64) : bool :=
  match row with x :: _ => isnan x | [] => false end.

(** A reducer fitted on profiles of [lev] depth levels: it keeps between 1
    and [lev] components and maps a profile without missing values to
    [n_components] finite values. *)
Definition trained_reducer (lev : nat) (pca : ReducerModel) : Prop :=
  (1 <= n_components pca <= lev)%nat /\
  forall row, length row = lev -> no_missing row ->
    length (transform pca row) = n_components pca /\ no_missing (transform pca row).

(** A classifier with [K >= 1] components fitted on vectors of [ncomp]
    components: on a vector without missing values it predicts a label in
    [[0, K)], [K] finite probabilities and a finite score. *)
Definition trained_classifier (ncomp K : nat) (gmm : ClassifierModel) : Prop :=
  gmm_n_components gmm = K /\ (1 <= K)%nat /\
  forall row, length row = ncomp -> no_missing row ->
    0 <= predict gmm row < Z.of_nat K /\
    length (predict_proba gmm row) = K /\ no_missing (predict_proba gmm row) /\
    finite (score_samples gmm row).

(** The reduced vector that [pca_transform] computes for one profile. *)
Definition reduced_row (pca : ReducerModel) (row : list float64) : list float64 :=
  putmask (transform pca (zero_fill row)) (firstn (n_components pca) (isnan <$> row)) NaN.

(** A linear projection [(x - mean_) @ components_.T], the form of a fitted
    PCA without whitening. *)
Definition dot (u v : list float64) : float64 := sum (zip_with fmul u v).
Definition linear_pca (mean_ : list float64) (components_ : list (list float64))
    : ReducerModel :=
  {| n_components := length components_;
     transform := fun row => dot (zip_with fsub row mean_) <$> components_ |}.

(** Models used to exercise the statements: a projection of 3 depth levels
    on 2 components, and a 2-class classifier splitting on the sign of the
    first component. *)
Definition demo_pca : ReducerModel :=
  linear_pca [Fin 1; Fin 1; Fin 1] [[Fin 1; Fin 0; Fin 0]; [Fin 0; Fin 0; Fin 1]].

Definition demo_predict (row : list float64) : Z :=
  match row with
  | Fin q :: _ => if Qle_bool 0 q then 1 else 0
  | _ => 0
  end.

Definition demo_gmm : ClassifierModel :=
  {| gmm_n_components := 2;
     predict := demo_predict;
     predict_proba := fun row =>
       if demo_predict row =? 0 then [Fin 1; Fin 0] else [Fin 0; Fin 1];
     score_samples := fun _ => Fin (-1) |}.

(** The label, the probability vector and the score that the classifier
    wrappers compute for one reduced vector. *)
Definition class_of (gmm : ClassifierModel) (row : list float64) : Z :=
  if first_missing row then -1 else predict gmm (zero_fill row).
Definition proba_of (gmm : ClassifierModel) (row : list float64) : list float64 :=
  if first_missing row then (fun _ => NaN) <$> predict_proba gmm (zero_fill row)
  else predict_proba gmm (zero_fill row).
Definition score_of (gmm : ClassifierModel) (row : list float64) : float64 :=
  if first_missing row then NaN else score_samples gmm (zero_fill row).

(** A (time=2, location=4, depth=3) array whose location 2 is fully missing. *)
Definition demo_data : array3 :=
  [ [ [Fin 1; Fin 2; Fin 3]; [Fin 2; Fin 0; Fin 1]; [NaN; NaN; NaN]; [Fin 0; Fin 1; Fin 5] ];
    [ [Fin 3; Fin 1; Fin 1]; [Fin 1; Fin 1; Fin 4]; [NaN; NaN; NaN]; [Fin 2; Fin 2; Fin 2] ] ].

(** The number of locations of a time slice that are not fully missing. *)
Definition valid_count (slice : list (list float64)) : nat :=
  length (filter (fun row => ~ fully_missing row) slice).

(** A generator that draws the first [N] rows, in order. *)
Definition draw_first (s : unit) (n N : nat) : list nat * unit := (seq 0 N, s).

(** A fitted mixture together with its attribute [means_], one row of
    component means per class. *)
Record FittedMixture : Type := {
  mixture :> ClassifierModel;
  means_ : list (list float64)
}.

(** [pca_sort(data_classes, gmm)]: [gmm.means_[:, 0]], sorted, gives the
    permutation handed to [reorder]. *)
Definition pca_sort (data_classes : class_array) (gmm : FittedMixture)
    : result class_array :=
  means ← column0 (means_ gmm);
  let inds := argsort means in
  reorder data_classes inds.

(** The order of [np.argsort] on two keys: [x] comes no later than [y]. *)
Definition sort_le (x y : float64) : Prop := sort_lt y x = false.

(** ** Retrieval and the options dictionary *)

(** The values held by the options: strings, and the flag ['raw']. *)
Inductive pyval : Type :=
| PStr (s : string)
| PBool (b : bool).

(** [options_default] of [retrieve_profiles]. *)
Definition options_default : gmap string pyval :=
  list_to_map
    [ ("dataVariableId", PStr "thetao"); ("dataSourceId", PStr "UKESM1-0-LL");
      ("experimentId", PStr "historical"); ("tableId", PStr "Omon");
      ("memberId", PStr "r1i1p1f2"); ("raw", PBool false) ]%string.

(** [slice(start, stop)] of two month strings. *)
Record TimeRange : Type := { range_start : string; range_stop : string }.

Section Retrieval.

(** The data arrays, the reading of the catalogue and of the store once
    the options are merged (with the depth selection, the latitude bound and
    the mask of the call), [xr.concat] along time, and the numerical part of
    [generate_trainingset] (sampling, for one outcome of the draws,
    normalisation, fit and projection): external. *)
Variable Data : Type.
Variable fetch : gmap string pyval -> TimeRange -> Data.
Variable concat_time : Data -> Data -> Data.
Variable Out : Type.
Variable fit_and_transform : Data -> nat -> nat -> Out.

(** [retrieve_profiles]: [{**options_default, **options}] is a new
    dictionary, the argument is not changed. *)
Definition retrieve_profiles (timeRange : TimeRange) (options : gmap string pyval)
    : Data :=
  let options := options ∪ options_default in
  fetch options timeRange.

(** [generate_trainingset].  The default value of [options] is one
    dictionary, created when the function is defined and shared by all the
    calls that omit the argument: [default] is its content before the call.
    The result comes with the content, after the call, of the dictionary
    bound to [options] and of the default dictionary. *)
Definition generate_trainingset (timeRange : TimeRange)
    (options : option (gmap string pyval)) (n_components N : nat)
    (default : gmap string pyval)
    : Out * gmap string pyval * gmap string pyval :=
  let opts := match options with Some o => o | None => default end in
  let data := retrieve_profiles timeRange opts in
  if String.ltb "2014-12" (range_stop timeRange) then
    let opts' := <["experimentId"%string := PStr "ssp370"]> opts in
    let data2 := retrieve_profiles timeRange opts' in
    let data := concat_time data data2 in
    (fit_and_transform data n_components N, opts',
     match options with Some _ => default | None => opts' end)
  else (fit_and_transform data n_components N, opts, default).

End Retrieval.

(** A store that answers with the experiment and the period asked for. *)
Definition fetch_log (options : gmap string pyval) (timeRange : TimeRange)
    : list (option pyval * string) :=
  [(options !! "experimentId"%string, range_stop timeRange)].

(** ** Class summaries *)

(** [data.where(data_classes == i)], row by row: the profiles of class [i]
    are kept, the others are set to NaN. *)
Definition where_class (rows : list (list float64)) (labels : list Z) (i : Z)
    : list (list float64) :=
  zip_with (fun (row : list float64) (l : Z) =>
              if l =? i then row else (fun _ => NaN) <$> row) rows labels.

(** The values at depth level [l]. *)
Definition level (l : nat) (rows : list (list float64)) : list float64 :=
  omap (fun row : list float64 => row !! l) rows.

(** [mean(skipna=True)]: the mean of the values that are not NaN, NaN when
    there is none. *)
Definition nanmean (xs : list float64) : float64 :=
  match filter finite xs with
  | [] => NaN
  | v => fdiv (sum v) (Fin (inject_Z (size v)))
  end.

Section Summaries.

(** [np.sqrt], external. *)
Variable np_sqrt : float64 -> float64.

(** [std(skipna=True, ddof=1)]: NaN unless two values at least are not
    NaN. *)
Definition nanstd1 (xs : list float64) : float64 :=
  let v := filter finite xs in
  if (length v <=? 1)%nat then NaN
  else
    let m := fdiv (sum v) (Fin (inject_Z (size v))) in
    let dev := (fun x => fsub x m) <$> v in
    np_sqrt (fdiv (sum (zip_with fmul dev dev)) (Fin (inject_Z (size v - 1)))).

(** [avg_profiles(data, data_classes, K)], [lev_size] being the length of
    the depth axis of [data]; the statistics are taken over time and
    location together. *)
Definition avg_profiles (lev_size : nat) (data : array3) (data_classes : class_array)
    (K : nat) : list ProfileSummary :=
  (fun i =>
     let d := where_class (concat data) (concat data_classes) i in
     {| mean := (fun l => nanmean (level l d)) <$> seq 0 lev_size;
        std := (fun l => nanstd1 (level l d)) <$> seq 0 lev_size |}) <$> arange K.

End Summaries.

(** ** Spatial matching *)

(** [x <= y] on floats: false when an operand is NaN. *)
Definition fleb (x y : float64) : bool :=
  match x, y with Fin a, Fin b => Qle_bool a b | _, _ => false end.

(** [np.argmax] of a 1-D array: the first index of the greatest element, a
    NaN counting as greatest; the scan stops at the first NaN. *)
Fixpoint argmax_from (mp : float64) (mi i : Z) (l : list float64) : Z :=
  match l with
  | [] => mi
  | x :: l' =>
      if isnan mp then mi
      else if negb (fleb x mp) then argmax_from x i (i + 1) l'
      else argmax_from mp mi (i + 1) l'
  end.

Definition argmax (a : list float64) : result Z :=
  match a with
  | [] => Raise ValueError
  | x :: l => Ok (argmax_from x 0 1 l)
  end.

(** [sum(skipna=True)]: the sum of the values that are not NaN. *)
Definition nansum (xs : list float64) : float64 := sum (filter finite xs).

Section Spatial.

(** [np.cos], external. *)
Variable np_cos : float64 -> float64.

(** [np.cos(data_classes['lat'] * 3.1415/180)] at one location. *)
Definition area_weight (lat : float64) : float64 :=
  np_cos (fdiv (fmul lat (Fin (31415 # 10000))) (Fin 180)).

(** The terms of one time slice in
    [((data_classes.where(data_classes_ref==k) == j) * cos_lat)]: the weight
    of a location where the reference holds [k] and the candidate [j], 0
    elsewhere. *)
Definition overlap_terms (lats : list float64) (crow rrow : list Z) (j k : Z)
    : list float64 :=
  zip_with (fun (cr : Z * Z) (lat : float64) =>
              fmul (if (cr.2 =? k) && (cr.1 =? j) then Fin 1 else zero)
                   (area_weight lat))
           (zip crow rrow) lats.

(** [counts[j][k]], summed over time and location. *)
Definition overlap (lats : list float64) (data_classes data_classes_ref : class_array)
    (j k : Z) : float64 :=
  nansum (concat (zip_with (fun crow rrow => overlap_terms lats crow rrow j k)
                           data_classes data_classes_ref)).

(** [match_spatial(data_classes, data_classes_ref, n_classes)], [lats] being
    [data_classes['lat']]: [np.argmax(counts, axis=0)] takes, for each
    reference class [k], the arg-max over the candidate classes [j]. *)
Definition match_spatial (lats : list float64)
    (data_classes data_classes_ref : class_array) (n_classes : nat)
    : result (list Z) :=
  let counts :=
    (fun j => (fun k => overlap lats data_classes data_classes_ref j k)
                <$> arange n_classes) <$> arange n_classes in
  if (n_classes =? 0)%nat then Raise ValueError
  else traverse (fun k => argmax (omap (fun row : list float64 => row !! k) counts))
                (seq 0 n_classes).

End Spatial.

(** Class [k] is held by some location of [a] at some time. *)
Definition occurs (k : Z) (a : class_array) : Prop :=
  exists t j, at2 a t j = Some k.

(** ** IEEE 754 binary64 *)

(** The float64 arithmetic of numpy, bit for bit: a value is a signed zero,
    a signed infinity, NaN or [(-1)^s * m * 2^e], and each operation rounds
    the exact result to the nearest value, ties to even, as specified for
    the format with a 53-bit mantissa and largest exponent 1024. *)

Module Binary64.

Definition prec : Z := 53.
Definition emax : Z := 1024.

Definition binary64 : Type := spec_float.

Definition add : binary64 -> binary64 -> binary64 := SFadd prec emax.
Definition sub : binary64 -> binary64 -> binary64 := SFsub prec emax.
Definition mul : binary64 -> binary64 -> binary64 := SFmul prec emax.

(** [x >= y] and [x == y]; both are false when an operand is NaN. *)
Definition geb (x y : binary64) : bool := SFleb y x.
Definition eqb (x y : binary64) : bool := SFeqb x y.

Definition isnan (x : binary64) : bool :=
  match x with
  | S754_nan => true
  | _ => false
  end.

Definition zero : binary64 := S754_zero false.

(** [x op y] for 1-D arrays, with numpy's broadcasting of a length-1
    operand; other length mismatches raise [ValueError]. *)
Definition broadcast2 (op : binary64 -> binary64 -> binary64)
    (x y : list binary64) : result (list binary64) :=
  if (length x =? length y)%nat then Ok (zip_with op x y)
  else match x, y with
       | _, [b] => Ok ((fun a => op a b) <$> x)
       | [a], _ => Ok (op a <$> y)
       | _, _ => Raise ValueError
       end.

(** A sum as numpy computes it: additions of two values, in some grouping
    of the terms. *)
Inductive additions : Type :=
| Term (x : binary64)
| Plus (a b : additions).

Fixpoint value (t : additions) : binary64 :=
  match t with
  | Term x => x
  | Plus a b => add (value a) (value b)
  end.

Fixpoint terms (t : additions) : list binary64 :=
  match t with
  | Term x => [x]
  | Plus a b => terms a ++ terms b
  end.

(** What is known of [np.sum] on a 1-D float64 array: the result is made
    by binary64 additions from the elements of the array, each taken once,
    and possibly from an initial 0.0.  The order and the grouping of the
    additions are numpy's own (pairwise summation in blocks) and are left
    open. *)
Definition sums (np_sum : list binary64 -> binary64) : Prop :=
  forall x, exists t,
    (terms t ≡ₚ x \/ terms t ≡ₚ zero :: x) /\ np_sum x = value t.

(** The plain loop [res = 0.; for v in x: res += v]: one way of adding,
    used to run the statements on given arrays. *)
Definition sum_in_order (x : list binary64) : binary64 := foldl add zero x.

(** [np.argmin] of a 1-D array, as [Np.argmin]. *)
Fixpoint argmin_from (mp : binary64) (mi i : Z) (l : list binary64) : Z :=
  match l with
  | [] => mi
  | x :: l' =>
      if isnan mp then mi
      else if negb (geb x mp) then argmin_from x i (i + 1) l'
      else argmin_from mp mi (i + 1) l'
  end.

Definition argmin (a : list binary64) : result Z :=
  match a with
  | [] => Raise ValueError
  | x :: l => Ok (argmin_from x 0 1 l)
  end.

(** The summaries, with their profiles held as binary64 arrays. *)
Record ProfileSummary : Type := { mean : list binary64; std : list binary64 }.

Section MatchProfiles.

Variable np_sum : list binary64 -> binary64.

(** [match_profiles(avg0, avg1, dist)].  [norm_entry] is the body of the
    double loop, the value stored in [norms[i, j]]. *)
Definition norm_entry (dist : option (ProfileSummary -> ProfileSummary -> binary64))
    (a0 a1 : ProfileSummary) : result binary64 :=
  match dist with
  | None =>
      diff ← broadcast2 sub (mean a0) (mean a1);
      Ok (np_sum (zip_with mul diff diff))
  | Some d => Ok (d a0 a1)
  end.

Definition match_profiles (avg0 avg1 : list ProfileSummary)
    (dist : option (ProfileSummary -> ProfileSummary -> binary64)) : result (list Z) :=
  let n_classes := length avg0 in
  if negb (n_classes =? length avg1)%nat then Raise AssertionError
  else
    norms ← traverse (fun a0 => traverse (norm_entry dist a0) avg1) avg0;
    (* np.argmin(norms, axis=1); for n_classes = 0 the reduced axis is empty *)
    if (n_classes =? 0)%nat then Raise ValueError
    else traverse argmin norms.

End MatchProfiles.

(** *** Vocabulary *)

(** Whether a value is [+0.0]. *)
Definition is_zero (x : binary64) : bool :=
  match x with
  | S754_zero false => true
  | _ => false
  end.

(** The value stored in [norms[i, j]] for two profiles of one length. *)
Definition sqdist (np_sum : list binary64 -> binary64) (x y : list binary64) : binary64 :=
  let diff := zip_with sub x y in np_sum (zip_with mul diff diff).

(** A number of the format: neither NaN nor infinite, with the mantissa and
    the exponent in the bounds of binary64. *)
Definition number (x : binary64) : Prop :=
  valid_binary prec emax x = true /\
  match x with
  | S754_zero _ | S754_finite _ _ _ => True
  | _ => False
  end.

(** Zero or more, [+inf] included; [-0.0] and NaN are left out. *)
Definition nonneg (x : binary64) : Prop :=
  match x with
  | S754_zero false | S754_infinity false | S754_finite false _ _ => True
  | _ => False
  end.

(** Mean profiles of [L] depth levels, all of them numbers. *)
Definition real_profiles (L : nat) (avg : list ProfileSummary) : Prop :=
  Forall (fun a => length (mean a) = L /\ Forall number (mean a)) avg.

(** [avg1[p[i]]['mean']] is [avg0[i]['mean']] for every class [i]. *)
Definition permuted_by (p : list Z) (avg0 avg1 : list ProfileSummary) : Prop :=
  Forall2 (fun a0 pi => mean <$> avg1 !! Z.to_nat pi = Some (mean a0)) avg0 p.

(** No two profiles of [avg] are at the same distance from a profile of
    [avg], the distances being those that [match_profiles] computes. *)
Definition no_equidistant (np_sum : list binary64 -> binary64)
    (avg : list ProfileSummary) : Prop :=
  forall i j k a b c x y,
    avg !! i = Some a -> avg !! j = Some b -> avg !! k = Some c -> j <> k ->
    norm_entry np_sum None a b = Ok x -> norm_entry np_sum None a c = Ok y ->
    eqb x y = false.

(** The real number that a binary64 number stands for. *)
Definition exact (x : binary64) : Q :=
  match x with
  | S754_finite s m e =>
      ((if s then -1 else 1) * inject_Z (Zpos m) * Qpower 2 e)%Q
  | _ => 0%Q
  end.

(** The squared distance of two profiles in exact arithmetic. *)
Definition exact_sqdist (a b : ProfileSummary) : Q :=
  foldr Qplus 0%Q
    (zip_with (fun x y => (exact x - exact y) * (exact x - exact y))%Q (mean a) (mean b)).

(** No two profiles of [avg] are at the same exact distance from a profile
    of [avg]. *)
Definition no_equidistant_exact (avg : list ProfileSummary) : Prop :=
  forall i j k a b c,
    avg !! i = Some a -> avg !! j = Some b -> avg !! k = Some c -> j <> k ->
    ~ (exact_sqdist a b == exact_sqdist a c)%Q.

(** [float(n)] for an integer [n], and [2^-700]. *)
Definition of_Z (n : Z) : binary64 := binary_normalize prec emax n 0 false.
Definition tiny : binary64 := SFldexp prec emax (of_Z 1) (-700).

(** Two one-level profiles, and the same in the other order. *)
Definition avg_tiny : list ProfileSummary :=
  [ {| mean := [tiny]; std := [zero] |}; {| mean := [zero]; std := [zero] |} ].

Definition avg_tiny_swapped : list ProfileSummary :=
  [ {| mean := [zero]; std := [zero] |}; {| mean := [tiny]; std := [zero] |} ].

(** Summaries with the shallowest means 5, 1, 3, and the same sorted. *)
Definition means_513 : list ProfileSummary :=
  [ {| mean := [of_Z 5; of_Z 2]; std := [of_Z 1; of_Z 1] |};
    {| mean := [of_Z 1; of_Z 0]; std := [of_Z 1; of_Z 1] |};
    {| mean := [of_Z 3; of_Z 0]; std := [of_Z 1; of_Z 1] |} ].

Definition means_135 : list ProfileSummary :=
  [ {| mean := [of_Z 1; of_Z 0]; std := [of_Z 1; of_Z 1] |};
    {| mean := [of_Z 3; of_Z 0]; std := [of_Z 1; of_Z 1] |};
    {| mean := [of_Z 5; of_Z 2]; std := [of_Z 1; of_Z 1] |} ].

End Binary64.

(* ================================================================== *)
(** * Properties *)

(** ** Results *)

Lemma traverse_Forall2 {A B} (f : A -> result B) (R : A -> B -> Prop) l :
  Forall (fun x => exists y, f x = Ok y /\ R x y) l ->
  exists ys, traverse f l = Ok ys /\ Forall2 R l ys.
Proof.
  induction 1 as [|x l (y & Hy & HR) _ (ys & Hys & IH)]; simpl.
  - exists []. split; [reflexivity | constructor].
  - exists (y :: ys). rewrite Hy. simpl. rewrite Hys. simpl.
    split; [reflexivity | by constructor].
Qed.

Lemma traverse_Ok_Forall2 {A B} (f : A -> result B) l ys :
  traverse f l = Ok ys -> Forall2 (fun x y => f x = Ok y) l ys.
Proof.
  revert ys. induction l as [|x l IH]; simpl; intros ys H.
  - injection H as <-. constructor.
  - destruct (f x) as [y|e] eqn:Hy; simpl in H; [|discriminate].
    destruct (traverse f l) as [ys'|e] eqn:Hys; simpl in H; [|discriminate].
    injection H as <-. constructor; auto.
Qed.

(** ** Indexing *)

Lemma norm_index_nonneg n i :
  0 <= i < n -> norm_index n i = Ok (Z.to_nat i).
Proof.
  intros [H0 Hn]. unfold norm_index.
  apply Z.leb_le in H0. apply Z.ltb_lt in Hn. by rewrite H0, Hn.
Qed.

Lemma norm_index_last n : 0 < n -> norm_index n (-1) = Ok (Z.to_nat (n - 1)).
Proof.
  intros Hn. unfold norm_index. simpl.
  replace (- n <=? -1) with true by (symmetry; apply Z.leb_le; lia).
  reflexivity.
Qed.

Lemma getitem_nonneg {A} (a : list A) i x :
  0 <= i -> a !! Z.to_nat i = Some x -> getitem a i = Ok x.
Proof.
  intros H0 Hx. unfold getitem.
  rewrite norm_index_nonneg.
  - simpl. by rewrite Hx.
  - apply lookup_lt_Some in Hx. unfold size. lia.
Qed.

Lemma getitem_last {A} (a : list A) : a <> [] -> exists x, getitem a (-1) = Ok x.
Proof.
  intros Ha. unfold getitem.
  assert (0 < size a) as Hn by (unfold size; destruct a; simpl; [done | lia]).
  rewrite norm_index_last by done. simpl.
  destruct (lookup_lt_is_Some_2 a (Z.to_nat (size a - 1))) as [x Hx].
  - unfold size in *. lia.
  - exists x. by rewrite Hx.
Qed.

Lemma put_spec {A} (idx : list Z) : forall (a vals : list A),
  length vals = length idx ->
  Forall (fun i => 0 <= i < size a) idx ->
  NoDup idx ->
  exists r, put a idx vals = Ok r /\ length r = length a /\
    (forall k i v, idx !! k = Some i -> vals !! k = Some v ->
                   r !! Z.to_nat i = Some v) /\
    (forall j, Z.of_nat j ∉ idx -> r !! j = a !! j).
Proof.
  induction idx as [|i idx IH]; intros a vals Hlen Hrange Hnd.
  - destruct vals; [|discriminate]. exists a. simpl. repeat split; auto.
    intros k i v Hk. by destruct k.
  - destruct vals as [|v vals]; [discriminate|].
    apply Forall_cons in Hrange as [Hi Hrange].
    apply NoDup_cons in Hnd as [Hni Hnd].
    simpl. unfold setitem. rewrite norm_index_nonneg by done. simpl.
    destruct (IH (<[Z.to_nat i := v]> a) vals) as (r & Hr & Hlr & Hin & Hout).
    + simpl in Hlen. lia.
    + unfold size in *. by rewrite length_insert.
    + done.
    + exists r. split; [done|]. rewrite length_insert in Hlr. split; [done|]. split.
      * intros [|k] i' v' Hk Hv; simpl in *.
        -- injection Hk as <-. injection Hv as <-.
           rewrite Hout by (rewrite Z2Nat.id by lia; done).
           apply list_lookup_insert_eq. unfold size in Hi. lia.
        -- eauto.
      * intros j Hj. apply not_elem_of_cons in Hj as [Hji Hj].
        rewrite Hout by done. apply list_lookup_insert_ne. lia.
Qed.

(** ** Permutations of [[0, K)] *)

Lemma arange_lookup n k : (k < n)%nat -> arange n !! k = Some (Z.of_nat k).
Proof.
  intros Hk. unfold arange. rewrite list_lookup_fmap, lookup_seq_lt by lia.
  reflexivity.
Qed.

Lemma is_perm_surj K p j :
  is_perm K p -> (j < K)%nat -> exists i, p !! i = Some (Z.of_nat j).
Proof.
  intros (Hlen & Hnd & Hrange) Hj.
  assert (p ≡ₚ arange K) as Hp.
  { apply submseteq_length_Permutation.
    - apply NoDup_submseteq; [done|]. intros x Hx.
      rewrite Forall_forall in Hrange. specialize (Hrange x Hx).
      unfold arange. apply list_elem_of_fmap. exists (Z.to_nat x).
      split; [lia|]. apply elem_of_seq. lia.
    - unfold arange. rewrite length_fmap, length_seq. lia. }
  assert (Z.of_nat j ∈ p) as Hin.
  { rewrite Hp. unfold arange. apply list_elem_of_fmap. exists j.
    split; [done|]. apply elem_of_seq. lia. }
  by apply list_elem_of_lookup in Hin.
Qed.

Lemma is_perm_inj K p i i' x :
  is_perm K p -> p !! i = Some x -> p !! i' = Some x -> i = i'.
Proof. intros (_ & Hnd & _). by apply NoDup_lookup. Qed.

Lemma is_perm_lookup_range K p i x :
  is_perm K p -> p !! i = Some x -> 0 <= x < Z.of_nat K /\ (i < K)%nat.
Proof.
  intros (Hlen & _ & Hrange) Hi. split.
  - rewrite Forall_forall in Hrange. apply Hrange.
    apply list_elem_of_lookup. eauto.
  - apply lookup_lt_Some in Hi. lia.
Qed.

(** [inds_r], as [reorder] builds it, sends each entry of [p] to its position. *)
Lemma put_inverse K p :
  is_perm K p ->
  exists r, put (zeros K) p (arange K) = Ok r /\ length r = K /\
    forall i x, p !! i = Some x -> r !! Z.to_nat x = Some (Z.of_nat i).
Proof.
  intros Hp. pose proof Hp as (Hlen & Hnd & Hrange).
  destruct (put_spec p (zeros K) (arange K)) as (r & Hr & Hlr & Hin & _).
  - unfold arange. rewrite length_fmap, length_seq. lia.
  - unfold size, zeros. by rewrite length_replicate.
  - done.
  - exists r. split; [done|]. unfold zeros in Hlr. rewrite length_replicate in Hlr.
    split; [done|]. intros i x Hi. apply (Hin i); [done|].
    apply arange_lookup. apply lookup_lt_Some in Hi. lia.
Qed.

Lemma inverse_of_lookup p q i x :
  inverse_of p q -> p !! i = Some x -> getitem q x = Ok (Z.of_nat i).
Proof.
  intros [_ Htake] Hi. apply traverse_Ok_Forall2 in Htake.
  destruct (Forall2_lookup_l _ _ _ _ _ Htake Hi) as (y & Hy & Hget).
  rewrite Hget. f_equal.
  rewrite arange_lookup in Hy by (by apply lookup_lt_Some in Hi). congruence.
Qed.

Lemma getitem_nonneg_inv {A} (a : list A) i x :
  0 <= i -> getitem a i = Ok x -> a !! Z.to_nat i = Some x.
Proof.
  intros H0 Hx. unfold getitem, norm_index in Hx.
  apply Z.leb_le in H0 as H0'. rewrite H0' in Hx. simpl in Hx.
  destruct (i <? size a) eqn:Hlt; simpl in Hx.
  - destruct (a !! Z.to_nat i); congruence.
  - replace (i <? 0) with false in Hx by (symmetry; apply Z.ltb_ge; lia).
    rewrite andb_false_r in Hx. discriminate.
Qed.

Lemma inverse_of_perm K p q :
  is_perm K p -> inverse_of p q ->
  is_perm K q /\ forall i x, p !! i = Some x -> q !! Z.to_nat x = Some (Z.of_nat i).
Proof.
  intros Hp Hq.
  assert (forall i x, p !! i = Some x -> q !! Z.to_nat x = Some (Z.of_nat i)) as Hinv.
  { intros i x Hi. apply getitem_nonneg_inv.
    - by apply (is_perm_lookup_range K p i x).
    - by apply (inverse_of_lookup p q). }
  split; [|done].
  pose proof Hp as (Hlen & _ & _). destruct Hq as [Hlq _].
  assert (forall j y, q !! j = Some y -> exists i, y = Z.of_nat i /\ p !! i = Some (Z.of_nat j)) as Hback.
  { intros j y Hj. assert (j < K)%nat as HjK by (apply lookup_lt_Some in Hj; lia).
    destruct (is_perm_surj K p j Hp HjK) as [i Hi].
    exists i. split; [|done]. apply Hinv in Hi. rewrite Nat2Z.id in Hi. congruence. }
  split; [lia|]. split.
  - apply NoDup_alt. intros j j' y Hj Hj'.
    destruct (Hback _ _ Hj) as (i & -> & Hi). destruct (Hback _ _ Hj') as (i' & Hii & Hi').
    apply Nat2Z.inj in Hii as <-. rewrite Hi in Hi'. injection Hi' as H. lia.
  - apply Forall_forall. intros y Hy. apply list_elem_of_lookup in Hy as [j Hj].
    destruct (Hback _ _ Hj) as (i & -> & Hi).
    apply (is_perm_lookup_range K p) in Hi; [lia | done].
Qed.

(** ** [reorder] *)

Lemma putmask_Forall2 {A B} (R R' : A -> B -> Prop) (f : A -> bool) v a o :
  (forall x y, R x y -> R' x (if f x then v else y)) ->
  Forall2 R a o -> Forall2 R' a (putmask o (f <$> a) v).
Proof.
  intros HR. induction 1; simpl; constructor; auto.
Qed.

Lemma zip_with_Forall2 {A B C} (R : A -> B -> Prop) (R' : A -> C -> Prop)
    (g : B -> A -> C) a o :
  (forall x y, R x y -> R' x (g y x)) ->
  Forall2 R a o -> Forall2 R' a (zip_with g o a).
Proof.
  intros HR. induction 1; simpl; constructor; auto.
Qed.

Lemma reorder_spec K p a :
  (0 < K)%nat -> is_perm K p -> ClassAssignment K a ->
  exists b, reorder a p = Ok b /\ Forall2 (Forall2 (relabel p)) a b.
Proof.
  intros HK Hp Ha. unfold reorder.
  pose proof Hp as (Hlen & _ & _). rewrite Hlen.
  destruct (put_inverse K p Hp) as (r & -> & Hlr & Hr). simpl.
  unfold reorder_func.
  pose (R := fun x o : Z => x = -1 \/ (x <> -1 /\ 0 <= o /\ p !! Z.to_nat o = Some x)).
  destruct (traverse_Forall2 (getitems r) (Forall2 R) a) as (out & -> & Hout).
  { eapply Forall_impl; [exact Ha|]. intros row Hrow. simpl in Hrow.
    apply traverse_Forall2.
    eapply Forall_impl; [exact Hrow|]. intros x Hx. simpl in Hx.
    destruct Hx as [-> | Hx].
    - destruct (getitem_last r) as [o Ho].
      + intros ->. simpl in Hlr. lia.
      + exists o. split; [done|]. by left.
    - destruct (is_perm_surj K p (Z.to_nat x) Hp) as [i Hi]; [lia|].
      rewrite Z2Nat.id in Hi by lia.
      exists (Z.of_nat i). split.
      + apply getitem_nonneg; [lia|]. by apply Hr.
      + right. rewrite Nat2Z.id. repeat split; [lia | lia | done]. }
  simpl. eexists. split; [reflexivity|].
  eapply zip_with_Forall2; [|exact Hout].
  intros row o Hrow. simpl.
  eapply putmask_Forall2; [|exact Hrow].
  intros x y [-> | (Hx & Hy & Hpy)]; simpl.
  - by left.
  - replace (x =? -1) with false by (symmetry; apply Z.eqb_neq; done).
    by right.
Qed.

Lemma relabel_ClassAssignment K p a b :
  is_perm K p -> Forall2 (Forall2 (relabel p)) a b -> ClassAssignment K b.
Proof.
  intros (Hlen & _ & _) Hab. unfold ClassAssignment.
  induction Hab as [|ra rb a b Hrow _ IH]; constructor; [|done].
  clear IH. induction Hrow as [|x y ra rb Hxy _ IH]; constructor; [|done].
  destruct Hxy as [[_ ->] | (_ & Hy & Hpy)]; [by left | right].
  apply lookup_lt_Some in Hpy. lia.
Qed.

Lemma at2_Forall2 {A B} (R : A -> B -> Prop) a b t j x :
  Forall2 (Forall2 R) a b -> at2 a t j = Some x ->
  exists y, at2 b t j = Some y /\ R x y.
Proof.
  intros Hab. unfold at2. intros Hx.
  destruct (a !! t) as [ra|] eqn:Hra; simpl in Hx; [|discriminate].
  destruct (Forall2_lookup_l _ _ _ _ _ Hab Hra) as (rb & -> & Hrow). simpl.
  destruct (Forall2_lookup_l _ _ _ _ _ Hrow Hx) as (y & -> & Hxy). eauto.
Qed.

(** C2.  For a permutation [p] of [[0, K)] with inverse [q] and a class
    assignment [a] over [K >= 1] classes, [reorder(a, p)] returns an array
    [b] and [reorder(b, q)] an array [c] of the same shape as [a] such that
    [c] agrees with [a] at every position that does not hold the sentinel,
    and every position that holds the sentinel [-1] in [a] holds [-1] in
    [b] (and in [c]). *)
Theorem reorder_inverse_roundtrip (K : nat) (p q : list Z) (a : class_array) :
  (0 < K)%nat -> is_perm K p -> inverse_of p q -> ClassAssignment K a ->
  exists b c,
    reorder a p = Ok b /\ reorder b q = Ok c /\
    Forall2 (fun ra rc => length ra = length rc) a c /\
    (forall t j x, at2 a t j = Some x -> x <> -1 -> at2 c t j = Some x) /\
    (forall t j, at2 a t j = Some (-1) ->
                 at2 b t j = Some (-1) /\ at2 c t j = Some (-1)).
Proof.
  intros HK Hp Hq Ha.
  destruct (inverse_of_perm K p q Hp Hq) as [Hqp Hinv].
  destruct (reorder_spec K p a HK Hp Ha) as (b & Hb & Hab).
  pose proof (relabel_ClassAssignment K p a b Hp Hab) as Hbc.
  destruct (reorder_spec K q b HK Hqp Hbc) as (c & Hc & Hbc').
  exists b, c. split; [done|]. split; [done|].
  assert (forall t j x, at2 a t j = Some x ->
            exists y z, at2 b t j = Some y /\ at2 c t j = Some z /\
                        relabel p x y /\ relabel q y z) as Hat.
  { intros t j x Hx.
    destruct (at2_Forall2 _ _ _ _ _ _ Hab Hx) as (y & Hy & Hxy).
    destruct (at2_Forall2 _ _ _ _ _ _ Hbc' Hy) as (z & Hz & Hyz). eauto 10. }
  split; [|split].
  - clear -Hab Hbc'. revert c Hbc'.
    induction Hab as [|ra rb a b Hrow _ IH]; intros c Hbc'.
    + inversion Hbc'. constructor.
    + inversion Hbc' as [|? rc ? c' Hrow' Hrest]; subst. constructor; [|auto].
      apply Forall2_length in Hrow, Hrow'. congruence.
  - intros t j x Hx Hne. destruct (Hat t j x Hx) as (y & z & Hy & Hz & Hxy & Hyz).
    rewrite Hz. f_equal.
    destruct Hxy as [[-> _] | (_ & Hy0 & Hpy)]; [done|].
    destruct Hyz as [[-> _] | (_ & Hz0 & Hqz)]; [lia|].
    pose proof (Hinv _ _ Hpy) as Hqx. rewrite Z2Nat.id in Hqx by lia.
    destruct (is_perm_lookup_range K p _ _ Hp Hpy) as [Hxr _].
    pose proof (is_perm_inj K q _ _ _ Hqp Hqz Hqx). lia.
  - intros t j Hx. destruct (Hat t j _ Hx) as (y & z & Hy & Hz & Hxy & Hyz).
    destruct Hxy as [[_ ->] | (Hne & _)]; [|done].
    destruct Hyz as [[_ ->] | (Hne & _)]; [|done]. done.
Qed.

Lemma reorder_inverse_roundtrip_witness :
  exists b c,
    reorder [[0; -1; 2]; [1; 1; -1]] [1; 2; 0] = Ok b /\ reorder b [2; 0; 1] = Ok c /\
    Forall2 (fun ra rc => length ra = length rc) [[0; -1; 2]; [1; 1; -1]] c /\
    (forall t j x, at2 [[0; -1; 2]; [1; 1; -1]] t j = Some x -> x <> -1 ->
                   at2 c t j = Some x) /\
    (forall t j, at2 [[0; -1; 2]; [1; 1; -1]] t j = Some (-1) ->
                 at2 b t j = Some (-1) /\ at2 c t j = Some (-1)).
Proof.
  apply (reorder_inverse_roundtrip 3 [1; 2; 0] [2; 0; 1] [[0; -1; 2]; [1; 1; -1]]).
  - lia.
  - unfold is_perm. split; [reflexivity|]. split; compute_done.
  - split; reflexivity.
  - unfold ClassAssignment. compute_done.
Defined.

(** ** [argsort] and [temp_sort] *)

Lemma getitem_0_head {A} (l : list A) x : head l = Some x -> getitem l 0 = Ok x.
Proof. destruct l; simpl; [discriminate|]. by intros [= ->]. Qed.

Lemma traverse_shallowest avg tops :
  shallowest <$> avg = Some <$> tops ->
  traverse (fun i => getitem (mean i) 0) avg = Ok tops.
Proof.
  revert tops. induction avg as [|s avg IH]; intros [|x tops] H; try discriminate.
  - reflexivity.
  - simpl in H. injection H as Hs Hrest. simpl.
    rewrite (getitem_0_head _ x Hs). simpl. by rewrite (IH tops Hrest).
Qed.

Lemma fltb_sort_lt_asym x y : fltb x y = true -> sort_lt y x = false.
Proof.
  destruct x as [|a], y as [|b]; simpl; try done.
  unfold Qltb. intros H. apply negb_true_iff in H. apply negb_false_iff.
  apply Qle_bool_iff. destruct (Qle_bool b a) eqn:Hba; [discriminate|].
  destruct (Qlt_le_dec a b) as [Hlt|Hle].
  - by apply Qlt_le_weak.
  - apply Qle_bool_iff in Hle. congruence.
Qed.

Lemma insertion_ascending l : forall idx,
  length idx = length l -> ascending l ->
  foldr insert_key [] (zip l idx) = zip l idx.
Proof.
  induction l as [|x l IH]; intros [|i idx] Hlen Hasc; try discriminate; [done|].
  simpl. rewrite IH.
  - destruct l as [|y l]; [by destruct idx|].
    destruct idx as [|i' idx]; [discriminate|]. simpl.
    destruct Hasc as [Hxy _]. by rewrite (fltb_sort_lt_asym x y Hxy).
  - simpl in Hlen. lia.
  - destruct l; [done|]. by destruct Hasc.
Qed.

Lemma argsort_ascending l : ascending l -> argsort l = arange (length l).
Proof.
  intros Hasc. unfold argsort.
  assert (length (arange (length l)) = length l) as Hlen
    by (unfold arange; by rewrite length_fmap, length_seq).
  rewrite insertion_ascending by done.
  apply snd_zip. lia.
Qed.

Lemma is_perm_arange K : is_perm K (arange K).
Proof.
  unfold is_perm, arange. rewrite length_fmap, length_seq. split; [done|]. split.
  - apply NoDup_fmap_2; [apply Nat2Z.inj' | apply NoDup_seq].
  - apply Forall_fmap, Forall_forall. intros k Hk. apply elem_of_seq in Hk.
    simpl. lia.
Qed.

Lemma relabel_fun (P : Z -> Prop) (f : Z -> Z) p (a b : list (list Z)) :
  (forall x y, P x -> relabel p x y -> y = f x) ->
  Forall (Forall P) a -> Forall2 (Forall2 (relabel p)) a b ->
  b = fmap (M:=list) f <$> a.
Proof.
  intros Hf Ha Hab. induction Hab as [|ra rb a b Hrow _ IH]; [done|].
  apply Forall_cons in Ha as [Hra Ha]. simpl. f_equal; [|auto].
  clear IH Ha. induction Hrow as [|x y ra rb Hxy _ IH]; [done|].
  apply Forall_cons in Hra as [Hx Hra]. simpl. f_equal; auto.
Qed.

Lemma list_fmap_fmap_id (a : list (list Z)) :
  fmap (M:=list) (fun x : Z => x) <$> a = a.
Proof.
  induction a as [|r a IH]; [done|]. simpl. f_equal; [|done].
  induction r as [|x r IHr]; [done|]. simpl. by f_equal.
Qed.

(** C7.  With shallowest-level means [5.0, 1.0, 3.0], [temp_sort] returns
    the assignment in which classes 0, 1, 2 are relabelled 2, 0, 1 (the
    permutation returned with [arg] set is [[1, 2, 0]]); with shallowest-level
    means already in strictly ascending order, [temp_sort] returns the
    assignment unchanged. *)
Theorem temp_sort_ranks :
  (forall (avg : list ProfileSummary) (a : class_array),
     shallowest <$> avg = [Some (Fin 5); Some (Fin 1); Some (Fin 3)] ->
     ClassAssignment 3 a ->
     temp_sort a avg true = Ok (inl [1; 2; 0]) /\
     temp_sort a avg false = Ok (inr (fmap (M:=list) rank_513 <$> a))) /\
  (forall (avg : list ProfileSummary) (tops : list float64) (a : class_array),
     avg <> [] ->
     shallowest <$> avg = Some <$> tops -> ascending tops ->
     ClassAssignment (length avg) a ->
     temp_sort a avg false = Ok (inr a)).
Proof.
  split.
  - intros avg a Htops Ha. unfold temp_sort.
    rewrite (traverse_shallowest avg [Fin 5; Fin 1; Fin 3] Htops). simpl.
    change (argsort [Fin 5; Fin 1; Fin 3]) with [1; 2; 0]. split; [done|].
    assert (is_perm 3 [1; 2; 0]) as Hp.
    { split; [done|]. split; compute_done. }
    destruct (reorder_spec 3 [1; 2; 0] a) as (b & -> & Hab); [lia | done | done |].
    simpl. do 2 f_equal.
    apply (relabel_fun (fun x => x = -1 \/ 0 <= x < 3) rank_513 [1; 2; 0]); [|done|done].
    intros x y Hx [[-> ->] | (Hne & Hy & Hpy)]; [done|].
    destruct (Z.to_nat y) as [|[|[|n]]] eqn:Hn; simpl in Hpy;
      [| | |discriminate]; injection Hpy as <-; simpl; lia.
  - intros avg tops a Hne Htops Hasc Ha. unfold temp_sort.
    rewrite (traverse_shallowest avg tops Htops). simpl.
    assert (length tops = length avg) as Hlen.
    { apply (f_equal length) in Htops. rewrite !length_fmap in Htops. done. }
    rewrite (argsort_ascending tops Hasc), Hlen.
    destruct (reorder_spec (length avg) (arange (length avg)) a)
      as (b & -> & Hab); [|apply is_perm_arange|done|].
    { destruct avg; [done | simpl; lia]. }
    simpl. do 2 f_equal.
    etrans; [|apply list_fmap_fmap_id].
    apply (relabel_fun (fun _ => True) (fun x => x) (arange (length avg)));
      [| |done].
    + intros x y _ [[-> ->] | (_ & Hy & Hpy)]; [done|].
      assert (Z.to_nat y < length avg)%nat as Hlt.
      { apply lookup_lt_Some in Hpy. unfold arange in Hpy.
        by rewrite length_fmap, length_seq in Hpy. }
      rewrite arange_lookup in Hpy by done. injection Hpy as <-. lia.
    + eapply Forall_impl; [exact Ha|]. intros r _.
      apply Forall_forall. done.
Qed.

Lemma temp_sort_ranks_witness :
  temp_sort [[0; 1; 2; -1]; [2; 2; 0; 1]] avg_513 false
    = Ok (inr [[2; 0; 1; -1]; [1; 1; 2; 0]]) /\
  temp_sort [[2; -1; 0]] avg_135 false = Ok (inr [[2; -1; 0]]).
Proof.
  destruct temp_sort_ranks as [H513 Hsorted]. split.
  - apply (H513 avg_513 [[0; 1; 2; -1]; [2; 2; 0; 1]]); [reflexivity | compute_done].
  - apply (Hsorted avg_135 [Fin 1; Fin 3; Fin 5]);
      [done | reflexivity | vm_compute; auto | compute_done].
Defined.

(** ** [argmin] and [match_profiles] *)

Lemma Qltb_lt a b : Qltb a b = true <-> (a < b)%Q.
Proof.
  unfold Qltb. rewrite negb_true_iff. split.
  - intros H. apply Qnot_le_lt. intros Hle. apply Qle_bool_iff in Hle. congruence.
  - intros H. destruct (Qle_bool b a) eqn:E; [|done].
    apply Qle_bool_iff in E. exfalso. by apply (Qlt_not_le a b).
Qed.

Lemma traverse_compose {A B C} (f : A -> result B) (g : B -> result C) l zs :
  Forall2 (fun x z => exists y, f x = Ok y /\ g y = Ok z) l zs ->
  exists ys, traverse f l = Ok ys /\ traverse g ys = Ok zs.
Proof.
  induction 1 as [|x z l zs (y & Hf & Hg) _ (ys & Hys & Hzs)].
  - by exists [].
  - exists (y :: ys). simpl. rewrite Hf, Hg. simpl. by rewrite Hys, Hzs.
Qed.

(** *** Rounding in binary64 *)

Section Binary64Facts.
Import Binary64.

Lemma shr_1_nonneg mrs : 0 <= shr_m mrs -> 0 <= shr_m (shr_1 mrs).
Proof. destruct mrs as [[|[p|p|]|p] r s]; simpl; lia. Qed.

Lemma iter_shr_1_nonneg p : forall mrs,
  0 <= shr_m mrs -> 0 <= shr_m (SpecFloat.iter_pos shr_1 p mrs).
Proof.
  induction p as [p IH|p IH|]; intros mrs H; simpl.
  - apply IH, IH. by apply shr_1_nonneg.
  - by apply IH, IH.
  - by apply shr_1_nonneg.
Qed.

Lemma shr_fexp_nonneg m e l :
  0 <= m -> 0 <= shr_m (shr_fexp prec emax m e l).1.
Proof.
  intros Hm. unfold shr_fexp, shr.
  assert (shr_m (shr_record_of_loc m l) = m) as Hrec by (by destruct l as [|[]]).
  destruct (fexp prec emax (Zdigits2 m + e) - e) as [|p|p]; simpl; try lia.
  apply iter_shr_1_nonneg. lia.
Qed.

Lemma round_nearest_even_nonneg m l : 0 <= m -> 0 <= round_nearest_even m l.
Proof. intros H. destruct l as [|[]]; simpl; try lia. destruct (Z.even m); lia. Qed.

(** Rounding a mantissa that is not negative gives a zero, an infinity or
    a number, with the sign asked for: never NaN. *)
Lemma binary_round_aux_cases sx mx ex lx :
  0 <= mx ->
  binary_round_aux prec emax sx mx ex lx = S754_zero sx \/
  binary_round_aux prec emax sx mx ex lx = S754_infinity sx \/
  exists m e, binary_round_aux prec emax sx mx ex lx = S754_finite sx m e.
Proof.
  intros Hm. unfold binary_round_aux.
  pose proof (shr_fexp_nonneg mx ex lx Hm) as H1.
  destruct (shr_fexp prec emax mx ex lx) as [mrs' e']. simpl in H1.
  pose proof (shr_fexp_nonneg (round_nearest_even (shr_m mrs') (loc_of_shr_record mrs'))
                e' loc_Exact (round_nearest_even_nonneg _ _ H1)) as H2.
  destruct (shr_fexp prec emax _ e' loc_Exact) as [mrs'' e'']. simpl in H2.
  destruct (shr_m mrs'') as [|m|m]; [by left | | lia].
  destruct (e'' <=? emax - prec); eauto.
Qed.

Lemma binary_round_cases sx mx ex :
  binary_round prec emax sx mx ex = S754_zero sx \/
  binary_round prec emax sx mx ex = S754_infinity sx \/
  exists m e, binary_round prec emax sx mx ex = S754_finite sx m e.
Proof.
  unfold binary_round. destruct (shl_align _ _ _) as [mz ez].
  by apply binary_round_aux_cases.
Qed.

Lemma binary_normalize_isnan m e : isnan (binary_normalize prec emax m e false) = false.
Proof.
  destruct m as [|m|m]; simpl; [done| |].
  - destruct (binary_round_cases false m e) as [-> | [-> | (m' & e' & ->)]]; done.
  - destruct (binary_round_cases true m e) as [-> | [-> | (m' & e' & ->)]]; done.
Qed.

Lemma number_cases x : number x -> (exists s, x = S754_zero s) \/ exists s m e, x = S754_finite s m e.
Proof. intros [_ H]. destruct x; try done; eauto. Qed.

(** The difference of two numbers is not NaN, and [x - x] is [+0.0]. *)
Lemma sub_isnan x y : number x -> number y -> isnan (sub x y) = false.
Proof.
  intros Hx Hy.
  destruct (number_cases x Hx) as [[sx ->] | (sx & mx & ex & ->)];
    destruct (number_cases y Hy) as [[sy ->] | (sy & my & ey & ->)]; unfold sub, SFsub.
  - by destruct sx, sy.
  - done.
  - done.
  - apply binary_normalize_isnan.
Qed.

Lemma sub_diag x : number x -> sub x x = zero.
Proof.
  intros Hx. destruct (number_cases x Hx) as [[sx ->] | (sx & mx & ex & ->)]; unfold sub, SFsub.
  - by destruct sx.
  - by rewrite Z.sub_diag.
Qed.

(** A square is zero or more. *)
Lemma mul_diag_nonneg x : isnan x = false -> nonneg (mul x x).
Proof.
  destruct x as [s|s| |s m e]; intros H; try done; unfold mul, SFmul.
  - by destruct s.
  - by destruct s.
  - destruct (binary_round_aux_cases (xorb s s) (Z.pos (m * m)) (e + e) loc_Exact)
      as [-> | [-> | (m' & e' & ->)]]; [lia | | |]; by destruct s.
Qed.

Lemma add_nonneg x y : nonneg x -> nonneg y -> nonneg (add x y).
Proof.
  destruct x as [[]|[]| |[] mx ex]; try done;
    destruct y as [[]|[]| |[] my ey]; try done; intros _ _.
  unfold add, SFadd. cbn [cond_Zopp].
  destruct (shl_align mx ex (Z.min ex ey)) as [m1 e1].
  destruct (shl_align my ey (Z.min ex ey)) as [m2 e2]. cbn [fst].
  change (Z.pos m1 + Z.pos m2) with (Z.pos (m1 + m2)). cbn [binary_normalize].
  destruct (binary_round_cases false (m1 + m2) (Z.min ex ey))
    as [-> | [-> | (m' & e' & ->)]]; done.
Qed.

Lemma value_nonneg t : Forall nonneg (terms t) -> nonneg (value t).
Proof.
  induction t as [x|a IHa b IHb]; simpl; intros H.
  - by apply Forall_cons in H as [H _].
  - apply Forall_app in H as [Ha Hb]. apply add_nonneg; auto.
Qed.

Lemma value_zero t : Forall (fun x => x = zero) (terms t) -> value t = zero.
Proof.
  induction t as [x|a IHa b IHb]; simpl; intros H.
  - by apply Forall_cons in H as [H _].
  - apply Forall_app in H as [Ha Hb]. by rewrite IHa, IHb.
Qed.

Lemma sums_nonneg np_sum x : sums np_sum -> Forall nonneg x -> nonneg (np_sum x).
Proof.
  intros Hsum Hx. destruct (Hsum x) as (t & [Ht | Ht] & ->); apply value_nonneg.
  - by rewrite Ht.
  - rewrite Ht. by constructor.
Qed.

Lemma sums_zero np_sum x : sums np_sum -> Forall (fun v => v = zero) x -> np_sum x = zero.
Proof.
  intros Hsum Hx. destruct (Hsum x) as (t & [Ht | Ht] & ->); apply value_zero.
  - by rewrite Ht.
  - rewrite Ht. by constructor.
Qed.

Lemma sum_in_order_sums : sums sum_in_order.
Proof.
  intros x. unfold sum_in_order.
  assert (forall t, exists t', terms t' ≡ₚ terms t ++ x /\ foldl add (value t) x = value t') as H.
  { induction x as [|v x IH]; intros t.
    - exists t. by rewrite app_nil_r.
    - destruct (IH (Plus t (Term v))) as (t' & Ht' & Hv). exists t'. split; [|done].
      rewrite Ht'. simpl. by rewrite <- app_assoc. }
  destruct (H (Term zero)) as (t' & Ht' & Hv). exists t'. split; [by right | done].
Qed.

(** The distances that [match_profiles] computes between profiles of
    numbers: zero or more, and [+0.0] from a profile to itself. *)
Lemma norm_entry_sqdist np_sum L a0 a1 :
  length (mean a0) = L -> length (mean a1) = L ->
  norm_entry np_sum None a0 a1 = Ok (sqdist np_sum (mean a0) (mean a1)).
Proof.
  intros H0 H1. unfold norm_entry, broadcast2, sqdist.
  by rewrite H0, H1, Nat.eqb_refl.
Qed.

Lemma sqdist_nonneg np_sum x y :
  sums np_sum -> Forall number x -> Forall number y -> nonneg (sqdist np_sum x y).
Proof.
  intros Hsum Hx Hy. unfold sqdist. apply sums_nonneg; [done|].
  revert y Hy. induction Hx as [|u x Hu _ IH]; intros y Hy; [constructor|].
  destruct Hy as [|v y Hv Hy]; [constructor|]. cbn [zip_with].
  constructor; [|by apply IH]. by apply mul_diag_nonneg, sub_isnan.
Qed.

Lemma sqdist_diag np_sum x : sums np_sum -> Forall number x -> sqdist np_sum x x = zero.
Proof.
  intros Hsum Hx. unfold sqdist. apply sums_zero; [done|].
  induction Hx as [|u x Hu _ IH]; [constructor|]. cbn [zip_with].
  constructor; [|done]. by rewrite sub_diag.
Qed.

Lemma nonneg_cases x :
  nonneg x -> x = zero \/ (isnan x = false /\ geb x zero = true /\ geb zero x = false).
Proof. destruct x as [[]|[]| |[] m e]; try done; auto. Qed.

(** In an array of values that are zero or more, [argmin] finds the first
    [+0.0]. *)
Lemma argmin_from_zero l : forall mi i,
  Forall nonneg l -> argmin_from zero mi i l = mi.
Proof.
  induction l as [|x l IH]; intros mi i Hl; [done|].
  apply Forall_cons in Hl as [Hx Hl]. cbn [argmin_from isnan zero].
  replace (geb x zero) with true; [by apply IH|].
  destruct (nonneg_cases x Hx) as [-> | (_ & -> & _)]; done.
Qed.

Lemma argmin_from_first_zero l : forall mp mi i m,
  nonneg mp -> mp <> zero -> Forall nonneg l -> l !! m = Some zero ->
  (forall j x, (j < m)%nat -> l !! j = Some x -> x <> zero) ->
  argmin_from mp mi i l = i + Z.of_nat m.
Proof.
  induction l as [|x l IH]; intros mp mi i m Hmp Hmp0 Hl Hm Hfirst; [done|].
  apply Forall_cons in Hl as [Hx Hl].
  destruct (nonneg_cases mp Hmp) as [-> | (Hnan & _ & Hlt)]; [done|].
  cbn [argmin_from]. rewrite Hnan.
  destruct m as [|m].
  - injection Hm as ->. rewrite Hlt. cbn [negb].
    rewrite argmin_from_zero by done. lia.
  - assert (x <> zero) as Hx0 by (apply (Hfirst 0%nat); [lia | done]).
    assert (forall j y, (j < m)%nat -> l !! j = Some y -> y <> zero) as Hfirst'.
    { intros j y Hj Hy. apply (Hfirst (S j)); [lia | done]. }
    destruct (negb (geb x mp)).
    + rewrite (IH x i (i + 1) m); [lia | done | done | done | done | done].
    + rewrite (IH mp mi (i + 1) m); [lia | done | done | done | done | done].
Qed.

Lemma argmin_first_zero l m :
  Forall nonneg l -> l !! m = Some zero ->
  (forall j x, (j < m)%nat -> l !! j = Some x -> x <> zero) ->
  argmin l = Ok (Z.of_nat m).
Proof.
  intros Hl Hm Hfirst. destruct l as [|x l]; [done|].
  apply Forall_cons in Hl as [Hx Hl]. cbn [argmin]. f_equal.
  destruct m as [|m].
  - injection Hm as ->. by apply argmin_from_zero.
  - rewrite (argmin_from_first_zero l x 0 1 m); [lia | done | | done | done |].
    + apply (Hfirst 0%nat); [lia | done].
    + intros j y Hj Hy. apply (Hfirst (S j)); [lia | done].
Qed.

(** The first index at which a test that succeeds somewhere succeeds. *)
Lemma first_index {A} (f : A -> bool) (l : list A) n x :
  l !! n = Some x -> f x = true ->
  exists m y, (m <= n)%nat /\ l !! m = Some y /\ f y = true /\
              forall j z, (j < m)%nat -> l !! j = Some z -> f z = false.
Proof.
  revert n. induction l as [|h l IH]; intros n Hn HP; [done|].
  destruct (f h) eqn:Hh.
  - exists 0%nat, h. split; [lia|]. split; [done|]. split; [done|]. intros j z Hj. lia.
  - destruct n as [|n]; [simpl in Hn; congruence|].
    destruct (IH n Hn HP) as (m & y & Hmn & Hm & Hy & Hfirst).
    exists (S m), y. split; [lia|]. split; [done|]. split; [done|].
    intros [|j] z Hj Hz; simpl in Hz; [congruence|]. apply (Hfirst j); [lia | done].
Qed.

Lemma permuted_real_profiles K L p avg0 avg1 :
  length avg0 = K -> length avg1 = K -> is_perm K p ->
  permuted_by p avg0 avg1 -> real_profiles L avg0 -> real_profiles L avg1.
Proof.
  intros Hl0 Hl1 Hp Hperm Hreal. unfold real_profiles in *.
  rewrite Forall_forall in Hreal. apply Forall_forall. intros a1 Ha1.
  apply list_elem_of_lookup in Ha1 as [j Hj].
  assert (j < K)%nat as HjK by (apply lookup_lt_Some in Hj; lia).
  destruct (is_perm_surj K p j Hp HjK) as [k Hk].
  destruct (lookup_lt_is_Some_2 avg0 k) as [ak Hak].
  { apply lookup_lt_Some in Hk. destruct Hp as [Hlp _]. lia. }
  pose proof (Forall2_lookup_lr _ _ _ _ _ _ Hperm Hak Hk) as H.
  simpl in H. rewrite Nat2Z.id, Hj in H. simpl in H. injection H as ->.
  apply Hreal, list_elem_of_lookup. eauto.
Qed.

Lemma is_zero_true x : is_zero x = true <-> x = zero.
Proof. destruct x as [[]|[]| |[] m e]; split; done. Qed.

Lemma is_zero_false x : is_zero x = false <-> x <> zero.
Proof. destruct x as [[]|[]| |[] m e]; split; done. Qed.

(** Row [i] of the indices that [match_profiles] returns for a permuted
    list: the first profile of [avg1] at computed distance [+0.0] from the
    mean of [avg0[i]], which comes no later than [p[i]]. *)
Lemma match_profiles_first_zero np_sum K L p avg0 avg1 :
  sums np_sum -> (0 < K)%nat -> length avg0 = K -> length avg1 = K ->
  is_perm K p -> permuted_by p avg0 avg1 -> real_profiles L avg0 ->
  exists inds,
    match_profiles np_sum avg0 avg1 None = Ok inds /\ length inds = K /\
    forall i a0 pi, avg0 !! i = Some a0 -> p !! i = Some pi ->
      exists m am,
        inds !! i = Some (Z.of_nat m) /\ Z.of_nat m <= pi /\ avg1 !! m = Some am /\
        norm_entry np_sum None a0 am = Ok zero /\
        forall j aj, (j < m)%nat -> avg1 !! j = Some aj ->
          norm_entry np_sum None a0 aj <> Ok zero.
Proof.
  intros Hsum HK Hl0 Hl1 Hp Hperm Hr0.
  pose proof (permuted_real_profiles K L p avg0 avg1 Hl0 Hl1 Hp Hperm Hr0) as Hr1.
  pose proof Hp as (Hlp & _ & _).
  unfold real_profiles in Hr0, Hr1. rewrite Forall_forall in Hr0, Hr1.
  unfold match_profiles. rewrite Hl0, Hl1, Nat.eqb_refl. cbn [negb].
  replace (K =? 0)%nat with false by (symmetry; apply Nat.eqb_neq; lia).
  pose (R := fun (a0 : ProfileSummary) (pi z : Z) =>
    exists m am, z = Z.of_nat m /\ Z.of_nat m <= pi /\ avg1 !! m = Some am /\
      norm_entry np_sum None a0 am = Ok zero /\
      forall j aj, (j < m)%nat -> avg1 !! j = Some aj ->
        norm_entry np_sum None a0 aj <> Ok zero).
  assert (forall i a0 pi, avg0 !! i = Some a0 -> p !! i = Some pi ->
            exists z, (exists row, traverse (norm_entry np_sum None a0) avg1 = Ok row /\
                                   argmin row = Ok z) /\ R a0 pi z) as Hrow.
  { intros i a0 pi Hi Hpi.
    destruct (Hr0 a0) as [HL0 HF0]; [apply list_elem_of_lookup; eauto|].
    assert (forall a1, a1 ∈ avg1 ->
              norm_entry np_sum None a0 a1 = Ok (sqdist np_sum (mean a0) (mean a1))) as Hne.
    { intros a1 Ha1. destruct (Hr1 a1 Ha1) as [HL1 _]. by apply (norm_entry_sqdist np_sum L). }
    assert (traverse (norm_entry np_sum None a0) avg1
            = Ok ((fun a1 => sqdist np_sum (mean a0) (mean a1)) <$> avg1)) as Htr.
    { clear -Hne. induction avg1 as [|a1 avg1 IH]; [done|].
      rewrite fmap_cons. cbn [traverse].
      rewrite Hne by (by left). cbn [mbind result_bind].
      rewrite IH; [done|]. intros a Ha. apply Hne. by right. }
    destruct (is_perm_lookup_range K p i pi Hp Hpi) as [Hpi0 HpiK].
    pose proof (Forall2_lookup_lr _ _ _ _ _ _ Hperm Hi Hpi) as Hsame. simpl in Hsame.
    destruct (avg1 !! Z.to_nat pi) as [api|] eqn:Hapi; [|done].
    simpl in Hsame. injection Hsame as Hsame.
    set (row := (fun a1 => sqdist np_sum (mean a0) (mean a1)) <$> avg1) in *.
    assert (row !! Z.to_nat pi = Some zero) as Hzero.
    { unfold row. rewrite list_lookup_fmap, Hapi. simpl.
      by rewrite Hsame, sqdist_diag. }
    destruct (first_index is_zero row (Z.to_nat pi) zero Hzero eq_refl)
      as (m & y & Hm & Hy & Hy0 & Hfirst).
    apply is_zero_true in Hy0 as ->.
    assert (Forall nonneg row) as Hnn.
    { unfold row. apply Forall_fmap, Forall_forall. intros a1 Ha1. simpl.
      destruct (Hr1 a1 Ha1) as [_ HF1]. by apply sqdist_nonneg. }
    exists (Z.of_nat m). split.
    - exists row. split; [done|]. apply argmin_first_zero; [done | done |].
      intros j x Hj Hx. apply is_zero_false. by apply (Hfirst j).
    - unfold row in Hy. rewrite list_lookup_fmap in Hy.
      destruct (avg1 !! m) as [am|] eqn:Ham; [|done]. simpl in Hy.
      exists m, am. split; [done|]. split; [lia|]. split; [done|]. split.
      + rewrite Hne by (apply list_elem_of_lookup; eauto). congruence.
      + intros j aj Hj Haj. rewrite Hne by (apply list_elem_of_lookup; eauto).
        intros [= H0]. specialize (Hfirst j (sqdist np_sum (mean a0) (mean aj)) Hj).
        unfold row in Hfirst. rewrite list_lookup_fmap, Haj in Hfirst.
        specialize (Hfirst eq_refl). rewrite H0 in Hfirst. done. }
  assert (exists inds, Forall2 (fun a0 z =>
            exists row, traverse (norm_entry np_sum None a0) avg1 = Ok row /\
                        argmin row = Ok z) avg0 inds /\
          length inds = length avg0 /\
          forall i a0 pi, avg0 !! i = Some a0 -> p !! i = Some pi ->
            exists z, inds !! i = Some z /\ R a0 pi z) as (inds & Hcomp & Hli & HR).
  { assert (length avg0 = length p) as Hlen by lia.
    clear -Hrow Hlen. revert p Hrow Hlen.
    induction avg0 as [|a0 avg0 IH]; intros p Hrow Hlen.
    - exists []. split; [constructor|]. split; [done|]. intros i a0 pi Hi. done.
    - destruct p as [|pi p]; [done|].
      destruct (Hrow 0%nat a0 pi eq_refl eq_refl) as (z & Hz & HzR).
      destruct (IH p) as (inds & Hcomp & Hli & HR).
      { intros i a pi' Hi Hpi'. apply (Hrow (S i)); done. }
      { simpl in Hlen. lia. }
      exists (z :: inds). split; [by constructor|]. split; [simpl; lia|].
      intros [|i] a pi' Hi Hpi'; simpl in *.
      + injection Hi as <-. injection Hpi' as <-. eauto.
      + by apply HR. }
  destruct (traverse_compose _ _ _ _ Hcomp) as (norms & -> & Hnorms).
  cbn [mbind result_bind]. exists inds. split; [done|]. split; [lia|].
  intros i a0 pi Hi Hpi. destruct (HR i a0 pi Hi Hpi) as (z & Hz & m & am & -> & H).
  exists m, am. split; [done|]. exact H.
Qed.

(** C5, as the code has it.  Let [avg0] and [avg1] be lists of [K >= 1]
    summaries whose mean profiles are binary64 numbers on a common depth
    axis, [avg1] being [avg0] permuted by the permutation [p] of [[0, K)],
    so that the mean of [avg1[p[i]]] is the mean of [avg0[i]].  If no two
    profiles of [avg0] are at the same distance from a profile of [avg0],
    the distances being the float64 values that [match_profiles] computes,
    then [match_profiles(avg0, avg1)] returns [p], whatever the order in
    which [np.sum] adds. *)
Theorem match_profiles_recovers_permutation
    (np_sum : list binary64 -> binary64) (K L : nat) (p : list Z)
    (avg0 avg1 : list ProfileSummary) :
  sums np_sum ->
  (0 < K)%nat -> length avg0 = K -> length avg1 = K ->
  is_perm K p -> permuted_by p avg0 avg1 ->
  real_profiles L avg0 -> no_equidistant np_sum avg0 ->
  match_profiles np_sum avg0 avg1 None = Ok p.
Proof.
  intros Hsum HK Hl0 Hl1 Hp Hperm Hreal Hdist.
  destruct (match_profiles_first_zero np_sum K L p avg0 avg1 Hsum HK Hl0 Hl1 Hp Hperm Hreal)
    as (inds & -> & Hli & Hinds).
  f_equal. pose proof Hp as (Hlp & _ & _).
  apply list_eq_same_length with K; [done | done |].
  intros i z pi HiK Hz Hpi.
  destruct (lookup_lt_is_Some_2 avg0 i) as [a0 Ha0]; [lia|].
  destruct (Hinds i a0 pi Ha0 Hpi) as (m & am & Hm & _ & Ham & Hzero & _).
  rewrite Hz in Hm. injection Hm as ->.
  assert (m < K)%nat as HmK by (apply lookup_lt_Some in Ham; lia).
  destruct (is_perm_surj K p m Hp HmK) as [k Hk].
  destruct (lookup_lt_is_Some_2 avg0 k) as [ak Hak].
  { apply lookup_lt_Some in Hk. lia. }
  pose proof (Forall2_lookup_lr _ _ _ _ _ _ Hperm Hak Hk) as Hmk.
  simpl in Hmk. rewrite Nat2Z.id, Ham in Hmk. simpl in Hmk. injection Hmk as Hmk.
  destruct (decide (i = k)) as [-> | Hik]; [congruence|].
  exfalso.
  assert (norm_entry np_sum None a0 ak = Ok zero) as Hk0.
  { rewrite <- Hzero. unfold norm_entry. by rewrite Hmk. }
  assert (norm_entry np_sum None a0 a0 = Ok zero) as H00.
  { unfold real_profiles in Hreal. rewrite Forall_forall in Hreal.
    destruct (Hreal a0) as [HL HF]; [apply list_elem_of_lookup; eauto|].
    rewrite (norm_entry_sqdist np_sum L) by done. by rewrite sqdist_diag. }
  pose proof (Hdist i i k a0 a0 ak zero zero Ha0 Ha0 Hak Hik H00 Hk0). done.
Qed.

Lemma match_profiles_recovers_permutation_witness :
  match_profiles sum_in_order means_513 means_135 None = Ok [2; 0; 1].
Proof.
  apply (match_profiles_recovers_permutation sum_in_order 3 2 [2; 0; 1] means_513 means_135).
  - apply sum_in_order_sums.
  - lia.
  - reflexivity.
  - reflexivity.
  - split; [done|]. split; compute_done.
  - repeat constructor.
  - repeat constructor.
  - intros i j k a b c x y Hi Hj Hk Hjk Hx Hy.
    destruct i as [|[|[|i]]]; [| | |discriminate];
      (destruct j as [|[|[|j]]]; [| | |discriminate]);
      (destruct k as [|[|[|k]]]; [| | |discriminate]);
      try done;
      injection Hi as <-; injection Hj as <-; injection Hk as <-;
      vm_compute in Hx, Hy; injection Hx as <-; injection Hy as <-;
      reflexivity.
Defined.

(** C5 as stated fails.  The one-level profiles [[2^-700]] and [[0]] are
    not equidistant from either of them: their squared distance is
    [2^-1400], not 0.  In float64 this square underflows to 0: both
    entries of row 0 of [norms] are [0.0], and [match_profiles] returns
    [[0, 0]] for the lists permuted by [[1, 0]], whatever the order in
    which [np.sum] adds. *)
Lemma match_profiles_underflow_tie :
  is_perm 2 [1; 0] /\
  permuted_by [1; 0] avg_tiny avg_tiny_swapped /\
  real_profiles 1 avg_tiny /\
  no_equidistant_exact avg_tiny /\
  (exact_sqdist {| mean := [tiny]; std := [] |} {| mean := [zero]; std := [] |}
   == Qpower 2 (-1400))%Q /\
  forall np_sum, sums np_sum ->
    match_profiles np_sum avg_tiny avg_tiny_swapped None = Ok [0; 0].
Proof.
  split; [split; [done|]; split; compute_done|].
  split; [repeat constructor|].
  split; [repeat constructor|].
  split.
  { intros i j k a b c Hi Hj Hk Hjk.
    destruct i as [|[|i]]; [| |discriminate];
      (destruct j as [|[|j]]; [| |discriminate]);
      (destruct k as [|[|k]]; [| |discriminate]);
      try done;
      injection Hi as <-; injection Hj as <-; injection Hk as <-;
      vm_compute; discriminate. }
  split; [vm_compute; reflexivity|].
  intros np_sum Hsum.
  assert (forall x, Forall (fun v => v = zero) x -> np_sum x = zero) as H0
    by (intros x; by apply sums_zero).
  unfold match_profiles, avg_tiny, avg_tiny_swapped.
  cbn [length Nat.eqb negb traverse norm_entry mean broadcast2 mbind result_bind].
  replace (zip_with sub [tiny] [zero]) with [tiny] by (vm_compute; reflexivity).
  replace (zip_with sub [tiny] [tiny]) with [zero] by (vm_compute; reflexivity).
  replace (zip_with sub [zero] [tiny]) with [SFopp tiny] by (vm_compute; reflexivity).
  replace (zip_with sub [zero] [zero]) with [zero] by (vm_compute; reflexivity).
  replace (zip_with mul [tiny] [tiny]) with [zero] by (vm_compute; reflexivity).
  replace (zip_with mul [SFopp tiny] [SFopp tiny]) with [zero] by (vm_compute; reflexivity).
  replace (zip_with mul [zero] [zero]) with [zero] by (vm_compute; reflexivity).
  rewrite (H0 [zero]) by (by repeat constructor). reflexivity.
Qed.

End Binary64Facts.

(** ** Reshaping and masks *)

Lemma length_concat_uniform {A} (ls : list (list A)) w :
  Forall (fun l => length l = w) ls -> length (concat ls) = (length ls * w)%nat.
Proof.
  induction 1 as [|l ls Hl _ IH]; [done|]. simpl. rewrite length_app. lia.
Qed.

Lemma chunks_concat {A} w (rows : list (list A)) :
  Forall (fun r => length r = w) rows ->
  chunks w (length rows) (concat rows) = rows.
Proof.
  induction 1 as [|r rows Hr _ IH]; [done|]. simpl.
  rewrite take_app_length', drop_app_length' by done. by rewrite IH.
Qed.

Lemma concat_Forall {A} (P : A -> Prop) (ls : list (list A)) :
  Forall (Forall P) ls -> Forall P (concat ls).
Proof. induction 1; simpl; [constructor | by apply Forall_app]. Qed.

(** On an array whose last axis has length [w], the rows are the profiles,
    time after time. *)
Lemma reshape_rows_last_axis {A} w (arr : list (list (list A))) :
  (0 < w)%nat -> Forall (Forall (fun r => length r = w)) arr ->
  reshape_rows w arr = Ok (concat arr).
Proof.
  intros Hw Harr. apply concat_Forall in Harr.
  unfold reshape_rows. rewrite (length_concat_uniform _ w) by done.
  replace (w =? 0)%nat with false by (symmetry; apply Nat.eqb_neq; lia).
  rewrite Nat.Div0.mod_mul, Nat.div_mul by lia. simpl.
  by rewrite chunks_concat.
Qed.

Lemma reshape_like_fmap {A B} (f : A -> B) (arr : list (list A)) :
  reshape_like arr (f <$> concat arr) = fmap (M:=list) f <$> arr.
Proof.
  induction arr as [|s arr IH]; [done|]. simpl.
  rewrite fmap_app.
  rewrite take_app_length' by (by rewrite length_fmap).
  rewrite drop_app_length' by (by rewrite length_fmap).
  by rewrite IH.
Qed.

Lemma at2_fmap {A B} (f : A -> B) (a : list (list A)) t j :
  at2 (fmap (M:=list) f <$> a) t j = f <$> at2 a t j.
Proof.
  unfold at2. rewrite list_lookup_fmap. destruct (a !! t) as [s|]; [|done].
  simpl. by rewrite list_lookup_fmap.
Qed.

Lemma at2_Forall {A} (P : A -> Prop) (a : list (list A)) t j x :
  Forall (Forall P) a -> at2 a t j = Some x -> P x.
Proof.
  unfold at2. intros Ha Hx. destruct (a !! t) as [s|] eqn:Hs; [|done].
  simpl in Hx. rewrite Forall_forall in Ha.
  assert (Forall P s) as HPs by (apply Ha, list_elem_of_lookup; eauto).
  rewrite Forall_forall in HPs. apply HPs, list_elem_of_lookup. eauto.
Qed.

Lemma putmask_lookup {A} (o : list A) m v c y (b : bool) :
  o !! c = Some y -> m !! c = Some b ->
  putmask o m v !! c = Some (if b then v else y).
Proof.
  intros Ho Hm. unfold putmask. rewrite lookup_zip_with, Ho. simpl. by rewrite Hm.
Qed.

Lemma putmask_length {A} (o : list A) m v :
  length m = length o -> length (putmask o m v) = length o.
Proof. intros H. unfold putmask. rewrite length_zip_with. lia. Qed.

Lemma zero_fill_length row : length (zero_fill row) = length row.
Proof. unfold zero_fill. apply putmask_length. by rewrite length_fmap. Qed.

Lemma zero_fill_fmap row :
  zero_fill row = (fun x => if isnan x then zero else x) <$> row.
Proof.
  unfold zero_fill, putmask. by rewrite zip_with_fmap_r, zip_with_diag.
Qed.

Lemma zero_fill_no_missing row : no_missing (zero_fill row).
Proof.
  rewrite zero_fill_fmap. apply Forall_fmap, Forall_forall.
  intros [|q] _; done.
Qed.

(** ** [pca_transform] *)

Lemma on_samples_rows {B} (f : list float64 -> B) (X : list (list float64)) :
  X <> [] -> on_samples f (zero_fill <$> X) = Ok (f <$> (zero_fill <$> X)).
Proof. by destruct X. Qed.

Lemma after_fill_rows m (data : array3) :
  after_fill m data (zero_fill <$> concat data) = filled m data.
Proof. destruct m; [apply reshape_like_fmap | done]. Qed.

Lemma at2_has_profile (data : array3) t j row :
  at2 data t j = Some row -> has_profile data.
Proof.
  unfold at2, has_profile, array3 in *. intros H Hnil.
  destruct (data !! t) as [s|] eqn:Hs; simpl in H; [|done].
  assert (row ∈ concat data) as Hin.
  { apply list_elem_of_In, in_concat. exists s.
    split; apply list_elem_of_In, list_elem_of_lookup; eauto. }
  rewrite Hnil in Hin. by apply elem_of_nil in Hin.
Qed.

(** The call as a whole: the caller's array comes back zero-filled when
    [func] worked on a view, and each profile is reduced on its own. *)
Lemma pca_transform_rows m lev pca data :
  trained_reducer lev pca -> last_axis lev data -> has_profile data ->
  pca_transform m lev data pca
  = Ok (filled m data, fmap (M:=list) (reduced_row pca) <$> data).
Proof.
  intros [Hn Htr] Hshape Hne. unfold pca_transform, pca_transform_func, putmask2.
  rewrite reshape_rows_last_axis by (done || lia). cbn [mbind result_bind].
  rewrite on_samples_rows by done. cbn [mbind result_bind].
  rewrite <- !list_fmap_compose.
  rewrite bool_decide_true.
  - cbn [mbind result_bind]. rewrite (list_fmap_compose zero_fill (transform pca)).
    rewrite after_fill_rows. rewrite <- list_fmap_compose.
    rewrite zip_with_fmap_l, zip_with_fmap_r, zip_with_diag.
    by rewrite !reshape_like_fmap.
  - apply list_fmap_ext. intros i row Hrow. simpl.
    assert (length row = lev) as Hlen.
    { apply list_elem_of_lookup_2, list_elem_of_In in Hrow.
      apply in_concat in Hrow.
      destruct Hrow as (s & Hs & Hrow). apply list_elem_of_In in Hs, Hrow.
      unfold last_axis in Hshape.
      rewrite Forall_forall in Hshape. specialize (Hshape s Hs).
      rewrite Forall_forall in Hshape. by apply Hshape. }
    destruct (Htr (zero_fill row)) as [-> _];
      [by rewrite zero_fill_length | apply zero_fill_no_missing |].
    rewrite length_take, length_fmap. lia.
Qed.

Lemma reduced_row_spec lev pca row :
  trained_reducer lev pca -> length row = lev ->
  length (reduced_row pca row) = n_components pca /\
  forall c, (c < n_components pca)%nat ->
    exists x y o, row !! c = Some x /\ transform pca (zero_fill row) !! c = Some o /\
                  finite o /\ reduced_row pca row !! c = Some y /\
                  y = (if isnan x then NaN else o).
Proof.
  intros [Hn Htr] Hlen.
  destruct (Htr (zero_fill row)) as [Hlo Hfin];
    [by rewrite zero_fill_length | apply zero_fill_no_missing |].
  unfold reduced_row. split.
  - rewrite putmask_length; [done|]. rewrite length_take, length_fmap. lia.
  - intros c Hc.
    destruct (lookup_lt_is_Some_2 row c) as [x Hx]; [lia|].
    destruct (lookup_lt_is_Some_2 (transform pca (zero_fill row)) c) as [o Ho]; [lia|].
    exists x, (if isnan x then NaN else o), o.
    split; [done|]. split; [done|]. split.
    + unfold no_missing in Hfin. rewrite Forall_forall in Hfin.
      apply Hfin, list_elem_of_lookup. eauto.
    + split; [|done]. apply putmask_lookup; [done|].
      rewrite lookup_take_lt by done. by rewrite list_lookup_fmap, Hx.
Qed.

(** C1, as the code has it.  For a trained reducer and an in-memory array
    of profiles of [lev] depth levels, [pca_transform] returns an array in
    which the reduced vector of each profile has [n_components] entries, and
    entry [c] of it is missing exactly when depth level [c] of the profile is
    missing; otherwise it is the projection of the zero-filled profile.  In
    particular a fully missing profile has a fully missing reduced vector. *)
Theorem pca_transform_missing_entrywise
    (m : reshaped) (lev : nat) (pca : ReducerModel) (data : array3)
    (t j : nat) (row : list float64) :
  trained_reducer lev pca -> last_axis lev data -> at2 data t j = Some row ->
  exists data' reduced out,
    pca_transform m lev data pca = Ok (data', reduced) /\
    at2 reduced t j = Some out /\ length out = n_components pca /\
    (forall c, (c < n_components pca)%nat ->
       exists x y, row !! c = Some x /\ out !! c = Some y /\
                   isnan y = isnan x /\
                   (isnan x = false -> Some y = transform pca (zero_fill row) !! c)) /\
    (fully_missing row -> fully_missing out).
Proof.
  intros Htr Hshape Hrow.
  assert (length row = lev) as Hlen
    by (by apply (at2_Forall (fun r => length r = lev) data t j)).
  destruct (reduced_row_spec lev pca row Htr Hlen) as [Hlo Hent].
  exists (filled m data), (fmap (M:=list) (reduced_row pca) <$> data), (reduced_row pca row).
  split; [apply pca_transform_rows; [done | done | by apply (at2_has_profile data t j row)]|].
  split; [by rewrite at2_fmap, Hrow|]. split; [done|]. split.
  - intros c Hc. destruct (Hent c Hc) as (x & y & o & Hx & Ho & Hfin & Hy & ->).
    exists x, (if isnan x then NaN else o). split; [done|]. split; [done|].
    destruct (isnan x) eqn:E; [done|]. split; [done|]. intros _. congruence.
  - intros Hall. apply Forall_forall. intros y Hy.
    apply list_elem_of_lookup in Hy as [c Hc].
    assert (c < n_components pca)%nat as Hlt by (apply lookup_lt_Some in Hc; lia).
    destruct (Hent c Hlt) as (x & y' & o & Hx & _ & _ & Hy' & ->).
    rewrite Hc in Hy'. injection Hy' as ->.
    unfold fully_missing in Hall. rewrite Forall_forall in Hall.
    rewrite (Hall x); [done|]. apply list_elem_of_lookup. eauto.
Qed.

(** The demonstration models are trained models. *)

Lemma fbinop_finite op x y : finite x -> finite y -> finite (fbinop op x y).
Proof. by destruct x, y. Qed.

Lemma zip_with_no_missing op u v :
  no_missing u -> no_missing v -> no_missing (zip_with (fbinop op) u v).
Proof.
  intros Hu. revert v. induction Hu as [|x u Hx _ IH]; intros v Hv; [constructor|].
  destruct Hv as [|y v Hy Hv]; [constructor|]. simpl. constructor.
  - by apply fbinop_finite.
  - by apply IH.
Qed.

Lemma sum_finite l : no_missing l -> finite (sum l).
Proof.
  unfold sum. induction 1 as [|x l Hx _ IH]; [done|].
  simpl. by apply fbinop_finite.
Qed.

Lemma linear_pca_trained lev mean_ components_ :
  (1 <= length components_ <= lev)%nat ->
  no_missing mean_ -> Forall no_missing components_ ->
  trained_reducer lev (linear_pca mean_ components_).
Proof.
  intros Hn Hmean Hcomp. split; [done|]. intros row _ Hrow. simpl. split.
  - by rewrite length_fmap.
  - apply Forall_fmap. eapply Forall_impl; [exact Hcomp|]. intros c Hc. simpl.
    unfold dot. apply sum_finite. apply zip_with_no_missing; [|done].
    by apply zip_with_no_missing.
Qed.

Lemma demo_pca_trained : trained_reducer 3 demo_pca.
Proof.
  apply linear_pca_trained; [simpl; lia | repeat constructor | repeat constructor].
Qed.

Lemma demo_gmm_trained : trained_classifier 2 2 demo_gmm.
Proof.
  split; [done|]. split; [lia|]. intros row _ _. simpl.
  assert (demo_predict row = 0 \/ demo_predict row = 1) as [-> | ->].
  { unfold demo_predict. destruct row as [|[|q] row]; auto.
    destruct (Qle_bool 0 q); auto. }
  - repeat split; try lia; repeat constructor.
  - repeat split; try lia; repeat constructor.
Qed.

Lemma pca_transform_missing_entrywise_witness :
  exists data' reduced out,
    pca_transform View 3 demo_data demo_pca = Ok (data', reduced) /\
    at2 reduced 1 2 = Some out /\ length out = n_components demo_pca /\
    (forall c, (c < n_components demo_pca)%nat ->
       exists x y, [NaN; NaN; NaN] !! c = Some x /\ out !! c = Some y /\
                   isnan y = isnan x /\
                   (isnan x = false ->
                    Some y = transform demo_pca (zero_fill [NaN; NaN; NaN]) !! c)) /\
    (fully_missing [NaN; NaN; NaN] -> fully_missing out).
Proof.
  apply (pca_transform_missing_entrywise View 3 demo_pca demo_data 1 2 [NaN; NaN; NaN]).
  - apply demo_pca_trained.
  - repeat constructor.
  - reflexivity.
Defined.

(** C1 as stated fails.  The profile [[1, 2, NaN]] has a missing depth
    value, at level 2; with 2 components kept, the mask [inds[..., 0:2]] has
    no true entry for it and its reduced vector has no missing entry. *)
Lemma pca_transform_partial_profile_not_missing :
  trained_reducer 3 demo_pca /\
  has_missing [Fin 1; Fin 2; NaN] /\
  exists data' out,
    pca_transform View 3 [[[Fin 1; Fin 2; NaN]]] demo_pca = Ok (data', [[out]]) /\
    length out = n_components demo_pca /\
    no_missing out /\ ~ fully_missing out.
Proof.
  split; [apply demo_pca_trained|]. split.
  - unfold has_missing. do 2 apply Exists_cons_tl. by apply Exists_cons_hd.
  - eexists _, _. split; [vm_compute; reflexivity|]. split; [reflexivity|].
    split; [repeat constructor|]. intros H. inversion H. discriminate.
Qed.

(** ** The classifier wrappers *)

Lemma column0_first_missing w (rows : list (list float64)) :
  (0 < w)%nat -> Forall (fun r => length r = w) rows ->
  column0 (fmap (M:=list) isnan <$> rows) = Ok (first_missing <$> rows).
Proof.
  intros Hw Hrows. unfold column0.
  induction Hrows as [|r rows Hr _ IH]; [done|].
  rewrite !fmap_cons. cbn [traverse]. rewrite IH.
  destruct r as [|x r]; [simpl in Hr; lia|]. reflexivity.
Qed.

Lemma last_axis_rows w (data : array3) :
  last_axis w data -> Forall (fun r => length r = w) (concat data).
Proof. apply concat_Forall. Qed.

Lemma gmm_classify_rows m w gmm data :
  (0 < w)%nat -> last_axis w data -> has_profile data ->
  gmm_classify m w data gmm
  = Ok (filled m data, fmap (M:=list) (class_of gmm) <$> data).
Proof.
  intros Hw Hshape Hne. unfold gmm_classify, gmm_classify_func.
  rewrite reshape_rows_last_axis by done. cbn [mbind result_bind].
  rewrite on_samples_rows by done. cbn [mbind result_bind].
  rewrite (column0_first_missing w) by (done || by apply last_axis_rows).
  cbn [mbind result_bind]. rewrite after_fill_rows.
  unfold putmask. rewrite <- list_fmap_compose.
  rewrite zip_with_fmap_l, zip_with_fmap_r, zip_with_diag.
  by rewrite !reshape_like_fmap.
Qed.

Lemma gmm_prob_rows m w gmm data :
  (0 < w)%nat -> last_axis w data -> has_profile data ->
  gmm_prob m w data gmm
  = Ok (filled m data, fmap (M:=list) (proba_of gmm) <$> data).
Proof.
  intros Hw Hshape Hne. unfold gmm_prob, gmm_prob_func.
  rewrite reshape_rows_last_axis by done. cbn [mbind result_bind].
  rewrite on_samples_rows by done. cbn [mbind result_bind].
  rewrite (column0_first_missing w) by (done || by apply last_axis_rows).
  cbn [mbind result_bind]. rewrite after_fill_rows.
  rewrite <- list_fmap_compose.
  rewrite zip_with_fmap_l, zip_with_fmap_r, zip_with_diag.
  by rewrite !reshape_like_fmap.
Qed.

Lemma gmm_score_samples_rows m w gmm data :
  (0 < w)%nat -> last_axis w data -> has_profile data ->
  gmm_score_samples m w data gmm
  = Ok (filled m data, fmap (M:=list) (score_of gmm) <$> data).
Proof.
  intros Hw Hshape Hne. unfold gmm_score_samples, gmm_score_samples_func.
  rewrite reshape_rows_last_axis by done. cbn [mbind result_bind].
  rewrite on_samples_rows by done. cbn [mbind result_bind].
  rewrite (column0_first_missing w) by (done || by apply last_axis_rows).
  cbn [mbind result_bind]. rewrite after_fill_rows.
  unfold putmask. rewrite <- list_fmap_compose.
  rewrite zip_with_fmap_l, zip_with_fmap_r, zip_with_diag.
  by rewrite !reshape_like_fmap.
Qed.

(** C10.  For a classifier with [K] components trained on vectors of
    [ncomp >= 1] components, the three wrappers mark a row as missing exactly
    when its first component is missing: then the label is [-1], the
    probability vector is [K] NaNs and the score is NaN.  A row whose first
    component is present is zero-filled at its missing components and gets
    the label, the probabilities and the score of the model, none of them
    missing. *)
Theorem gmm_missing_iff_first_component_missing
    (m : reshaped) (ncomp K : nat) (gmm : ClassifierModel) (data : array3)
    (t j : nat) (row : list float64) :
  (0 < ncomp)%nat -> trained_classifier ncomp K gmm ->
  last_axis ncomp data -> at2 data t j = Some row ->
  exists d1 labels d2 probs d3 scores l p s,
    gmm_classify m ncomp data gmm = Ok (d1, labels) /\
    gmm_prob m ncomp data gmm = Ok (d2, probs) /\
    gmm_score_samples m ncomp data gmm = Ok (d3, scores) /\
    at2 labels t j = Some l /\ at2 probs t j = Some p /\ at2 scores t j = Some s /\
    (first_missing row = true ->
       l = -1 /\ length p = K /\ fully_missing p /\ s = NaN) /\
    (first_missing row = false ->
       l = predict gmm (zero_fill row) /\ 0 <= l < Z.of_nat K /\
       p = predict_proba gmm (zero_fill row) /\ length p = K /\ no_missing p /\
       s = score_samples gmm (zero_fill row) /\ finite s).
Proof.
  intros Hw (HK & HK1 & Htr) Hshape Hrow.
  assert (length row = ncomp) as Hlen
    by (by apply (at2_Forall (fun r => length r = ncomp) data t j)).
  destruct (Htr (zero_fill row)) as (Hl & Hlp & Hp & Hs);
    [by rewrite zero_fill_length | apply zero_fill_no_missing |].
  pose proof (at2_has_profile data t j row Hrow) as Hne.
  eexists _, _, _, _, _, _, (class_of gmm row), (proba_of gmm row), (score_of gmm row).
  split; [by apply gmm_classify_rows|]. split; [by apply gmm_prob_rows|].
  split; [by apply gmm_score_samples_rows|].
  rewrite !at2_fmap, Hrow. do 3 (split; [reflexivity|]).
  unfold class_of, proba_of, score_of. split; intros ->.
  - split; [done|]. split; [by rewrite length_fmap|]. split; [|done].
    apply Forall_fmap, Forall_forall. done.
  - done.
Qed.

Lemma gmm_missing_iff_first_component_missing_witness :
  exists d1 labels d2 probs d3 scores l p s,
    gmm_classify View 2 [[[Fin 1; NaN]; [NaN; Fin 1]]] demo_gmm = Ok (d1, labels) /\
    gmm_prob View 2 [[[Fin 1; NaN]; [NaN; Fin 1]]] demo_gmm = Ok (d2, probs) /\
    gmm_score_samples View 2 [[[Fin 1; NaN]; [NaN; Fin 1]]] demo_gmm = Ok (d3, scores) /\
    at2 labels 0 0 = Some l /\ at2 probs 0 0 = Some p /\ at2 scores 0 0 = Some s /\
    (first_missing [Fin 1; NaN] = true ->
       l = -1 /\ length p = 2%nat /\ fully_missing p /\ s = NaN) /\
    (first_missing [Fin 1; NaN] = false ->
       l = predict demo_gmm (zero_fill [Fin 1; NaN]) /\ 0 <= l < Z.of_nat 2 /\
       p = predict_proba demo_gmm (zero_fill [Fin 1; NaN]) /\ length p = 2%nat /\
       no_missing p /\
       s = score_samples demo_gmm (zero_fill [Fin 1; NaN]) /\ finite s).
Proof.
  apply (gmm_missing_iff_first_component_missing View 2 2 demo_gmm
           [[[Fin 1; NaN]; [NaN; Fin 1]]] 0 0 [Fin 1; NaN]).
  - lia.
  - apply demo_gmm_trained.
  - repeat constructor.
  - reflexivity.
Defined.

(** ** End to end *)

Lemma at2_shape3 T n L (data : array3) t j :
  shape3 T n L data -> (t < T)%nat -> (j < n)%nat ->
  exists row, at2 data t j = Some row /\ length row = L.
Proof.
  intros (HT & Hn & HL) Ht Hj. unfold at2.
  destruct (lookup_lt_is_Some_2 data t) as [s Hs]; [lia|]. rewrite Hs. simpl.
  assert (length s = n) as Hls.
  { rewrite Forall_forall in Hn. apply Hn, list_elem_of_lookup. eauto. }
  destruct (lookup_lt_is_Some_2 s j) as [row Hrow]; [lia|].
  exists row. split; [done|].
  apply (at2_Forall (fun r => length r = L) data t j); [done|].
  unfold at2. by rewrite Hs.
Qed.

Lemma first_missing_lookup row y : row !! 0%nat = Some y -> first_missing row = isnan y.
Proof. destruct row; [done|]. by intros [= ->]. Qed.

Lemma reduced_last_axis lev pca (data : array3) :
  trained_reducer lev pca -> last_axis lev data ->
  last_axis (n_components pca) (fmap (M:=list) (reduced_row pca) <$> data).
Proof.
  intros Htr Hshape. unfold last_axis in *.
  apply Forall_fmap. eapply Forall_impl; [exact Hshape|]. intros s Hs. simpl.
  apply Forall_fmap. eapply Forall_impl; [exact Hs|]. intros row Hrow. simpl.
  by apply (reduced_row_spec lev).
Qed.

(** C3.  Take a (time=2, location=4, depth=3) array in which location [j0]
    is missing at every depth level and both time steps, the other
    profiles having no missing value.  With a reducer trained on 3 depth
    levels and a [K]-component classifier trained on its components,
    [pca_transform] followed by [gmm_classify] returns a (2, 4) array of
    labels that holds [-1] at location [j0], at both time steps, and a
    label in [[0, K)] at every other location and time. *)
Theorem pca_then_gmm_sentinel_at_missing_location
    (m m' : reshaped) (pca : ReducerModel) (gmm : ClassifierModel) (K : nat)
    (data : array3) (j0 : nat) :
  trained_reducer 3 pca -> trained_classifier (n_components pca) K gmm ->
  shape3 2 4 3 data -> (j0 < 4)%nat ->
  (forall t row, at2 data t j0 = Some row -> fully_missing row) ->
  (forall t j row, j <> j0 -> at2 data t j = Some row -> no_missing row) ->
  exists data' reduced reduced' labels,
    pca_transform m 3 data pca = Ok (data', reduced) /\
    gmm_classify m' (n_components pca) reduced gmm = Ok (reduced', labels) /\
    length labels = 2%nat /\ Forall (fun s => length s = 4%nat) labels /\
    forall t j, (t < 2)%nat -> (j < 4)%nat ->
      exists l, at2 labels t j = Some l /\
                (j = j0 -> l = -1) /\ (j <> j0 -> 0 <= l < Z.of_nat K).
Proof.
  intros Hpca Hgmm Hshape Hj0 Hmiss Hvalid.
  pose proof Hshape as (HT & Hn & HL).
  pose proof Hpca as [Hncomp _]. pose proof Hgmm as (_ & _ & Hpred).
  destruct (at2_shape3 2 4 3 data 0 0 Hshape) as (row0 & Hrow0 & _); [lia | lia |].
  pose proof (at2_has_profile data 0 0 row0 Hrow0) as Hprof.
  eexists _, _, _, _.
  split; [by apply (pca_transform_rows m 3)|].
  split; [apply gmm_classify_rows;
          [lia | by apply (reduced_last_axis 3)
          | apply (at2_has_profile _ 0 0 (reduced_row pca row0));
            by rewrite at2_fmap, Hrow0]|].
  split; [by rewrite !length_fmap|]. split.
  { do 2 apply Forall_fmap. eapply Forall_impl; [exact Hn|]. intros s Hs.
    simpl. by rewrite !length_fmap. }
  intros t j Ht Hj.
  destruct (at2_shape3 2 4 3 data t j Hshape Ht Hj) as (row & Hrow & Hlen).
  exists (class_of gmm (reduced_row pca row)).
  split; [by rewrite !at2_fmap, Hrow|].
  destruct (reduced_row_spec 3 pca row Hpca Hlen) as [Hlr Hent].
  destruct (Hent 0%nat) as (x & y & o & Hx & _ & Ho & Hy & ->); [lia|].
  unfold class_of. rewrite (first_missing_lookup _ _ Hy). split.
  - intros ->. specialize (Hmiss t row Hrow).
    unfold fully_missing in Hmiss. rewrite Forall_forall in Hmiss.
    rewrite (Hmiss x) by (apply list_elem_of_lookup; eauto). done.
  - intros Hne. specialize (Hvalid t j row Hne Hrow).
    unfold no_missing in Hvalid. rewrite Forall_forall in Hvalid.
    rewrite (Hvalid x) by (apply list_elem_of_lookup; eauto). rewrite Ho.
    apply Hpred; [by rewrite zero_fill_length | apply zero_fill_no_missing].
Qed.

Lemma pca_then_gmm_sentinel_at_missing_location_witness :
  exists data' reduced reduced' labels,
    pca_transform View 3 demo_data demo_pca = Ok (data', reduced) /\
    gmm_classify View (n_components demo_pca) reduced demo_gmm = Ok (reduced', labels) /\
    length labels = 2%nat /\ Forall (fun s => length s = 4%nat) labels /\
    forall t j, (t < 2)%nat -> (j < 4)%nat ->
      exists l, at2 labels t j = Some l /\
                (j = 2%nat -> l = -1) /\ (j <> 2%nat -> 0 <= l < Z.of_nat 2).
Proof.
  apply (pca_then_gmm_sentinel_at_missing_location View View demo_pca demo_gmm 2 demo_data 2).
  - apply demo_pca_trained.
  - apply demo_gmm_trained.
  - repeat split; repeat constructor.
  - lia.
  - intros [|[|t]] row H; vm_compute in H; [| |discriminate];
      injection H as <-; repeat constructor.
  - intros [|[|t]] [|[|[|[|j]]]] row Hj H; vm_compute in H; try discriminate;
      try done; injection H as <-; repeat constructor.
Defined.

(** ** The input array after a call *)

(** C8 fails on an in-memory, C-contiguous array, of which [func] gets a
    view.  After [pca_transform] the caller's array holds 0 where it held
    NaN: location 2 of [demo_data], fully missing before the call, reads
    [[0, 0, 0]] after it.  The same holds for [gmm_classify] and the reduced
    array; a later [gmm_prob] on that array then finds no missing row and
    returns finite probabilities at location 2, where [gmm_classify] has
    just returned the sentinel. *)
Theorem zero_fill_written_into_input :
  exists data' reduced reduced' labels reduced'' probs,
    pca_transform View 3 demo_data demo_pca = Ok (data', reduced) /\
    at2 demo_data 0 2 = Some [NaN; NaN; NaN] /\
    at2 data' 0 2 = Some [zero; zero; zero] /\
    gmm_classify View 2 reduced demo_gmm = Ok (reduced', labels) /\
    at2 reduced 0 2 = Some [NaN; NaN] /\
    at2 reduced' 0 2 = Some [zero; zero] /\
    at2 labels 0 2 = Some (-1) /\
    gmm_prob View 2 reduced' demo_gmm = Ok (reduced'', probs) /\
    at2 probs 0 2 = Some [Fin 0; Fin 1].
Proof.
  eexists _, _, _, _, _, _.
  split; [vm_compute; reflexivity|]. split; [reflexivity|]. split; [reflexivity|].
  split; [vm_compute; reflexivity|]. split; [reflexivity|]. split; [reflexivity|].
  split; [reflexivity|]. split; [vm_compute; reflexivity|]. reflexivity.
Qed.

(** ** The aggregators *)

Lemma out_not_global : "out"%string ∉ module_globals.
Proof. compute_done. Qed.

(** C4 fails on the code: whatever the latitudes, the assignment and [K],
    [count_area] raises [NameError] for the name [out] and returns no
    count.  This holds in particular for the evenly split assignment
    [[0, 1, 0, 1]] at latitude 0 with [K = 2], where 2 is expected for both
    classes. *)
Theorem count_area_raises_NameError
    (np_pi : float64) (np_cos : float64 -> float64)
    (lats : list float64) (data_classes : class_array) (K : nat) :
  count_area np_pi np_cos lats data_classes K = Raise (NameError "out") /\
  count_area np_pi np_cos [Fin 0; Fin 0; Fin 0; Fin 0] [[0; 1; 0; 1]] 2
    <> Ok [[Fin 2; Fin 2]].
Proof. split; [reflexivity | discriminate]. Qed.

(** C9 fails on the code: [mean_lat] raises [NameError] for the name [out]
    on every input.  Besides, the value that its inner function computes
    for a class is the mean over all locations of the latitude times the
    membership indicator, that is the sum of the latitudes of the class
    divided by the number of all locations: for latitudes [[10, 20]] and
    classes [[0, 1]] it is 5 for class 0, whose mean latitude is 10. *)
Theorem mean_lat_raises_NameError
    (lats : list float64) (data_classes : class_array) (K : nat) :
  mean_lat lats data_classes K = Raise (NameError "out") /\
  exists q, mean_lat_entry [Fin 10; Fin 20] [0; 1] 0 = Ok (Fin q) /\ Qeq q 5.
Proof.
  split; [reflexivity|]. eexists. split; [vm_compute; reflexivity | reflexivity].
Qed.

(** ** The sampler *)

Lemma lookup_concat_uniform {A} (ls : list (list A)) w m t :
  Forall (fun l => length l = w) ls -> (t < w)%nat ->
  concat ls !! (m * w + t)%nat = ls !! m ≫= (.!! t).
Proof.
  intros Hls Ht. revert m. induction Hls as [|l ls Hl _ IH]; intros m.
  - by destruct m.
  - destruct m as [|m]; simpl.
    + rewrite lookup_app_l by lia. done.
    + rewrite lookup_app_r by lia.
      replace (w + m * w + t - length l)%nat with (m * w + t)%nat by lia.
      apply IH.
Qed.

Lemma omap_lookup_column {A} (out : list (list A)) N m :
  Forall (fun s => length s = N) out -> (m < N)%nat ->
  length (omap (fun s : list A => s !! m) out) = length out /\
  forall t, omap (fun s : list A => s !! m) out !! t = out !! t ≫= (.!! m).
Proof.
  intros Hout Hm. induction Hout as [|s out Hs _ [IHl IH]]; [done|].
  destruct (lookup_lt_is_Some_2 s m) as [x Hx]; [lia|].
  simpl. rewrite Hx. simpl. split; [f_equal; apply IHl|].
  intros [|t]; simpl; [by rewrite Hx | apply IH].
Qed.

Lemma stack_M_time_lookup N (out : array3) m t :
  Forall (fun s => length s = N) out -> (m < N)%nat -> (t < length out)%nat ->
  stack_M_time N out !! (m * length out + t)%nat = at2 out t m.
Proof.
  intros Hout Hm Ht. unfold stack_M_time.
  rewrite (lookup_concat_uniform _ (length out)); [|apply Forall_fmap|done].
  - rewrite list_lookup_fmap, lookup_seq_lt by done. simpl.
    by apply (omap_lookup_column out N m).
  - apply Forall_forall. intros k Hk. apply elem_of_seq in Hk. simpl.
    apply (omap_lookup_column out N k); [done | lia].
Qed.

Lemma stack_M_time_length N (out : array3) :
  Forall (fun s => length s = N) out ->
  length (stack_M_time N out) = (N * length out)%nat.
Proof.
  intros Hout. unfold stack_M_time.
  rewrite (length_concat_uniform _ (length out)).
  - by rewrite length_fmap, length_seq.
  - apply Forall_fmap, Forall_forall. intros k Hk. apply elem_of_seq in Hk. simpl.
    apply (omap_lookup_column out N k); [done | lia].
Qed.

Lemma draw_first_without_replacement : draws_without_replacement unit draw_first.
Proof.
  intros s n N HN. simpl. split; [apply length_seq|]. split; [apply NoDup_seq|].
  apply Forall_forall. intros i Hi. apply elem_of_seq in Hi. lia.
Qed.

Lemma rng_choice_spec (rng_state : Type) draw s (arr : list (list float64)) n N :
  draws_without_replacement rng_state draw -> length arr = n -> (N <= n)%nat ->
  exists rows,
    rng_choice rng_state draw s arr N = (Ok rows, (draw s n N).2) /\
    Forall2 (fun i row => arr !! i = Some row) (draw s n N).1 rows.
Proof.
  intros Hdraw Hlen HN. unfold rng_choice. rewrite Hlen.
  replace (n <? N)%nat with false by (symmetry; apply Nat.ltb_ge; lia).
  destruct (Hdraw s n N HN) as (_ & _ & Hlt).
  destruct (draw s n N) as [idx s'] eqn:E. simpl in *.
  destruct (traverse_Forall2 (fun i => getitem arr (Z.of_nat i))
              (fun i row => arr !! i = Some row) idx) as (rows & Hrows & Hall).
  { eapply Forall_impl; [exact Hlt|]. intros i Hi. simpl in Hi.
    destruct (lookup_lt_is_Some_2 arr i) as [row Hrow]; [lia|].
    exists row. split; [|done]. apply getitem_nonneg; [lia|]. by rewrite Nat2Z.id. }
  exists rows. by rewrite Hrows.
Qed.

Lemma vectorize_loop_spec (rng_state : Type) draw (data : array3) n N :
  draws_without_replacement rng_state draw ->
  Forall (fun arr => length arr = n) data -> (N <= n)%nat ->
  forall s, exists out draws,
    vectorize_loop rng_state draw s data N = Ok out /\
    Forall (fun idx => length idx = N /\ NoDup idx /\ Forall (fun i => (i < n)%nat) idx)
      draws /\
    Forall2 (fun arr idx => True) data draws /\
    Forall2 (fun idx rows => length rows = N) draws out /\
    forall t m i, at2 draws t m = Some i ->
      exists row, at2 data t i = Some row /\ at2 out t m = Some row.
Proof.
  intros Hdraw Hdata HN. induction Hdata as [|arr data Harr _ IH]; intros s.
  - exists [], []. repeat split; try constructor. intros t m i H. by destruct t.
  - destruct (rng_choice_spec rng_state draw s arr n N Hdraw Harr HN)
      as (rows & Hrows & Hall).
    destruct (IH (draw s n N).2) as (out & draws & Hout & Hvalid & Hl1 & Hl2 & Hat).
    exists (rows :: out), ((draw s n N).1 :: draws). simpl. rewrite Hrows. simpl.
    rewrite Hout. simpl. split; [done|]. split; [constructor; [by apply Hdraw|done]|].
    split; [by constructor|]. split.
    + constructor; [|done]. apply Forall2_length in Hall.
      destruct (Hdraw s n N HN) as (Hl & _). lia.
    + intros [|t] m i Hi; unfold at2 in *; simpl in *; [|by apply Hat].
      destruct (Forall2_lookup_l _ _ _ _ _ Hall Hi) as (row & Hrow & Harow). eauto.
Qed.

(** C6, as the code has it.  For a generator that draws without
    replacement, a (T, n, L) array with at least one time slice and
    [N <= n], [random_sample] returns [N * T] profiles: for each time slice
    [t], [N] profiles at pairwise distinct locations of that slice, draw [m]
    of slice [t] being sample [m * T + t].  The draw is made among all [n]
    locations of the slice. *)
Theorem random_sample_distinct_locations
    (rng_state : Type) (draw : rng_state -> nat -> nat -> list nat * rng_state)
    (s : rng_state) (data : array3) (N T n L : nat) :
  draws_without_replacement rng_state draw -> shape3 T n L data ->
  (0 < T)%nat -> (N <= n)%nat ->
  exists sample draws,
    random_sample rng_state draw s data N = Ok sample /\
    length sample = (N * T)%nat /\ length draws = T /\
    Forall (fun idx => length idx = N /\ NoDup idx /\ Forall (fun i => (i < n)%nat) idx)
      draws /\
    forall t m, (t < T)%nat -> (m < N)%nat ->
      exists i row, at2 draws t m = Some i /\ at2 data t i = Some row /\
                    sample !! (m * T + t)%nat = Some row.
Proof.
  intros Hdraw (HT & Hn & _) HT0 HN.
  destruct (vectorize_loop_spec rng_state draw data n N Hdraw Hn HN s)
    as (out & draws & Hout & Hvalid & Hl1 & Hl2 & Hat).
  assert (sample_slices rng_state draw s data N = Ok out) as Hslices.
  { destruct data; [simpl in HT; lia | exact Hout]. }
  assert (length draws = T) as Hld by (apply Forall2_length in Hl1; lia).
  assert (length out = T) as Hlo by (apply Forall2_length in Hl2; lia).
  assert (Forall (fun rows => length rows = N) out) as HoutN.
  { clear -Hl2. induction Hl2; constructor; auto. }
  exists (stack_M_time N out), draws. unfold random_sample. rewrite Hslices. simpl.
  split; [done|]. split; [by rewrite stack_M_time_length, Hlo|].
  split; [done|]. split; [done|].
  intros t m Ht Hm.
  destruct (lookup_lt_is_Some_2 draws t) as [idx Hidx]; [lia|].
  assert (length idx = N) as Hli.
  { rewrite Forall_forall in Hvalid. apply Hvalid, list_elem_of_lookup. eauto. }
  destruct (lookup_lt_is_Some_2 idx m) as [i Hi]; [lia|].
  assert (at2 draws t m = Some i) as Hati by (unfold at2; by rewrite Hidx).
  destruct (Hat t m i Hati) as (row & Hrow & Horow).
  exists i, row. split; [done|]. split; [done|].
  rewrite <- Hlo, stack_M_time_lookup; [done | done | done | lia].
Qed.

Lemma random_sample_distinct_locations_witness :
  exists sample draws,
    random_sample unit draw_first tt demo_data 3 = Ok sample /\
    length sample = (3 * 2)%nat /\ length draws = 2%nat /\
    Forall (fun idx => length idx = 3%nat /\ NoDup idx /\ Forall (fun i => (i < 4)%nat) idx)
      draws /\
    forall t m, (t < 2)%nat -> (m < 3)%nat ->
      exists i row, at2 draws t m = Some i /\ at2 demo_data t i = Some row /\
                    sample !! (m * 2 + t)%nat = Some row.
Proof.
  apply (random_sample_distinct_locations unit draw_first tt demo_data 3 2 4 3).
  - apply draw_first_without_replacement.
  - repeat split; repeat constructor.
  - lia.
  - lia.
Defined.

(** C6 as stated fails.  The time slice below has two locations, the first
    fully missing and the second valid, so that [N = 1] does not exceed the
    number of valid locations; a generator that draws index 0 makes
    [random_sample] return the fully missing profile. *)
Lemma random_sample_draws_missing_profile :
  draws_without_replacement unit draw_first /\
  Forall (fun slice => (1 <= valid_count slice)%nat) [[[NaN; NaN]; [Fin 1; Fin 2]]] /\
  random_sample unit draw_first tt [[[NaN; NaN]; [Fin 1; Fin 2]]] 1 = Ok [[NaN; NaN]] /\
  fully_missing [NaN; NaN].
Proof.
  split; [apply draw_first_without_replacement|].
  split; [repeat constructor; vm_compute; lia|].
  split; [reflexivity | repeat constructor].
Qed.

(* ================================================================== *)
(** * Further properties of the module *)

(** ** [reorder] on arbitrary index arrays *)

Lemma traverse_Raise {A B} (f : A -> result B) e l x :
  x ∈ l -> f x = Raise e ->
  Forall (fun y => (exists z, f y = Ok z) \/ f y = Raise e) l ->
  traverse f l = Raise e.
Proof.
  intros Hx Hfx Hall. induction Hall as [|y l Hy _ IH]; [by apply elem_of_nil in Hx|].
  simpl. destruct Hy as [[z Hz] | Hy].
  - rewrite Hz. simpl. apply elem_of_cons in Hx as [-> | Hx]; [congruence|].
    by rewrite IH.
  - by rewrite Hy.
Qed.

Lemma getitem_cases {A} (a : list A) i :
  (exists x, getitem a i = Ok x /\ - size a <= i < size a) \/
  (getitem a i = Raise IndexError /\ ~ (- size a <= i < size a)).
Proof.
  unfold getitem, norm_index.
  destruct (0 <=? i) eqn:E0; destruct (i <? size a) eqn:En; simpl.
  - apply Z.leb_le in E0. apply Z.ltb_lt in En.
    destruct (lookup_lt_is_Some_2 a (Z.to_nat i)) as [x Hx]; [unfold size in *; lia|].
    left. exists x. rewrite Hx. split; [done | lia].
  - apply Z.leb_le in E0. apply Z.ltb_ge in En.
    replace (i <? 0) with false by (symmetry; apply Z.ltb_ge; lia).
    rewrite andb_false_r. simpl. right. split; [done | lia].
  - apply Z.leb_gt in E0. apply Z.ltb_lt in En.
    replace (i <? 0) with true by (symmetry; apply Z.ltb_lt; lia).
    rewrite andb_true_r. destruct (- size a <=? i) eqn:El; simpl.
    + apply Z.leb_le in El.
      destruct (lookup_lt_is_Some_2 a (Z.to_nat (size a + i))) as [x Hx];
        [unfold size in *; lia|].
      left. exists x. rewrite Hx. split; [done | lia].
    + apply Z.leb_gt in El. right. split; [done | lia].
  - apply Z.leb_gt in E0. apply Z.ltb_ge in En. unfold size in *. lia.
Qed.

Lemma put_cases {A} (idx : list Z) : forall (a vals : list A),
  length vals = length idx ->
  (exists r, put a idx vals = Ok r /\ length r = length a) \/
  put a idx vals = Raise IndexError.
Proof.
  induction idx as [|i idx IH]; intros a vals Hlen.
  - destruct vals; [|discriminate]. left. by exists a.
  - destruct vals as [|v vals]; [discriminate|]. simpl.
    unfold setitem, norm_index.
    destruct ((0 <=? i) && (i <? size a)); simpl.
    + destruct (IH (<[Z.to_nat i := v]> a) vals) as [(r & Hr & Hl) | Hr];
        [simpl in Hlen; lia | | by right].
      left. exists r. split; [done|]. by rewrite length_insert in Hl.
    + destruct ((- size a <=? i) && (i <? 0)); simpl; [|by right].
      destruct (IH (<[Z.to_nat (size a + i) := v]> a) vals) as [(r & Hr & Hl) | Hr];
        [simpl in Hlen; lia | | by right].
      left. exists r. split; [done|]. by rewrite length_insert in Hl.
Qed.

Lemma arange_length n : length (arange n) = n.
Proof. unfold arange. by rewrite length_fmap, length_seq. Qed.

(** X1.  Whatever the index array [inds], [reorder] raises [IndexError] as
    soon as the assignment holds a label outside [[-K, K)], [K] being the
    length of [inds]; in particular on any non-empty assignment when [inds]
    is empty. *)
Theorem reorder_label_out_of_range
    (a : class_array) (inds : list Z) (t j : nat) (x : Z) :
  at2 a t j = Some x -> ~ (- size inds <= x < size inds) ->
  reorder a inds = Raise IndexError.
Proof.
  intros Hx Hrange. unfold reorder.
  destruct (put_cases inds (zeros (length inds)) (arange (length inds))
              (arange_length _)) as [(r & -> & Hlr) | ->]; [|done].
  simpl. unfold reorder_func.
  unfold zeros in Hlr. rewrite length_replicate in Hlr.
  unfold at2, class_array in *.
  destruct (a !! t) as [row|] eqn:Hrow; simpl in Hx; [|done].
  assert (forall row', (exists z, getitems r row' = Ok z) \/
                       getitems r row' = Raise IndexError) as Hcases.
  { intros row'. unfold getitems. induction row' as [|y row' IH]; [left; by eexists|].
    simpl. destruct (getitem_cases r y) as [(z & -> & _) | [-> _]]; [|by right].
    simpl. destruct IH as [[zs ->] | ->]; [left; by eexists | by right]. }
  rewrite (traverse_Raise (getitems r) IndexError a row); [done | | |].
  - apply list_elem_of_lookup. eauto.
  - unfold getitems. apply (traverse_Raise _ _ _ x).
    + apply list_elem_of_lookup. eauto.
    + destruct (getitem_cases r x) as [(z & _ & Hin) | [Hr _]]; [|done].
      unfold size in *. lia.
    + apply Forall_forall. intros y _.
      destruct (getitem_cases r y) as [(z & Hz & _) | [Hr _]]; eauto.
  - apply Forall_forall. intros row' _. apply Hcases.
Qed.

Lemma reorder_label_out_of_range_witness :
  reorder [[0; 1]; [3; -1]] [1; 0; 2] = Raise IndexError.
Proof.
  apply (reorder_label_out_of_range [[0; 1]; [3; -1]] [1; 0; 2] 1 0 3).
  - reflexivity.
  - unfold size. simpl. lia.
Defined.

Lemma Forall2_rows_length {A B} (R : A -> B -> Prop) (a : list (list A)) b :
  Forall2 (Forall2 R) a b -> Forall2 (fun ra rb => length ra = length rb) a b.
Proof.
  induction 1 as [|ra rb a b Hrow _ IH]; constructor; [|done].
  by apply Forall2_length in Hrow.
Qed.

(** X2.  For a permutation [p] of [[0, K)], [K >= 1], [reorder] returns a
    class assignment over [K] classes of the shape of its input, in which
    the sentinel is kept and every label [p[i]] has become [i]. *)
Theorem reorder_permutation_relabels (K : nat) (p : list Z) (a : class_array) :
  (0 < K)%nat -> is_perm K p -> ClassAssignment K a ->
  exists b,
    reorder a p = Ok b /\ ClassAssignment K b /\
    Forall2 (fun ra rb => length ra = length rb) a b /\
    forall t j x, at2 a t j = Some x ->
      exists y, at2 b t j = Some y /\
                (x = -1 -> y = -1) /\
                (forall i, p !! i = Some x -> y = Z.of_nat i).
Proof.
  intros HK Hp Ha. destruct (reorder_spec K p a HK Hp Ha) as (b & Hb & Hab).
  exists b. split; [done|]. split; [by apply (relabel_ClassAssignment K p a)|].
  split; [by apply (Forall2_rows_length (relabel p))|].
  intros t j x Hx. destruct (at2_Forall2 _ _ _ _ _ _ Hab Hx) as (y & Hy & Hxy).
  exists y. split; [done|]. destruct Hxy as [[-> ->] | (Hne & Hy0 & Hpy)].
  - split; [done|]. intros i Hi.
    apply (is_perm_lookup_range K p) in Hi; [lia | done].
  - split; [done|]. intros i Hi.
    pose proof (is_perm_inj K p _ _ _ Hp Hpy Hi). lia.
Qed.

Lemma reorder_permutation_relabels_witness :
  exists b,
    reorder [[0; -1; 2]; [1; 1; -1]] [1; 2; 0] = Ok b /\ ClassAssignment 3 b /\
    Forall2 (fun ra rb => length ra = length rb) [[0; -1; 2]; [1; 1; -1]] b /\
    forall t j x, at2 [[0; -1; 2]; [1; 1; -1]] t j = Some x ->
      exists y, at2 b t j = Some y /\
                (x = -1 -> y = -1) /\
                (forall i, [1; 2; 0] !! i = Some x -> y = Z.of_nat i).
Proof.
  apply (reorder_permutation_relabels 3 [1; 2; 0] [[0; -1; 2]; [1; 1; -1]]).
  - lia.
  - split; [reflexivity|]. split; compute_done.
  - unfold ClassAssignment. compute_done.
Defined.

Lemma put_last_wins {A} (idx : list Z) : forall (a vals : list A),
  length vals = length idx ->
  Forall (fun i => 0 <= i < size a) idx ->
  exists r, put a idx vals = Ok r /\ length r = length a /\
    (forall j, Z.of_nat j ∉ idx -> r !! j = a !! j) /\
    (forall k i v, idx !! k = Some i -> vals !! k = Some v ->
                   i ∉ drop (S k) idx -> r !! Z.to_nat i = Some v).
Proof.
  induction idx as [|i idx IH]; intros a vals Hlen Hrange.
  - destruct vals; [|discriminate]. exists a. simpl. repeat split; auto.
    intros k i v Hk. by destruct k.
  - destruct vals as [|v vals]; [discriminate|].
    apply Forall_cons in Hrange as [Hi Hrange].
    simpl. unfold setitem. rewrite norm_index_nonneg by done. simpl.
    destruct (IH (<[Z.to_nat i := v]> a) vals) as (r & Hr & Hlr & Hout & Hin).
    + simpl in Hlen. lia.
    + unfold size in *. by rewrite length_insert.
    + exists r. split; [done|]. rewrite length_insert in Hlr. split; [done|]. split.
      * intros j Hj. apply not_elem_of_cons in Hj as [Hji Hj].
        rewrite Hout by done. apply list_lookup_insert_ne. lia.
      * intros [|k] i' v' Hk Hv Hlast; simpl in *.
        -- injection Hk as <-. injection Hv as <-.
           rewrite Hout by (rewrite Z2Nat.id by lia; done).
           apply list_lookup_insert_eq. unfold size in Hi. lia.
        -- eauto.
Qed.

(** X3.  [reorder] accepts index arrays that are not permutations, such as
    the results of [match_profiles] and [match_spatial].  For [inds] with
    entries in [[0, K)], [K = len(inds) >= 1], it returns an assignment in
    which a label that does not occur in [inds] has become 0, and a label
    that occurs in [inds] has become the last position at which it occurs;
    the sentinel is kept. *)
Theorem reorder_non_injective (K : nat) (inds : list Z) (a : class_array) :
  (0 < K)%nat -> length inds = K -> Forall (fun x => 0 <= x < Z.of_nat K) inds ->
  ClassAssignment K a ->
  exists b,
    reorder a inds = Ok b /\
    forall t j x, at2 a t j = Some x ->
      exists y, at2 b t j = Some y /\
                (x = -1 -> y = -1) /\
                (x <> -1 -> x ∉ inds -> y = 0) /\
                (forall i, inds !! i = Some x -> x ∉ drop (S i) inds -> y = Z.of_nat i).
Proof.
  intros HK Hlen Hrange Ha. unfold reorder. rewrite Hlen.
  destruct (put_last_wins inds (zeros K) (arange K)) as (r & -> & Hlr & Hout & Hin).
  { by rewrite arange_length. }
  { unfold size, zeros. by rewrite length_replicate. }
  unfold zeros in Hlr, Hout. rewrite length_replicate in Hlr.
  simpl. unfold reorder_func.
  pose (R := fun x o : Z => x = -1 \/
    (x <> -1 /\ (x ∉ inds -> o = 0) /\
     (forall i, inds !! i = Some x -> x ∉ drop (S i) inds -> o = Z.of_nat i))).
  destruct (traverse_Forall2 (getitems r) (Forall2 R) a) as (out & -> & Hall).
  { eapply Forall_impl; [exact Ha|]. intros row Hrow. simpl in Hrow.
    apply traverse_Forall2.
    eapply Forall_impl; [exact Hrow|]. intros x Hx. simpl in Hx.
    destruct Hx as [-> | Hx].
    - destruct (getitem_last r) as [o Ho].
      + intros ->. simpl in Hlr. lia.
      + exists o. split; [done|]. by left.
    - destruct (lookup_lt_is_Some_2 r (Z.to_nat x)) as [o Ho]; [lia|].
      exists o. split; [apply getitem_nonneg; [lia | done]|].
      right. split; [lia|]. split.
      + intros Hni. rewrite Hout in Ho by (by rewrite Z2Nat.id by lia).
        apply lookup_replicate in Ho as [-> _]. done.
      + intros i Hi Hlast.
        assert (arange K !! i = Some (Z.of_nat i)) as Hv
          by (apply arange_lookup; apply lookup_lt_Some in Hi; lia).
        rewrite (Hin i x (Z.of_nat i) Hi Hv Hlast) in Ho. congruence. }
  simpl. eexists. split; [reflexivity|].
  assert (Forall2 (Forall2 (fun x y =>
            (x = -1 -> y = -1) /\ (x <> -1 -> x ∉ inds -> y = 0) /\
            (forall i, inds !! i = Some x -> x ∉ drop (S i) inds -> y = Z.of_nat i)))
            a (zip_with (fun o a0 => putmask o ((fun x => x =? -1) <$> a0) (-1)) out a))
    as Hfinal.
  { eapply zip_with_Forall2; [|exact Hall]. intros row o Hrow. simpl.
    eapply putmask_Forall2; [|exact Hrow].
    intros x y [-> | (Hx & H0 & Hi)]; simpl.
    - split; [done|]. split; [done|]. intros i Hi.
      rewrite Forall_forall in Hrange.
      assert (0 <= -1) as Hneg; [|lia].
      apply Hrange, list_elem_of_lookup. eauto.
    - replace (x =? -1) with false by (symmetry; apply Z.eqb_neq; done).
      split; [done|]. split; [by intros _|done]. }
  intros t j x Hx. destruct (at2_Forall2 _ _ _ _ _ _ Hfinal Hx) as (y & Hy & Hxy).
  exists y. split; [done|]. exact Hxy.
Qed.

Lemma reorder_non_injective_witness :
  exists b,
    reorder [[0; 1; 2; -1]] [1; 1; 0] = Ok b /\
    forall t j x, at2 [[0; 1; 2; -1]] t j = Some x ->
      exists y, at2 b t j = Some y /\
                (x = -1 -> y = -1) /\
                (x <> -1 -> x ∉ [1; 1; 0] -> y = 0) /\
                (forall i, [1; 1; 0] !! i = Some x -> x ∉ drop (S i) [1; 1; 0] ->
                           y = Z.of_nat i).
Proof.
  apply (reorder_non_injective 3 [1; 1; 0] [[0; 1; 2; -1]]).
  - lia.
  - reflexivity.
  - compute_done.
  - unfold ClassAssignment. compute_done.
Defined.

(** ** [match_profiles] beyond permuted lists *)

Lemma Qle_bool_false a b : Qle_bool a b = false -> (b < a)%Q.
Proof.
  intros H. apply Qnot_le_lt. intros Hle. apply Qle_bool_iff in Hle. congruence.
Qed.

Section Binary64Nearest.
Import Binary64.

(** X5.  For lists permuted by [p], entry [i] of the result of
    [match_profiles] is the first index of [avg1] whose profile is at
    computed distance [+0.0] from the mean of [avg0[i]]; it is at most
    [p[i]], and it is [p[i]] exactly when no earlier profile of [avg1] is
    at computed distance zero. *)
Theorem match_profiles_first_zero_distance
    (np_sum : list binary64 -> binary64) (K L : nat) (p : list Z)
    (avg0 avg1 : list ProfileSummary) :
  sums np_sum -> (0 < K)%nat -> length avg0 = K -> length avg1 = K ->
  is_perm K p -> permuted_by p avg0 avg1 -> real_profiles L avg0 ->
  exists inds,
    match_profiles np_sum avg0 avg1 None = Ok inds /\ length inds = K /\
    forall i a0 pi, avg0 !! i = Some a0 -> p !! i = Some pi ->
      exists m am,
        inds !! i = Some (Z.of_nat m) /\ Z.of_nat m <= pi /\ avg1 !! m = Some am /\
        norm_entry np_sum None a0 am = Ok zero /\
        forall j aj, (j < m)%nat -> avg1 !! j = Some aj ->
          norm_entry np_sum None a0 aj <> Ok zero.
Proof. apply match_profiles_first_zero. Qed.

Lemma match_profiles_first_zero_distance_witness :
  exists inds,
    match_profiles sum_in_order avg_tiny avg_tiny_swapped None = Ok inds /\
    length inds = 2%nat /\
    forall i a0 pi, avg_tiny !! i = Some a0 -> [1; 0] !! i = Some pi ->
      exists m am,
        inds !! i = Some (Z.of_nat m) /\ Z.of_nat m <= pi /\
        avg_tiny_swapped !! m = Some am /\
        norm_entry sum_in_order None a0 am = Ok zero /\
        forall j aj, (j < m)%nat -> avg_tiny_swapped !! j = Some aj ->
          norm_entry sum_in_order None a0 aj <> Ok zero.
Proof.
  apply (match_profiles_first_zero_distance sum_in_order 2 1 [1; 0]).
  - apply sum_in_order_sums.
  - lia.
  - reflexivity.
  - reflexivity.
  - split; [done|]. split; compute_done.
  - repeat constructor.
  - repeat constructor.
Defined.

(** [>=] on values that are zero or more: a total preorder. *)
Lemma geb_refl x : nonneg x -> geb x x = true.
Proof.
  destruct x as [[]|[]| |[] m e]; try done; intros _.
  unfold geb, SFleb, SFcompare. rewrite Z.compare_refl.
  change (Pos.compare_cont Eq m m) with (m ?= m)%positive.
  by rewrite Pos.compare_refl.
Qed.

Lemma geb_total x y : nonneg x -> nonneg y -> geb x y = false -> geb y x = true.
Proof.
  destruct x as [[]|[]| |[] mx ex]; try done;
    destruct y as [[]|[]| |[] my ey]; try done; intros _ _.
  unfold geb, SFleb, SFcompare.
  change (Pos.compare_cont Eq my mx) with (my ?= mx)%positive.
  change (Pos.compare_cont Eq mx my) with (mx ?= my)%positive.
  destruct (Z.compare_spec ey ex), (Z.compare_spec ex ey); try lia; try done.
  destruct (Pos.compare_spec my mx), (Pos.compare_spec mx my); try lia; done.
Qed.

Lemma geb_trans x y z :
  nonneg x -> nonneg y -> nonneg z ->
  geb x y = true -> geb y z = true -> geb x z = true.
Proof.
  destruct x as [[]|[]| |[] mx ex]; try done;
    destruct y as [[]|[]| |[] my ey]; try done;
    destruct z as [[]|[]| |[] mz ez]; try done; intros _ _ _.
  unfold geb, SFleb, SFcompare.
  change (Pos.compare_cont Eq my mx) with (my ?= mx)%positive.
  change (Pos.compare_cont Eq mz my) with (mz ?= my)%positive.
  change (Pos.compare_cont Eq mz mx) with (mz ?= mx)%positive.
  destruct (Z.compare_spec ey ex), (Z.compare_spec ez ey), (Z.compare_spec ez ex);
    try lia; try done.
  destruct (Pos.compare_spec my mx), (Pos.compare_spec mz my), (Pos.compare_spec mz mx);
    try lia; done.
Qed.

Lemma geb_false_trans x y z :
  nonneg x -> nonneg y -> nonneg z ->
  geb x y = false -> geb z y = true -> geb x z = false.
Proof.
  intros Hx Hy Hz Hxy Hzy. destruct (geb x z) eqn:E; [|done].
  by rewrite (geb_trans x z y Hx Hz Hy E Hzy) in Hxy.
Qed.

Lemma nonneg_isnan x : nonneg x -> isnan x = false.
Proof. by destruct x as [[]|[]| |[] m e]. Qed.

Lemma argmin_from_spec l : forall mp mi i,
  nonneg mp -> Forall nonneg l ->
  (argmin_from mp mi i l = mi /\
   forall j x, l !! j = Some x -> geb x mp = true) \/
  (exists k xk,
     argmin_from mp mi i l = i + Z.of_nat k /\ l !! k = Some xk /\
     geb xk mp = false /\
     (forall j x, l !! j = Some x -> geb x xk = true) /\
     (forall j x, (j < k)%nat -> l !! j = Some x -> geb xk x = false)).
Proof.
  induction l as [|x l IH]; intros mp mi i Hmp Hl.
  - left. split; [done|]. intros j x H. by destruct j.
  - apply Forall_cons in Hl as [Hx Hl]. cbn [argmin_from].
    rewrite (nonneg_isnan mp Hmp).
    assert (Forall2 (fun _ _ => True) l l) as _ by (by apply Forall2_same_length_lookup_2).
    destruct (geb x mp) eqn:E; cbn [negb].
    + destruct (IH mp mi (i + 1) Hmp Hl)
        as [[Hr Hall] | (k & xk & Hr & Hk & Hlt & Hall & Hbefore)].
      * left. split; [done|]. intros [|j] y Hj; simpl in Hj; [congruence | eauto].
      * assert (nonneg xk) as Hxk.
        { rewrite Forall_forall in Hl. apply Hl, list_elem_of_lookup. eauto. }
        right. exists (S k), xk. split; [lia|]. split; [done|]. split; [done|]. split.
        -- intros [|j] y Hj; simpl in Hj; [|eauto]. injection Hj as <-.
           apply (geb_trans x mp xk); [done | done | done | done |].
           by apply geb_total.
        -- intros [|j] y Hjk Hj; simpl in Hj.
           ++ injection Hj as <-. by apply (geb_false_trans xk mp x).
           ++ apply (Hbefore j); [lia | done].
    + right.
      destruct (IH x i (i + 1) Hx Hl)
        as [[Hr Hall] | (k & xk & Hr & Hk & Hlt & Hall & Hbefore)].
      * exists 0%nat, x. split; [lia|]. split; [done|]. split; [done|]. split.
        -- intros [|j] y Hj; simpl in Hj; [|eauto]. injection Hj as <-.
           by apply geb_refl.
        -- intros j y Hj. lia.
      * assert (nonneg xk) as Hxk.
        { rewrite Forall_forall in Hl. apply Hl, list_elem_of_lookup. eauto. }
        exists (S k), xk. split; [lia|]. split; [done|]. split.
        { apply (geb_false_trans xk x mp); [done | done | done | done |].
          by apply geb_total. }
        split.
        -- intros [|j] y Hj; simpl in Hj; [|eauto]. injection Hj as <-.
           by apply geb_total.
        -- intros [|j] y Hjk Hj; simpl in Hj.
           ++ by injection Hj as <-.
           ++ apply (Hbefore j); [lia | done].
Qed.

(** On a non-empty row of values that are zero or more, [argmin] returns
    the first index of a least entry. *)
Lemma argmin_first_least row :
  row <> [] -> Forall nonneg row ->
  exists m xm,
    argmin row = Ok (Z.of_nat m) /\ row !! m = Some xm /\
    (forall j x, row !! j = Some x -> geb x xm = true) /\
    (forall j x, (j < m)%nat -> row !! j = Some x -> geb xm x = false).
Proof.
  intros Hne Hrow. destruct row as [|x0 row]; [done|].
  apply Forall_cons in Hrow as [Hx0 Hrow]. cbn [argmin].
  destruct (argmin_from_spec row x0 0 1 Hx0 Hrow)
    as [[Hr Hall] | (k & xk & Hr & Hk & Hlt & Hall & Hbefore)].
  - exists 0%nat, x0. rewrite Hr. split; [done|]. split; [done|]. split.
    + intros [|j] x Hj; simpl in Hj; [|eauto]. injection Hj as <-. by apply geb_refl.
    + intros j x Hj. lia.
  - assert (nonneg xk) as Hxk.
    { rewrite Forall_forall in Hrow. apply Hrow, list_elem_of_lookup. eauto. }
    exists (S k), xk. rewrite Hr. split; [f_equal; lia|]. split; [done|]. split.
    + intros [|j] x Hj; simpl in Hj; [|eauto]. injection Hj as <-. by apply geb_total.
    + intros [|j] x Hjk Hj; simpl in Hj.
      * by injection Hj as <-.
      * apply (Hbefore j); [lia | done].
Qed.

(** X4.  For two lists of [K >= 1] summaries whose mean profiles are
    binary64 numbers on one common depth axis, [match_profiles] returns [K]
    indices in [[0, K)]: entry [i] is the first index [m] at which the
    distance computed between the mean of [avg0[i]] and the mean of
    [avg1[m]] is least, whatever the order in which [np.sum] adds. *)
Theorem match_profiles_first_nearest
    (np_sum : list binary64 -> binary64) (K L : nat)
    (avg0 avg1 : list ProfileSummary) :
  sums np_sum -> (0 < K)%nat -> length avg0 = K -> length avg1 = K ->
  real_profiles L avg0 -> real_profiles L avg1 ->
  exists inds,
    match_profiles np_sum avg0 avg1 None = Ok inds /\ length inds = K /\
    forall i a0, avg0 !! i = Some a0 ->
      exists m am,
        inds !! i = Some (Z.of_nat m) /\ avg1 !! m = Some am /\
        (forall j aj, avg1 !! j = Some aj ->
           geb (sqdist np_sum (mean a0) (mean aj))
               (sqdist np_sum (mean a0) (mean am)) = true) /\
        (forall j aj, (j < m)%nat -> avg1 !! j = Some aj ->
           geb (sqdist np_sum (mean a0) (mean am))
               (sqdist np_sum (mean a0) (mean aj)) = false).
Proof.
  intros Hsum HK Hl0 Hl1 Hr0 Hr1.
  unfold real_profiles in Hr0, Hr1. rewrite Forall_forall in Hr0, Hr1.
  unfold match_profiles. rewrite Hl0, Hl1, Nat.eqb_refl. cbn [negb].
  replace (K =? 0)%nat with false by (symmetry; apply Nat.eqb_neq; lia).
  pose (R := fun (a0 : ProfileSummary) (z : Z) =>
    exists m am, z = Z.of_nat m /\ avg1 !! m = Some am /\
      (forall j aj, avg1 !! j = Some aj ->
         geb (sqdist np_sum (mean a0) (mean aj))
             (sqdist np_sum (mean a0) (mean am)) = true) /\
      (forall j aj, (j < m)%nat -> avg1 !! j = Some aj ->
         geb (sqdist np_sum (mean a0) (mean am))
             (sqdist np_sum (mean a0) (mean aj)) = false)).
  assert (exists inds, Forall2 (fun a0 z =>
            exists row, traverse (norm_entry np_sum None a0) avg1 = Ok row /\
                        argmin row = Ok z)
            avg0 inds /\ Forall2 R avg0 inds) as (inds & Hcomp & HR).
  { assert (Forall (fun a0 => exists z,
              (exists row, traverse (norm_entry np_sum None a0) avg1 = Ok row /\
                           argmin row = Ok z) /\ R a0 z) avg0) as Hall.
    { apply Forall_forall. intros a0 Ha0. destruct (Hr0 a0 Ha0) as [HL0 HF0].
      assert (traverse (norm_entry np_sum None a0) avg1
              = Ok ((fun a1 => sqdist np_sum (mean a0) (mean a1)) <$> avg1)) as Hrow.
      { assert (Forall (fun a1 => length (mean a1) = L /\ Forall number (mean a1)) avg1)
          as Hr1' by (by apply Forall_forall).
        clear -Hr1' HL0 HF0. induction Hr1' as [|a1 avg1 [HL1 HF1] _ IH]; [done|].
        rewrite fmap_cons. cbn [traverse].
        rewrite (norm_entry_sqdist np_sum L a0 a1) by done.
        cbn [mbind result_bind]. by rewrite IH. }
      destruct (argmin_first_least ((fun a1 => sqdist np_sum (mean a0) (mean a1)) <$> avg1))
        as (m & xm & Harg & Hm & Hleast & Hfirst).
      { destruct avg1; [simpl in Hl1; lia | done]. }
      { apply Forall_fmap, Forall_forall. intros a1 Ha1. simpl.
        destruct (Hr1 a1 Ha1) as [_ HF1]. by apply sqdist_nonneg. }
      rewrite list_lookup_fmap in Hm.
      destruct (avg1 !! m) as [am|] eqn:Ham; [|done]. simpl in Hm. injection Hm as <-.
      exists (Z.of_nat m). split; [eauto|].
      exists m, am. split; [done|]. split; [done|]. split.
      - intros j aj Hj. apply (Hleast j). by rewrite list_lookup_fmap, Hj.
      - intros j aj Hjm Hj. apply (Hfirst j); [done|]. by rewrite list_lookup_fmap, Hj. }
    clear -Hall. induction Hall as [|a0 avg0 (z & H1 & H2) _ (inds & IH1 & IH2)].
    - exists []. split; constructor.
    - exists (z :: inds). split; by constructor. }
  destruct (traverse_compose _ _ _ _ Hcomp) as (norms & -> & Hnorms).
  cbn [mbind result_bind].
  exists inds. split; [done|]. split; [apply Forall2_length in HR; lia|].
  intros i a0 Hi. destruct (Forall2_lookup_l _ _ _ _ _ HR Hi) as (z & Hz & m & am & -> & H).
  exists m, am. split; [done|]. exact H.
Qed.

Lemma match_profiles_first_nearest_witness :
  exists inds,
    match_profiles sum_in_order means_513 means_135 None = Ok inds /\ length inds = 3%nat /\
    forall i a0, means_513 !! i = Some a0 ->
      exists m am,
        inds !! i = Some (Z.of_nat m) /\ means_135 !! m = Some am /\
        (forall j aj, means_135 !! j = Some aj ->
           geb (sqdist sum_in_order (mean a0) (mean aj))
               (sqdist sum_in_order (mean a0) (mean am)) = true) /\
        (forall j aj, (j < m)%nat -> means_135 !! j = Some aj ->
           geb (sqdist sum_in_order (mean a0) (mean am))
               (sqdist sum_in_order (mean a0) (mean aj)) = false).
Proof.
  apply (match_profiles_first_nearest sum_in_order 3 2 means_513 means_135).
  - apply sum_in_order_sums.
  - lia.
  - reflexivity.
  - reflexivity.
  - repeat constructor.
  - repeat constructor.
Defined.

End Binary64Nearest.

(** ** Sorting classes by a key: [temp_sort] and [pca_sort] *)

Lemma sort_lt_asym x y : sort_lt x y = true -> sort_lt y x = false.
Proof.
  destruct x as [|a], y as [|b]; simpl; try done.
  intros H. apply Qltb_lt in H. apply not_true_is_false. intros H'.
  apply Qltb_lt in H'. lra.
Qed.

Lemma sort_lt_irrefl x : sort_lt x x = false.
Proof.
  destruct x as [|a]; simpl; [done|]. apply not_true_is_false. intros H.
  apply Qltb_lt in H. lra.
Qed.

Lemma sort_le_trans x y z : sort_le x y -> sort_le y z -> sort_le x z.
Proof.
  unfold sort_le. destruct x as [|a], y as [|b], z as [|c]; simpl; try done.
  intros Hxy Hyz. apply not_true_is_false. intros H. apply Qltb_lt in H.
  destruct (Qlt_le_dec b a) as [Hba|Hab].
  - apply Qltb_lt in Hba. congruence.
  - destruct (Qlt_le_dec c b) as [Hcb|Hbc].
    + apply Qltb_lt in Hcb. congruence.
    + lra.
Qed.

Lemma insert_key_Permutation k l : insert_key k l ≡ₚ k :: l.
Proof.
  induction l as [|h t IH]; [done|]. simpl.
  destruct (sort_lt h.1 k.1); [|done].
  rewrite IH. apply Permutation_swap.
Qed.

Lemma insertion_Permutation l : foldr insert_key [] l ≡ₚ l.
Proof.
  induction l as [|k l IH]; [done|]. simpl.
  by rewrite insert_key_Permutation, IH.
Qed.

Lemma insert_key_sorted k l :
  StronglySorted (fun a b : float64 * Z => sort_le a.1 b.1) l ->
  StronglySorted (fun a b : float64 * Z => sort_le a.1 b.1) (insert_key k l).
Proof.
  induction 1 as [|h t Hsorted IH Hh]; simpl; [by repeat constructor|].
  destruct (sort_lt h.1 k.1) eqn:E.
  - constructor; [done|].
    rewrite insert_key_Permutation. constructor; [|done].
    unfold sort_le. by apply sort_lt_asym.
  - constructor; [by constructor|]. constructor; [done|].
    eapply Forall_impl; [exact Hh|]. intros y Hy. simpl in *.
    by apply (sort_le_trans k.1 h.1 y.1).
Qed.

Lemma insertion_sorted l :
  StronglySorted (fun a b : float64 * Z => sort_le a.1 b.1) (foldr insert_key [] l).
Proof.
  induction l as [|k l IH]; simpl; [constructor | by apply insert_key_sorted].
Qed.

Lemma StronglySorted_lookup_lt {A} (R : A -> A -> Prop) l r r' x x' :
  StronglySorted R l -> (r < r')%nat -> l !! r = Some x -> l !! r' = Some x' -> R x x'.
Proof.
  intros Hl. revert r r'. induction Hl as [|h t _ IH Hh]; intros r r' Hlt Hx Hx'.
  - by destruct r.
  - destruct r' as [|r']; [lia|]. simpl in Hx'. destruct r as [|r]; simpl in Hx.
    + injection Hx as <-. rewrite Forall_forall in Hh.
      apply Hh, list_elem_of_lookup. eauto.
    + apply (IH r r'); [lia | done | done].
Qed.

Lemma argsort_is_perm l : is_perm (length l) (argsort l).
Proof.
  assert (argsort l ≡ₚ arange (length l)) as Hperm.
  { unfold argsort. rewrite insertion_Permutation.
    rewrite snd_zip by (rewrite arange_length; lia). done. }
  destruct (is_perm_arange (length l)) as (Hlen & Hnd & Hrange).
  split; [by rewrite Hperm|]. split; by rewrite Hperm.
Qed.

(** The keys read along [argsort] come in sorted order. *)
Lemma argsort_sorted l r r' x x' kx kx' :
  (r < r')%nat -> argsort l !! r = Some x -> argsort l !! r' = Some x' ->
  l !! Z.to_nat x = Some kx -> l !! Z.to_nat x' = Some kx' ->
  sort_le kx kx'.
Proof.
  intros Hlt Hx Hx' Hkx Hkx'. unfold argsort in Hx, Hx'.
  rewrite list_lookup_fmap in Hx, Hx'.
  destruct (foldr insert_key [] (zip l (arange (length l))) !! r) as [[k i]|] eqn:Er;
    [|done].
  destruct (foldr insert_key [] (zip l (arange (length l))) !! r') as [[k' i']|] eqn:Er';
    [|done].
  simpl in Hx, Hx'. injection Hx as ->. injection Hx' as ->.
  assert (forall q : float64 * Z,
            q ∈ foldr insert_key [] (zip l (arange (length l))) ->
            l !! Z.to_nat q.2 = Some q.1) as Hkeys.
  { intros q Hq. rewrite insertion_Permutation in Hq.
    apply list_elem_of_lookup in Hq as [n Hn].
    apply lookup_zip_with_Some in Hn as (a & b & -> & Ha & Hb). simpl.
    assert (n < length l)%nat as Hn by (by apply lookup_lt_Some in Ha).
    rewrite arange_lookup in Hb by done. injection Hb as <-.
    by rewrite Nat2Z.id. }
  pose proof (Hkeys (k, x)) as H1. pose proof (Hkeys (k', x')) as H2.
  simpl in H1, H2.
  rewrite H1 in Hkx by (apply list_elem_of_lookup; eauto).
  rewrite H2 in Hkx' by (apply list_elem_of_lookup; eauto).
  injection Hkx as <-. injection Hkx' as <-.
  apply (StronglySorted_lookup_lt _ _ r r' (k, x) (k', x') (insertion_sorted _) Hlt Er Er').
Qed.

Lemma reorder_argsort (keys : list float64) (a : class_array) :
  keys <> [] -> ClassAssignment (length keys) a ->
  exists b,
    reorder a (argsort keys) = Ok b /\ ClassAssignment (length keys) b /\
    Forall2 (fun ra rb => length ra = length rb) a b /\
    (forall t j, at2 a t j = Some (-1) -> at2 b t j = Some (-1)) /\
    (forall t j t' j' x x' kx kx' y y',
       at2 a t j = Some x -> at2 a t' j' = Some x' -> 0 <= x -> 0 <= x' ->
       keys !! Z.to_nat x = Some kx -> keys !! Z.to_nat x' = Some kx' ->
       sort_lt kx kx' = true ->
       at2 b t j = Some y -> at2 b t' j' = Some y' -> y < y').
Proof.
  intros Hne Ha.
  assert (0 < length keys)%nat as HK by (destruct keys; [done | simpl; lia]).
  pose proof (argsort_is_perm keys) as Hp.
  destruct (reorder_spec _ _ a HK Hp Ha) as (b & Hb & Hab).
  exists b. split; [done|]. split; [by apply (relabel_ClassAssignment _ (argsort keys) a)|].
  split; [by apply (Forall2_rows_length (relabel (argsort keys)))|]. split.
  - intros t j Hx. destruct (at2_Forall2 _ _ _ _ _ _ Hab Hx) as (y & Hy & Hxy).
    destruct Hxy as [[_ ->] | (Hn & _)]; done.
  - intros t j t' j' x x' kx kx' y y' Hx Hx' H0 H0' Hkx Hkx' Hlt Hy Hy'.
    destruct (at2_Forall2 _ _ _ _ _ _ Hab Hx) as (z & Hz & Hxz).
    destruct (at2_Forall2 _ _ _ _ _ _ Hab Hx') as (z' & Hz' & Hxz').
    rewrite Hy in Hz. injection Hz as <-. rewrite Hy' in Hz'. injection Hz' as <-.
    destruct Hxz as [[-> _] | (_ & Hy0 & Hpy)]; [lia|].
    destruct Hxz' as [[-> _] | (_ & Hy0' & Hpy')]; [lia|].
    destruct (Z.lt_trichotomy y y') as [Hlt' | [-> | Hgt]]; [done | |].
    + rewrite Hpy in Hpy'. injection Hpy' as <-.
      rewrite Hkx in Hkx'. injection Hkx' as <-.
      by rewrite sort_lt_irrefl in Hlt.
    + assert (sort_le kx' kx) as Hle.
      { apply (argsort_sorted keys (Z.to_nat y') (Z.to_nat y) x' x); [lia | done..]. }
      unfold sort_le in Hle. congruence.
Qed.

Lemma column0_heads {A} (rows : list (list A)) (keys : list A) :
  head <$> rows = Some <$> keys -> column0 rows = Ok keys.
Proof.
  unfold column0. revert keys.
  induction rows as [|r rows IH]; intros [|k keys] H; try discriminate; [done|].
  simpl in H. injection H as Hr Hrest. simpl.
  rewrite (getitem_0_head _ k Hr). simpl. by rewrite (IH keys Hrest).
Qed.

(** X6.  For [K >= 1] summaries with non-empty mean profiles and an
    assignment over [K] classes, [temp_sort] with [arg] set returns a
    permutation of [[0, K)]; without it, it returns an assignment over [K]
    classes of the same shape, in which the sentinel is kept and the labels
    follow the shallowest-level means: of two classes, the one whose
    shallowest-level mean sorts strictly first (smaller, or not NaN against
    NaN) gets the smaller label. *)
Theorem temp_sort_orders_classes
    (avg : list ProfileSummary) (tops : list float64) (a : class_array) :
  avg <> [] -> shallowest <$> avg = Some <$> tops ->
  ClassAssignment (length avg) a ->
  exists inds b,
    temp_sort a avg true = Ok (inl inds) /\ is_perm (length avg) inds /\
    temp_sort a avg false = Ok (inr b) /\ ClassAssignment (length avg) b /\
    Forall2 (fun ra rb => length ra = length rb) a b /\
    (forall t j, at2 a t j = Some (-1) -> at2 b t j = Some (-1)) /\
    (forall t j t' j' x x' kx kx' y y',
       at2 a t j = Some x -> at2 a t' j' = Some x' -> 0 <= x -> 0 <= x' ->
       tops !! Z.to_nat x = Some kx -> tops !! Z.to_nat x' = Some kx' ->
       sort_lt kx kx' = true ->
       at2 b t j = Some y -> at2 b t' j' = Some y' -> y < y').
Proof.
  intros Hne Htops Ha.
  assert (length tops = length avg) as Hlen.
  { apply (f_equal length) in Htops. by rewrite !length_fmap in Htops. }
  assert (tops <> []) as Hne' by (destruct tops, avg; done).
  rewrite <- Hlen in Ha |- *.
  destruct (reorder_argsort tops a Hne' Ha) as (b & Hb & Hrest).
  exists (argsort tops), b. unfold temp_sort.
  rewrite (traverse_shallowest avg tops Htops). simpl.
  split; [done|]. split; [apply argsort_is_perm|]. rewrite Hb. simpl. by split.
Qed.

Lemma temp_sort_orders_classes_witness :
  exists inds b,
    temp_sort [[0; 1; 2; -1]] avg_513 true = Ok (inl inds) /\
    is_perm (length avg_513) inds /\
    temp_sort [[0; 1; 2; -1]] avg_513 false = Ok (inr b) /\
    ClassAssignment (length avg_513) b /\
    Forall2 (fun ra rb => length ra = length rb) [[0; 1; 2; -1]] b /\
    (forall t j, at2 [[0; 1; 2; -1]] t j = Some (-1) -> at2 b t j = Some (-1)) /\
    (forall t j t' j' x x' kx kx' y y',
       at2 [[0; 1; 2; -1]] t j = Some x -> at2 [[0; 1; 2; -1]] t' j' = Some x' ->
       0 <= x -> 0 <= x' ->
       [Fin 5; Fin 1; Fin 3] !! Z.to_nat x = Some kx ->
       [Fin 5; Fin 1; Fin 3] !! Z.to_nat x' = Some kx' ->
       sort_lt kx kx' = true ->
       at2 b t j = Some y -> at2 b t' j' = Some y' -> y < y').
Proof.
  apply (temp_sort_orders_classes avg_513 [Fin 5; Fin 1; Fin 3] [[0; 1; 2; -1]]).
  - done.
  - reflexivity.
  - unfold ClassAssignment. compute_done.
Defined.

(** X7.  [pca_sort] orders the classes by the first component of the
    mixture means: for a mixture with [K >= 1] non-empty rows of means and
    an assignment over [K] classes, it returns an assignment over [K]
    classes of the same shape, in which the sentinel is kept and the class
    whose first mean component sorts strictly first gets the smaller
    label. *)
Theorem pca_sort_orders_classes
    (gmm : FittedMixture) (keys : list float64) (a : class_array) :
  means_ gmm <> [] -> head <$> means_ gmm = Some <$> keys ->
  ClassAssignment (length (means_ gmm)) a ->
  exists b,
    pca_sort a gmm = Ok b /\ ClassAssignment (length (means_ gmm)) b /\
    Forall2 (fun ra rb => length ra = length rb) a b /\
    (forall t j, at2 a t j = Some (-1) -> at2 b t j = Some (-1)) /\
    (forall t j t' j' x x' kx kx' y y',
       at2 a t j = Some x -> at2 a t' j' = Some x' -> 0 <= x -> 0 <= x' ->
       keys !! Z.to_nat x = Some kx -> keys !! Z.to_nat x' = Some kx' ->
       sort_lt kx kx' = true ->
       at2 b t j = Some y -> at2 b t' j' = Some y' -> y < y').
Proof.
  intros Hne Hkeys Ha.
  assert (length keys = length (means_ gmm)) as Hlen.
  { apply (f_equal length) in Hkeys. by rewrite !length_fmap in Hkeys. }
  assert (keys <> []) as Hne' by (destruct keys, (means_ gmm); done).
  rewrite <- Hlen in Ha |- *.
  destruct (reorder_argsort keys a Hne' Ha) as (b & Hb & Hrest).
  exists b. unfold pca_sort. rewrite (column0_heads _ keys Hkeys). simpl.
  by split.
Qed.

Lemma pca_sort_orders_classes_witness :
  exists b,
    pca_sort [[0; 1; -1]; [1; 1; 0]]
      {| mixture := demo_gmm; means_ := [[Fin 2; Fin 0]; [Fin (-1); Fin 3]] |} = Ok b /\
    ClassAssignment 2 b /\
    Forall2 (fun ra rb => length ra = length rb) [[0; 1; -1]; [1; 1; 0]] b /\
    (forall t j, at2 [[0; 1; -1]; [1; 1; 0]] t j = Some (-1) -> at2 b t j = Some (-1)) /\
    (forall t j t' j' x x' kx kx' y y',
       at2 [[0; 1; -1]; [1; 1; 0]] t j = Some x ->
       at2 [[0; 1; -1]; [1; 1; 0]] t' j' = Some x' -> 0 <= x -> 0 <= x' ->
       [Fin 2; Fin (-1)] !! Z.to_nat x = Some kx ->
       [Fin 2; Fin (-1)] !! Z.to_nat x' = Some kx' ->
       sort_lt kx kx' = true ->
       at2 b t j = Some y -> at2 b t' j' = Some y' -> y < y').
Proof.
  apply (pca_sort_orders_classes
           {| mixture := demo_gmm; means_ := [[Fin 2; Fin 0]; [Fin (-1); Fin 3]] |}
           [Fin 2; Fin (-1)] [[0; 1; -1]; [1; 1; 0]]).
  - done.
  - reflexivity.
  - unfold ClassAssignment. compute_done.
Defined.

(** ** The wrappers and the caller's array *)

Lemma zero_fill_lookup row c x :
  row !! c = Some x -> zero_fill row !! c = Some (if isnan x then zero else x).
Proof. intros Hx. by rewrite zero_fill_fmap, list_lookup_fmap, Hx. Qed.

Lemma zero_fill_no_missing_id row : no_missing row -> zero_fill row = row.
Proof.
  intros Hrow. rewrite zero_fill_fmap.
  induction Hrow as [|x row Hx _ IH]; [done|].
  rewrite fmap_cons, IH. unfold finite in Hx. by rewrite Hx.
Qed.

Lemma putmask_all_false {A} (o : list A) (m : list bool) v :
  Forall (fun b => b = false) m -> putmask o m v = take (length m) o.
Proof.
  intros Hm. revert o. unfold putmask.
  induction Hm as [|b m -> _ IH]; intros [|x o]; simpl; try done.
  by rewrite IH.
Qed.

Lemma reduced_row_no_missing lev pca row :
  trained_reducer lev pca -> length row = lev -> no_missing row ->
  reduced_row pca row = transform pca row /\ no_missing (transform pca row).
Proof.
  intros [Hn Htr] Hlen Hrow. destruct (Htr row Hlen Hrow) as [Hlo Hfin].
  split; [|done]. unfold reduced_row.
  rewrite (zero_fill_no_missing_id row Hrow), putmask_all_false.
  - rewrite length_take, length_fmap. apply take_ge. lia.
  - apply Forall_take, Forall_fmap. eapply Forall_impl; [exact Hrow|]. done.
Qed.

Lemma zero_filled_last_axis w (data : array3) :
  last_axis w data -> last_axis w (fmap (M:=list) zero_fill <$> data).
Proof.
  unfold last_axis. intros H. apply Forall_fmap.
  eapply Forall_impl; [exact H|]. intros s Hs. simpl. apply Forall_fmap.
  eapply Forall_impl; [exact Hs|]. intros row Hrow. simpl.
  by rewrite zero_fill_length.
Qed.

Lemma has_profile_filled m (data : array3) :
  has_profile data -> has_profile (filled m data).
Proof.
  destruct m; [|done]. unfold has_profile, filled. intros Hne Hnil. apply Hne.
  clear Hne. induction data as [|s data IH]; [done|].
  rewrite fmap_cons in Hnil. simpl in Hnil. apply app_eq_nil in Hnil as [Hs Hrest].
  apply fmap_nil_inv in Hs as ->. simpl. by apply IH.
Qed.

Lemma filled_twice m (data : array3) : filled m (filled m data) = filled m data.
Proof.
  destruct m; [|done]. unfold filled. rewrite <- list_fmap_compose.
  apply list_fmap_ext. intros i s _. simpl. rewrite <- list_fmap_compose.
  apply list_fmap_ext. intros k row _. simpl.
  apply zero_fill_no_missing_id, zero_fill_no_missing.
Qed.

(** X8.  What [pca_transform] does to an in-memory array holding at least
    one profile depends on [np.reshape].  Behind a copy the caller's array
    is left as it is.  Through a view it changes at its missing entries
    only: each profile keeps its length, a missing entry reads 0 after the
    call and every other entry is what it was.  In both cases a profile
    without missing values is left as it is and its reduced vector is the
    plain projection of the model. *)
Theorem pca_transform_changes_missing_entries_only
    (m : reshaped) (lev : nat) (pca : ReducerModel) (data : array3) :
  trained_reducer lev pca -> last_axis lev data -> has_profile data ->
  exists data' reduced,
    pca_transform m lev data pca = Ok (data', reduced) /\
    (m = Copy -> data' = data) /\
    (m = View -> forall t j row, at2 data t j = Some row ->
       exists row',
         at2 data' t j = Some row' /\ length row' = length row /\
         forall c x, row !! c = Some x ->
           row' !! c = Some (if isnan x then zero else x)) /\
    (forall t j row, at2 data t j = Some row -> no_missing row ->
       at2 data' t j = Some row /\ at2 reduced t j = Some (transform pca row)).
Proof.
  intros Htr Hshape Hne. eexists _, _. split; [by apply pca_transform_rows|].
  split; [by intros ->|]. split.
  - intros -> t j row Hrow. exists (zero_fill row). simpl.
    split; [by rewrite at2_fmap, Hrow|]. split; [apply zero_fill_length|].
    intros c x. apply zero_fill_lookup.
  - intros t j row Hrow Hfin. split.
    + destruct m; simpl; [|done].
      rewrite at2_fmap, Hrow. simpl. by rewrite (zero_fill_no_missing_id row Hfin).
    + rewrite at2_fmap, Hrow. simpl. f_equal.
      apply (reduced_row_no_missing lev); [done | | done].
      by apply (at2_Forall (fun r => length r = lev) data t j).
Qed.

Lemma pca_transform_changes_missing_entries_only_witness :
  exists data' reduced,
    pca_transform View 3 demo_data demo_pca = Ok (data', reduced) /\
    (View = Copy -> data' = demo_data) /\
    (View = View -> forall t j row, at2 demo_data t j = Some row ->
       exists row',
         at2 data' t j = Some row' /\ length row' = length row /\
         forall c x, row !! c = Some x ->
           row' !! c = Some (if isnan x then zero else x)) /\
    (forall t j row, at2 demo_data t j = Some row -> no_missing row ->
       at2 data' t j = Some row /\ at2 reduced t j = Some (transform demo_pca row)).
Proof.
  apply (pca_transform_changes_missing_entries_only View 3 demo_pca demo_data).
  - apply demo_pca_trained.
  - repeat constructor.
  - discriminate.
Defined.

(** X9.  Through a view the missing-data mask does not survive a call:
    when [pca_transform] is applied a second time to the same in-memory
    array, it leaves the array as the first call left it and returns
    reduced vectors without any missing entry, also for the profiles that
    were missing before the first call.  Behind a copy the second call
    returns what the first returned. *)
Theorem pca_transform_twice_loses_mask
    (m : reshaped) (lev : nat) (pca : ReducerModel) (data : array3) :
  trained_reducer lev pca -> last_axis lev data -> has_profile data ->
  exists data' reduced reduced2,
    pca_transform m lev data pca = Ok (data', reduced) /\
    pca_transform m lev data' pca = Ok (data', reduced2) /\
    (m = View -> Forall (Forall no_missing) reduced2) /\
    (m = Copy -> reduced2 = reduced).
Proof.
  intros Htr Hshape Hne. eexists _, _, _.
  split; [by apply pca_transform_rows|].
  assert (last_axis lev (filled m data)) as Hshape'
    by (destruct m; [by apply zero_filled_last_axis | done]).
  rewrite (pca_transform_rows m lev) by (done || by apply has_profile_filled).
  rewrite filled_twice. split; [done|]. split; [|by intros ->].
  intros ->. simpl. rewrite <- list_fmap_compose. apply Forall_fmap.
  unfold last_axis in Hshape.
  eapply Forall_impl; [exact Hshape|]. intros s Hs. simpl.
  rewrite <- list_fmap_compose. apply Forall_fmap.
  eapply Forall_impl; [exact Hs|]. intros row Hrow. simpl.
  destruct (reduced_row_no_missing lev pca (zero_fill row)) as [-> Hfin];
    [done | by rewrite zero_fill_length | apply zero_fill_no_missing | done].
Qed.

Lemma pca_transform_twice_loses_mask_witness :
  exists data' reduced reduced2,
    pca_transform View 3 demo_data demo_pca = Ok (data', reduced) /\
    pca_transform View 3 data' demo_pca = Ok (data', reduced2) /\
    (View = View -> Forall (Forall no_missing) reduced2) /\
    (View = Copy -> reduced2 = reduced).
Proof.
  apply (pca_transform_twice_loses_mask View 3 demo_pca demo_data).
  - apply demo_pca_trained.
  - repeat constructor.
  - discriminate.
Defined.

Lemma class_of_range ncomp K gmm row :
  trained_classifier ncomp K gmm -> length row = ncomp ->
  class_of gmm row = -1 \/ 0 <= class_of gmm row < Z.of_nat K.
Proof.
  intros (_ & _ & Htr) Hlen. unfold class_of.
  destruct (first_missing row); [by left | right].
  apply Htr; [by rewrite zero_fill_length | apply zero_fill_no_missing].
Qed.

(** X10.  The labels returned by [gmm_classify] for a [K]-component
    classifier on an array holding at least one vector form a class
    assignment over [K] classes with the leading shape of the input, so
    that [reorder] with any permutation of [[0, K)] accepts them and
    returns a class assignment over [K] classes. *)
Theorem gmm_classify_then_reorder
    (m : reshaped) (ncomp K : nat) (gmm : ClassifierModel) (data : array3) :
  (0 < ncomp)%nat -> trained_classifier ncomp K gmm -> last_axis ncomp data ->
  has_profile data ->
  exists data' labels,
    gmm_classify m ncomp data gmm = Ok (data', labels) /\
    ClassAssignment K labels /\
    Forall2 (fun s l => length s = length l) data labels /\
    forall p, is_perm K p ->
      exists b, reorder labels p = Ok b /\ ClassAssignment K b.
Proof.
  intros Hw Hgmm Hshape Hne. eexists _, _.
  split; [by apply gmm_classify_rows|].
  assert (ClassAssignment K (fmap (M:=list) (class_of gmm) <$> data)) as Hca.
  { unfold ClassAssignment. apply Forall_fmap. unfold last_axis in Hshape.
    eapply Forall_impl; [exact Hshape|]. intros s Hs. simpl. apply Forall_fmap.
    eapply Forall_impl; [exact Hs|]. intros row Hrow. simpl.
    by apply (class_of_range ncomp). }
  split; [done|]. split.
  - clear. induction data as [|s data IH]; [constructor|].
    rewrite fmap_cons. constructor; [by rewrite length_fmap | done].
  - intros p Hp. pose proof Hgmm as (_ & HK & _).
    destruct (reorder_spec K p _ HK Hp Hca) as (b & Hb & Hab).
    exists b. split; [done|]. by apply (relabel_ClassAssignment K p _ b Hp Hab).
Qed.

Lemma gmm_classify_then_reorder_witness :
  exists data' labels,
    gmm_classify View 2 [[[Fin 1; NaN]; [NaN; Fin 1]; [Fin (-2); Fin 0]]] demo_gmm
      = Ok (data', labels) /\
    ClassAssignment 2 labels /\
    Forall2 (fun s l => length s = length l)
      [[[Fin 1; NaN]; [NaN; Fin 1]; [Fin (-2); Fin 0]]] labels /\
    forall p, is_perm 2 p ->
      exists b, reorder labels p = Ok b /\ ClassAssignment 2 b.
Proof.
  apply (gmm_classify_then_reorder View 2 2 demo_gmm).
  - lia.
  - apply demo_gmm_trained.
  - repeat constructor.
  - discriminate.
Defined.

(** X11.  After a classifier wrapper has run through a view on an
    in-memory array, the next one sees no missing row: [gmm_classify]
    applied to the array that a first [gmm_classify] has left returns no
    sentinel at all, every label lies in [[0, K)].  Behind a copy the
    second call returns the labels of the first. *)
Theorem gmm_classify_twice_no_sentinel
    (m : reshaped) (ncomp K : nat) (gmm : ClassifierModel) (data : array3) :
  (0 < ncomp)%nat -> trained_classifier ncomp K gmm -> last_axis ncomp data ->
  has_profile data ->
  exists data' labels labels2,
    gmm_classify m ncomp data gmm = Ok (data', labels) /\
    gmm_classify m ncomp data' gmm = Ok (data', labels2) /\
    (m = View -> Forall (Forall (fun l => 0 <= l < Z.of_nat K)) labels2) /\
    (m = Copy -> labels2 = labels).
Proof.
  intros Hw Hgmm Hshape Hne. eexists _, _, _.
  split; [by apply gmm_classify_rows|].
  assert (last_axis ncomp (filled m data)) as Hshape'
    by (destruct m; [by apply zero_filled_last_axis | done]).
  rewrite (gmm_classify_rows m ncomp) by (done || by apply has_profile_filled).
  rewrite filled_twice. split; [done|]. split; [|by intros ->].
  intros ->. simpl. rewrite <- list_fmap_compose. apply Forall_fmap.
  unfold last_axis in Hshape.
  eapply Forall_impl; [exact Hshape|]. intros s Hs. simpl.
  rewrite <- list_fmap_compose. apply Forall_fmap.
  eapply Forall_impl; [exact Hs|]. intros row Hrow. simpl.
  destruct Hgmm as (_ & _ & Htr). unfold class_of.
  assert (first_missing (zero_fill row) = false) as ->.
  { pose proof (zero_fill_no_missing row) as Hf.
    destruct (zero_fill row) as [|x r]; [done|]. simpl.
    by apply Forall_cons in Hf as [Hx _]. }
  rewrite (zero_fill_no_missing_id (zero_fill row)) by apply zero_fill_no_missing.
  apply Htr; [by rewrite zero_fill_length | apply zero_fill_no_missing].
Qed.

Lemma gmm_classify_twice_no_sentinel_witness :
  exists data' labels labels2,
    gmm_classify View 2 [[[Fin 1; NaN]; [NaN; Fin 1]]] demo_gmm = Ok (data', labels) /\
    gmm_classify View 2 data' demo_gmm = Ok (data', labels2) /\
    (View = View -> Forall (Forall (fun l => 0 <= l < Z.of_nat 2)) labels2) /\
    (View = Copy -> labels2 = labels).
Proof.
  apply (gmm_classify_twice_no_sentinel View 2 2 demo_gmm).
  - lia.
  - apply demo_gmm_trained.
  - repeat constructor.
  - discriminate.
Defined.

(** ** The sampler on too few locations *)

(** X12.  When a time slice holds fewer locations than the [N] profiles
    asked for, [random_sample] raises [ValueError], whatever the generator
    and its state: stated here for an array with at least one time slice
    and [n < N] locations. *)
Theorem random_sample_too_few_locations
    (rng_state : Type) (draw : rng_state -> nat -> nat -> list nat * rng_state)
    (s : rng_state) (data : array3) (N T n L : nat) :
  shape3 T n L data -> (0 < T)%nat -> (n < N)%nat ->
  random_sample rng_state draw s data N = Raise ValueError.
Proof.
  intros (HT & Hn & _) HT0 HnN. destruct data as [|arr data]; [simpl in HT; lia|].
  apply Forall_cons in Hn as [Harr _].
  unfold random_sample. simpl. unfold rng_choice. rewrite Harr.
  replace (n <? N)%nat with true by (symmetry; apply Nat.ltb_lt; lia). done.
Qed.

Lemma random_sample_too_few_locations_witness :
  random_sample unit draw_first tt demo_data 5 = Raise ValueError.
Proof.
  apply (random_sample_too_few_locations unit draw_first tt demo_data 5 2 4 3).
  - repeat split; repeat constructor.
  - lia.
  - lia.
Defined.

(** ** The shared default of [options] *)

(** X13.  Calls of [generate_trainingset] that omit [options] are not
    independent.  A call for a period ending after ['2014-12'] stores
    ['ssp370'] under ['experimentId'] in the shared default dictionary; a
    later call that omits [options] for a period ending by ['2014-12'] then
    makes its single retrieval with experiment ['ssp370'], not
    ['historical']. *)
Theorem generate_trainingset_default_options_persist
    (Data : Type) (fetch : gmap string pyval -> TimeRange -> Data)
    (concat_time : Data -> Data -> Data)
    (Out : Type) (fit_and_transform : Data -> nat -> nat -> Out)
    (r1 r2 : TimeRange) (nc1 N1 nc2 N2 : nat) :
  String.ltb "2014-12" (range_stop r1) = true ->
  String.ltb "2014-12" (range_stop r2) = false ->
  exists out1 D1,
    generate_trainingset Data fetch concat_time Out fit_and_transform
      r1 None nc1 N1 ∅ = (out1, D1, D1) /\
    D1 = {[ "experimentId"%string := PStr "ssp370" ]} /\
    generate_trainingset Data fetch concat_time Out fit_and_transform
      r2 None nc2 N2 D1
    = (fit_and_transform
         (fetch (<["experimentId"%string := PStr "ssp370"]> options_default) r2) nc2 N2,
       D1, D1) /\
    generate_trainingset Data fetch concat_time Out fit_and_transform
      r2 None nc2 N2 ∅
    = (fit_and_transform (fetch options_default r2) nc2 N2, ∅, ∅).
Proof.
  intros H1 H2. unfold generate_trainingset, retrieve_profiles. rewrite H1, H2.
  eexists _, _. split; [reflexivity|]. split; [by rewrite insert_empty|].
  split.
  - rewrite <- insert_union_l, (left_id_L ∅ (∪)). done.
  - by rewrite (left_id_L ∅ (∪)).
Qed.

Lemma generate_trainingset_default_options_persist_witness :
  exists out1 D1,
    generate_trainingset _ fetch_log app _ (fun d _ _ => d)
      {| range_start := "1965-01"; range_stop := "2100-12" |} None 3 70 ∅
    = (out1, D1, D1) /\
    D1 = {[ "experimentId"%string := PStr "ssp370" ]} /\
    generate_trainingset _ fetch_log app _ (fun d _ _ => d)
      {| range_start := "1965-01"; range_stop := "1994-12" |} None 3 70 D1
    = (fetch_log (<["experimentId"%string := PStr "ssp370"]> options_default)
         {| range_start := "1965-01"; range_stop := "1994-12" |}, D1, D1) /\
    generate_trainingset _ fetch_log app _ (fun d _ _ => d)
      {| range_start := "1965-01"; range_stop := "1994-12" |} None 3 70 ∅
    = (fetch_log options_default
         {| range_start := "1965-01"; range_stop := "1994-12" |}, ∅, ∅).
Proof.
  apply (generate_trainingset_default_options_persist _ fetch_log app _
           (fun d _ _ => d)
           {| range_start := "1965-01"; range_stop := "2100-12" |}
           {| range_start := "1965-01"; range_stop := "1994-12" |} 3 70 3 70).
  - reflexivity.
  - reflexivity.
Defined.

(** X14.  For a period ending after ['2014-12'], [generate_trainingset]
    writes ['ssp370'] under ['experimentId'] into the dictionary that the
    caller passes as [options], and leaves the shared default as it is.  The
    first retrieval is made with the caller's options completed by the
    defaults, the second with the same options except for the experiment,
    which is ['ssp370'] whatever the caller asked for. *)
Theorem generate_trainingset_overwrites_experiment
    (Data : Type) (fetch : gmap string pyval -> TimeRange -> Data)
    (concat_time : Data -> Data -> Data)
    (Out : Type) (fit_and_transform : Data -> nat -> nat -> Out)
    (r : TimeRange) (o default : gmap string pyval) (nc N : nat) :
  String.ltb "2014-12" (range_stop r) = true ->
  generate_trainingset Data fetch concat_time Out fit_and_transform
    r (Some o) nc N default
  = (fit_and_transform
       (concat_time
          (fetch (o ∪ options_default) r)
          (fetch (<["experimentId"%string := PStr "ssp370"]> (o ∪ options_default)) r))
       nc N,
     <["experimentId"%string := PStr "ssp370"]> o, default) /\
  forall k, k <> "experimentId"%string ->
    (<["experimentId"%string := PStr "ssp370"]> (o ∪ options_default)) !! k
    = (o ∪ options_default) !! k.
Proof.
  intros H. unfold generate_trainingset, retrieve_profiles. rewrite H. split.
  - by rewrite insert_union_l.
  - intros k Hk. by rewrite lookup_insert_ne.
Qed.

Lemma generate_trainingset_overwrites_experiment_witness :
  generate_trainingset _ fetch_log app _ (fun d _ _ => d)
    {| range_start := "2000-01"; range_stop := "2050-12" |}
    (Some {[ "experimentId"%string := PStr "ssp126" ]}) 3 70 ∅
  = (fetch_log ({[ "experimentId"%string := PStr "ssp126" ]} ∪ options_default)
       {| range_start := "2000-01"; range_stop := "2050-12" |} ++
     fetch_log (<["experimentId"%string := PStr "ssp370"]>
                  ({[ "experimentId"%string := PStr "ssp126" ]} ∪ options_default))
       {| range_start := "2000-01"; range_stop := "2050-12" |},
     <["experimentId"%string := PStr "ssp370"]>
       {[ "experimentId"%string := PStr "ssp126" ]}, ∅) /\
  forall k, k <> "experimentId"%string ->
    (<["experimentId"%string := PStr "ssp370"]>
       ({[ "experimentId"%string := PStr "ssp126" ]} ∪ options_default)) !! k
    = ({[ "experimentId"%string := PStr "ssp126" ]} ∪ options_default) !! k.
Proof.
  apply (generate_trainingset_overwrites_experiment _ fetch_log app _
           (fun d _ _ => d)
           {| range_start := "2000-01"; range_stop := "2050-12" |}
           {[ "experimentId"%string := PStr "ssp126" ]} ∅ 3 70).
  reflexivity.
Defined.

(** ** [avg_profiles] *)

Lemma argmin_from_range l : forall mp mi i,
  0 <= mi < i ->
  0 <= argmin_from mp mi i l < i + Z.of_nat (length l).
Proof.
  induction l as [|x l IH]; intros mp mi i Hmi; simpl; [lia|].
  destruct (isnan mp); [lia|].
  destruct (negb (fgeb x mp)).
  - specialize (IH x i (i + 1)). lia.
  - specialize (IH mp mi (i + 1)). lia.
Qed.

Lemma argmin_range row :
  row <> [] -> exists z, argmin row = Ok z /\ 0 <= z < Z.of_nat (length row).
Proof.
  intros Hne. destruct row as [|x row]; [done|]. simpl. eexists. split; [done|].
  pose proof (argmin_from_range row x 0 1). lia.
Qed.

(** [match_profiles] goes through whenever the mean profiles have one
    common length, whether they hold NaN or not. *)
Lemma match_profiles_total (K L : nat) (avg0 avg1 : list ProfileSummary) :
  (0 < K)%nat -> length avg0 = K -> length avg1 = K ->
  Forall (fun a => length (mean a) = L) avg0 ->
  Forall (fun a => length (mean a) = L) avg1 ->
  exists inds,
    match_profiles avg0 avg1 None = Ok inds /\ length inds = K /\
    Forall (fun z => 0 <= z < Z.of_nat K) inds.
Proof.
  intros HK Hl0 Hl1 H0 H1. unfold match_profiles.
  rewrite Hl0, Hl1, Nat.eqb_refl. simpl.
  replace (K =? 0)%nat with false by (symmetry; apply Nat.eqb_neq; lia).
  assert (Forall (fun a0 => exists z,
            (exists row, traverse (norm_entry None a0) avg1 = Ok row /\
                         argmin row = Ok z) /\ 0 <= z < Z.of_nat K) avg0) as Hall.
  { eapply Forall_impl; [exact H0|]. intros a0 Ha0. simpl in Ha0.
    destruct (traverse_Forall2 (norm_entry None a0) (fun _ _ => True) avg1)
      as (row & Hrow & Hlen).
    { eapply Forall_impl; [exact H1|]. intros a1 Ha1. simpl in Ha1.
      unfold norm_entry, broadcast2. rewrite Ha0, Ha1, Nat.eqb_refl. simpl. eauto. }
    apply Forall2_length in Hlen.
    destruct (argmin_range row) as (z & Hz & Hrange).
    { destruct row; [simpl in Hlen; lia | done]. }
    exists z. split; [eauto | lia]. }
  assert (exists inds, Forall2 (fun a0 z =>
            exists row, traverse (norm_entry None a0) avg1 = Ok row /\ argmin row = Ok z)
            avg0 inds /\ Forall (fun z => 0 <= z < Z.of_nat K) inds)
    as (inds & Hcomp & Hrange).
  { clear -Hall. induction Hall as [|a0 avg0 (z & Hz & Hr) _ (inds & IH1 & IH2)].
    - exists []. split; constructor.
    - exists (z :: inds). split; by constructor. }
  destruct (traverse_compose _ _ _ _ Hcomp) as (norms & -> & Hnorms). simpl.
  exists inds. split; [done|]. split; [apply Forall2_length in Hcomp; lia | done].
Qed.

Lemma avg_profiles_shape np_sqrt lev data classes K :
  length (avg_profiles np_sqrt lev data classes K) = K /\
  Forall (fun a => length (mean a) = lev /\ length (std a) = lev)
    (avg_profiles np_sqrt lev data classes K).
Proof.
  unfold avg_profiles. split; [by rewrite length_fmap, arange_length|].
  apply Forall_fmap, Forall_forall. intros i _. simpl.
  by rewrite !length_fmap, length_seq.
Qed.

(** X15.  The summaries of two classifications with the same number
    [K >= 1] of classes and the same depth axis can always be matched:
    [avg_profiles] returns [K] summaries whose mean and standard-deviation
    profiles have one entry per depth level, and [match_profiles] applied to
    two such lists returns [K] indices in [[0, K)], also when classes
    without member give NaN profiles. *)
Theorem avg_profiles_then_match_profiles
    (np_sqrt : float64 -> float64) (lev K : nat)
    (data0 data1 : array3) (classes0 classes1 : class_array) :
  (0 < K)%nat ->
  length (avg_profiles np_sqrt lev data0 classes0 K) = K /\
  Forall (fun a => length (mean a) = lev /\ length (std a) = lev)
    (avg_profiles np_sqrt lev data0 classes0 K) /\
  exists inds,
    match_profiles (avg_profiles np_sqrt lev data0 classes0 K)
                   (avg_profiles np_sqrt lev data1 classes1 K) None = Ok inds /\
    length inds = K /\ Forall (fun z => 0 <= z < Z.of_nat K) inds.
Proof.
  intros HK.
  destruct (avg_profiles_shape np_sqrt lev data0 classes0 K) as [Hl0 Hs0].
  destruct (avg_profiles_shape np_sqrt lev data1 classes1 K) as [Hl1 Hs1].
  split; [done|]. split; [done|].
  apply (match_profiles_total K lev); [done | done | done | |].
  - eapply Forall_impl; [exact Hs0|]. by intros a [H _].
  - eapply Forall_impl; [exact Hs1|]. by intros a [H _].
Qed.

Lemma avg_profiles_then_match_profiles_witness :
  length (avg_profiles (fun x => x) 3 demo_data [[0; 1; -1; 1]; [0; 0; -1; 1]] 2) = 2%nat /\
  Forall (fun a => length (mean a) = 3%nat /\ length (std a) = 3%nat)
    (avg_profiles (fun x => x) 3 demo_data [[0; 1; -1; 1]; [0; 0; -1; 1]] 2) /\
  exists inds,
    match_profiles
      (avg_profiles (fun x => x) 3 demo_data [[0; 1; -1; 1]; [0; 0; -1; 1]] 2)
      (avg_profiles (fun x => x) 3 demo_data [[1; 0; -1; 0]; [1; 1; -1; 0]] 2) None
    = Ok inds /\
    length inds = 2%nat /\ Forall (fun z => 0 <= z < Z.of_nat 2) inds.
Proof.
  apply (avg_profiles_then_match_profiles (fun x => x) 3 2 demo_data demo_data
           [[0; 1; -1; 1]; [0; 0; -1; 1]] [[1; 0; -1; 0]; [1; 1; -1; 0]]).
  lia.
Defined.

Lemma fmap_const_seq {A} (x : A) n : (fun _ : nat => x) <$> seq 0 n = replicate n x.
Proof.
  generalize 0%nat. induction n as [|n IH]; intros k; [done|].
  simpl. by rewrite IH.
Qed.

Lemma level_all_missing l (d : list (list float64)) :
  Forall fully_missing d -> filter finite (level l d) = [].
Proof.
  unfold level. induction 1 as [|row d Hrow _ IH]; [done|]. simpl.
  destruct (row !! l) as [x|] eqn:Hx; [|done]. simpl.
  unfold fully_missing in Hrow. rewrite Forall_forall in Hrow.
  assert (isnan x = true) as Hnan by (apply Hrow, list_elem_of_lookup; eauto).
  rewrite filter_cons_False; [done|]. unfold finite. congruence.
Qed.

Lemma missing_row_fully_missing (row : list float64) :
  fully_missing ((fun _ => NaN) <$> row).
Proof. apply Forall_fmap, Forall_forall. done. Qed.

Lemma where_class_absent rows labels i :
  i ∉ labels -> Forall fully_missing (where_class rows labels i).
Proof.
  unfold where_class. revert labels.
  induction rows as [|row rows IH]; intros [|l labels] Hi; simpl; try constructor.
  - apply not_elem_of_cons in Hi as [Hne _].
    replace (l =? i) with false by (symmetry; apply Z.eqb_neq; done).
    apply missing_row_fully_missing.
  - apply IH. by apply not_elem_of_cons in Hi as [_ Hi].
Qed.

Lemma avg_profiles_absent_class
    (np_sqrt : float64 -> float64) (lev K : nat)
    (data : array3) (classes : class_array) (i : nat) :
  (i < K)%nat -> Z.of_nat i ∉ concat classes ->
  avg_profiles np_sqrt lev data classes K !! i
  = Some {| mean := replicate lev NaN; std := replicate lev NaN |}.
Proof.
  intros Hi Habs. unfold avg_profiles.
  rewrite list_lookup_fmap, arange_lookup by done. simpl. do 2 f_equal.
  - rewrite <- fmap_const_seq. apply list_fmap_ext. intros k l _. simpl.
    unfold nanmean. by rewrite level_all_missing by (by apply where_class_absent).
  - rewrite <- fmap_const_seq. apply list_fmap_ext. intros k l _. simpl.
    unfold nanstd1. by rewrite level_all_missing by (by apply where_class_absent).
Qed.

(** X16.  A class to which no location is assigned gets a summary whose
    mean and standard-deviation profiles are NaN at every depth level. *)
Theorem avg_profiles_empty_class
    (np_sqrt : float64 -> float64) (lev K : nat)
    (data : array3) (classes : class_array) (i : nat) :
  (i < K)%nat -> Z.of_nat i ∉ concat classes ->
  avg_profiles np_sqrt lev data classes K !! i
  = Some {| mean := replicate lev NaN; std := replicate lev NaN |}.
Proof. apply avg_profiles_absent_class. Qed.

Lemma avg_profiles_empty_class_witness :
  avg_profiles (fun x => x) 3 demo_data [[0; 0; -1; 0]; [0; 0; -1; 0]] 2 !! 1%nat
  = Some {| mean := replicate 3 NaN; std := replicate 3 NaN |}.
Proof.
  apply (avg_profiles_empty_class (fun x => x) 3 2 demo_data
           [[0; 0; -1; 0]; [0; 0; -1; 0]] 1).
  - lia.
  - compute_done.
Defined.

Lemma where_class_member r1 r2 l1 l2 (p : list float64) (i : Z) :
  length r1 = length l1 ->
  where_class (r1 ++ p :: r2) (l1 ++ i :: l2) i
  = where_class r1 l1 i ++ p :: where_class r2 l2 i.
Proof.
  intros Hlen. unfold where_class. rewrite zip_with_app by done.
  simpl. by rewrite Z.eqb_refl.
Qed.

Lemma level_single_member l A B (p : list float64) q :
  Forall fully_missing A -> Forall fully_missing B -> p !! l = Some (Fin q) ->
  filter finite (level l (A ++ p :: B)) = [Fin q].
Proof.
  intros HA HB Hp.
  pose proof (level_all_missing l A HA) as EA. pose proof (level_all_missing l B HB) as EB.
  unfold level in *. rewrite omap_app, filter_app, EA.
  assert (omap (fun row : list float64 => row !! l) (p :: B)
          = Fin q :: omap (fun row : list float64 => row !! l) B) as ->
    by (simpl; by rewrite Hp).
  rewrite filter_cons_True by done. by rewrite EB.
Qed.

(** X17.  A class with exactly one member gets that member's profile as
    mean profile and a standard-deviation profile that is NaN at every depth
    level: with [ddof=1], one value leaves no degree of freedom. *)
Theorem avg_profiles_single_member
    (np_sqrt : float64 -> float64) (lev K : nat)
    (data : array3) (classes : class_array) (i : nat)
    (r1 r2 : list (list float64)) (l1 l2 : list Z) (p : list float64) :
  (i < K)%nat ->
  concat data = r1 ++ p :: r2 -> concat classes = l1 ++ Z.of_nat i :: l2 ->
  length r1 = length l1 -> Z.of_nat i ∉ l1 -> Z.of_nat i ∉ l2 ->
  length p = lev -> no_missing p ->
  exists s,
    avg_profiles np_sqrt lev data classes K !! i = Some s /\
    std s = replicate lev NaN /\ Forall2 same_value (mean s) p.
Proof.
  intros Hi Hrows Hlabels Hlen H1 H2 Hp Hfin. unfold avg_profiles.
  rewrite list_lookup_fmap, arange_lookup by done. simpl.
  rewrite Hrows, Hlabels, where_class_member by done.
  pose proof (where_class_absent r1 l1 _ H1) as HA.
  pose proof (where_class_absent r2 l2 _ H2) as HB.
  eexists. split; [reflexivity|]. simpl. split.
  - rewrite <- fmap_const_seq. apply list_fmap_ext. intros k l Hl. simpl.
    apply lookup_seq in Hl as [-> Hl]. simpl.
    destruct (lookup_lt_is_Some_2 p k) as [x Hx]; [lia|].
    assert (finite x) as Hfx.
    { unfold no_missing in Hfin. rewrite Forall_forall in Hfin.
      apply Hfin, list_elem_of_lookup. eauto. }
    destruct x as [|q]; [discriminate|].
    unfold nanstd1. by rewrite (level_single_member k _ _ p q).
  - apply Forall2_same_length_lookup_2; [by rewrite length_fmap, length_seq|].
    intros k m x Hm Hx. rewrite list_lookup_fmap in Hm.
    destruct (seq 0 lev !! k) as [l|] eqn:Hl; [|done]. simpl in Hm.
    apply lookup_seq in Hl as [-> Hl]. simpl in Hm. injection Hm as <-.
    assert (finite x) as Hfx.
    { unfold no_missing in Hfin. rewrite Forall_forall in Hfin.
      apply Hfin, list_elem_of_lookup. eauto. }
    destruct x as [|q]; [discriminate|].
    unfold nanmean. rewrite (level_single_member k _ _ p q) by done.
    simpl. unfold Qeq. simpl. lia.
Qed.

Lemma avg_profiles_single_member_witness :
  exists s,
    avg_profiles (fun x => x) 3 demo_data [[0; 1; -1; 0]; [0; 0; -1; 0]] 2 !! 1%nat
    = Some s /\
    std s = replicate 3 NaN /\ Forall2 same_value (mean s) [Fin 2; Fin 0; Fin 1].
Proof.
  apply (avg_profiles_single_member (fun x => x) 3 2 demo_data
           [[0; 1; -1; 0]; [0; 0; -1; 0]] 1
           [[Fin 1; Fin 2; Fin 3]]
           [[NaN; NaN; NaN]; [Fin 0; Fin 1; Fin 5]; [Fin 3; Fin 1; Fin 1];
            [Fin 1; Fin 1; Fin 4]; [NaN; NaN; NaN]; [Fin 2; Fin 2; Fin 2]]
           [0] [-1; 0; 0; 0; -1; 0] [Fin 2; Fin 0; Fin 1]).
  - lia.
  - reflexivity.
  - reflexivity.
  - reflexivity.
  - compute_done.
  - compute_done.
  - reflexivity.
  - repeat constructor.
Defined.

(** ** [match_spatial] *)

Lemma argmax_from_spec l : forall q mi i,
  Forall finite l ->
  (argmax_from (Fin q) mi i l = mi /\
   forall j q', l !! j = Some (Fin q') -> (q' <= q)%Q) \/
  (exists k qk,
     argmax_from (Fin q) mi i l = i + Z.of_nat k /\ l !! k = Some (Fin qk) /\
     (q < qk)%Q /\
     (forall j q', l !! j = Some (Fin q') -> (q' <= qk)%Q) /\
     (forall j q', (j < k)%nat -> l !! j = Some (Fin q') -> (q' < qk)%Q)).
Proof.
  induction l as [|x l IH]; intros q mi i Hfin.
  - left. split; [done|]. intros j q' H. by destruct j.
  - apply Forall_cons in Hfin as [Hx Hfin]. destruct x as [|q0]; [discriminate|].
    simpl. destruct (Qle_bool q0 q) eqn:E; simpl.
    + apply Qle_bool_iff in E.
      destruct (IH q mi (i + 1) Hfin) as [[Hr Hall] | (k & qk & Hr & Hk & Hlt & Hall & Hbefore)].
      * left. split; [done|]. intros [|j] q' Hj; simpl in Hj; [congruence | eauto].
      * right. exists (S k), qk. split; [lia|]. split; [done|]. split; [done|]. split.
        -- intros [|j] q' Hj; simpl in Hj; [|eauto].
           injection Hj as <-. lra.
        -- intros [|j] q' Hjk Hj; simpl in Hj.
           ++ injection Hj as <-. lra.
           ++ apply (Hbefore j); [lia | done].
    + apply Qle_bool_false in E. right.
      destruct (IH q0 i (i + 1) Hfin) as [[Hr Hall] | (k & qk & Hr & Hk & Hlt & Hall & Hbefore)].
      * exists 0%nat, q0. split; [lia|]. split; [done|]. split; [done|]. split.
        -- intros [|j] q' Hj; simpl in Hj; [|eauto].
           injection Hj as <-. lra.
        -- intros j q' Hj. lia.
      * exists (S k), qk. split; [lia|]. split; [done|]. split; [lra|]. split.
        -- intros [|j] q' Hj; simpl in Hj; [|eauto].
           injection Hj as <-. lra.
        -- intros [|j] q' Hjk Hj; simpl in Hj.
           ++ injection Hj as <-. lra.
           ++ apply (Hbefore j); [lia | done].
Qed.

(** On a non-empty row without NaN, [argmax] returns the first index of a
    greatest entry. *)
Lemma argmax_first_greatest row :
  row <> [] -> Forall finite row ->
  exists m qm,
    argmax row = Ok (Z.of_nat m) /\ row !! m = Some (Fin qm) /\
    (forall j q, row !! j = Some (Fin q) -> (q <= qm)%Q) /\
    (forall j q, (j < m)%nat -> row !! j = Some (Fin q) -> (q < qm)%Q).
Proof.
  intros Hne Hfin. destruct row as [|x row]; [done|].
  apply Forall_cons in Hfin as [Hx Hfin]. destruct x as [|q0]; [discriminate|].
  simpl.
  destruct (argmax_from_spec row q0 0 1 Hfin)
    as [[Hr Hall] | (k & qk & Hr & Hk & Hlt & Hall & Hbefore)].
  - exists 0%nat, q0. rewrite Hr. split; [done|]. split; [done|]. split.
    + intros [|j] q Hj; simpl in Hj; [|eauto]. injection Hj as <-. lra.
    + intros j q Hj. lia.
  - exists (S k), qk. rewrite Hr. split; [f_equal; lia|]. split; [done|]. split.
    + intros [|j] q Hj; simpl in Hj; [|eauto]. injection Hj as <-. lra.
    + intros [|j] q Hjk Hj; simpl in Hj.
      * injection Hj as <-. lra.
      * apply (Hbefore j); [lia | done].
Qed.

Lemma filter_finite_all l : Forall finite l -> filter finite l = l.
Proof.
  induction 1 as [|x l Hx _ IH]; [done|]. by rewrite filter_cons_True, IH.
Qed.

(** Sums of terms that are all zero, or all non-negative with one that is
    positive. *)
Lemma nansum_zero l :
  Forall (fun x => exists q, x = Fin q /\ (q == 0)%Q) l ->
  exists s, nansum l = Fin s /\ (s == 0)%Q.
Proof.
  intros Hl. unfold nansum. rewrite filter_finite_all.
  2:{ eapply Forall_impl; [exact Hl|]. by intros x (q & -> & _). }
  unfold sum. induction Hl as [|x l (q & -> & Hq) _ (s & IH & Hs)].
  - exists 0%Q. split; [done | reflexivity].
  - simpl. rewrite IH. simpl. eexists. split; [done|]. lra.
Qed.

Lemma nansum_nonneg l :
  Forall (fun x => exists q, x = Fin q /\ (0 <= q)%Q) l ->
  exists s, nansum l = Fin s /\ (0 <= s)%Q /\
    (Exists (fun x => exists q, x = Fin q /\ (0 < q)%Q) l -> (0 < s)%Q).
Proof.
  intros Hl. unfold nansum. rewrite filter_finite_all.
  2:{ eapply Forall_impl; [exact Hl|]. by intros x (q & -> & _). }
  unfold sum. induction Hl as [|x l (q & -> & Hq) _ (s & IH & Hs & Hpos)].
  - exists 0%Q. split; [done|]. split; [lra|]. intros H. inversion H.
  - simpl. rewrite IH. simpl. eexists. split; [done|]. split; [lra|].
    intros H. apply Exists_cons in H as [(q' & [= <-] & Hq') | H]; [lra|].
    specialize (Hpos H). lra.
Qed.

Section SpatialProofs.

Variable np_cos : float64 -> float64.
Variable f : Z -> Z.
Variables j k : Z.

Lemma overlap_terms_relabelled lats (rrow : list Z) :
  overlap_terms np_cos lats (f <$> rrow) rrow j k
  = zip_with (fun (r : Z) (lat : float64) =>
                fmul (if (r =? k) && (f r =? j) then Fin 1 else zero)
                     (area_weight np_cos lat)) rrow lats.
Proof.
  unfold overlap_terms. by rewrite zip_with_fmap_l, zip_with_diag, zip_with_fmap_l.
Qed.

Lemma overlap_terms_nonneg lats (rrow : list Z) :
  Forall (fun lat => exists w, area_weight np_cos lat = Fin w /\ (0 < w)%Q) lats ->
  Forall (fun x => exists q, x = Fin q /\ (0 <= q)%Q)
    (overlap_terms np_cos lats (f <$> rrow) rrow j k).
Proof.
  rewrite overlap_terms_relabelled. intros Hw. revert rrow.
  induction Hw as [|lat lats (w & Hw & Hpos) _ IH]; intros [|r rrow]; simpl;
    try constructor; [|apply IH].
  rewrite Hw. destruct ((r =? k) && (f r =? j)); simpl; eexists; (split; [done|]); lra.
Qed.

Lemma overlap_terms_zero lats (rrow : list Z) :
  Forall (fun lat => exists w, area_weight np_cos lat = Fin w /\ (0 < w)%Q) lats ->
  j <> f k \/ k ∉ rrow ->
  Forall (fun x => exists q, x = Fin q /\ (q == 0)%Q)
    (overlap_terms np_cos lats (f <$> rrow) rrow j k).
Proof.
  rewrite overlap_terms_relabelled. intros Hw. revert rrow.
  induction Hw as [|lat lats (w & Hw & Hpos) _ IH]; intros [|r rrow] Hcase; simpl;
    try constructor.
  - rewrite Hw.
    assert ((r =? k) && (f r =? j) = false) as ->.
    { apply andb_false_iff. destruct (Z.eqb_spec r k) as [-> | Hne]; [|by left].
      right. apply Z.eqb_neq. destruct Hcase as [Hj | Hk]; [congruence|].
      exfalso. apply Hk. by left. }
    simpl. eexists. split; [done|]. lra.
  - apply IH. destruct Hcase as [Hj | Hk]; [by left | right].
    by apply not_elem_of_cons in Hk as [_ Hk].
Qed.

Lemma overlap_terms_positive lats (rrow : list Z) loc :
  Forall (fun lat => exists w, area_weight np_cos lat = Fin w /\ (0 < w)%Q) lats ->
  rrow !! loc = Some k -> (loc < length lats)%nat -> j = f k ->
  Exists (fun x => exists q, x = Fin q /\ (0 < q)%Q)
    (overlap_terms np_cos lats (f <$> rrow) rrow j k).
Proof.
  rewrite overlap_terms_relabelled. intros Hw. revert rrow loc.
  induction Hw as [|lat lats (w & Hw & Hpos) _ IH]; intros [|r rrow] loc Hloc Hlt Hj;
    simpl in *; try lia; try done.
  destruct loc as [|loc]; simpl in Hloc.
  - injection Hloc as ->. apply Exists_cons_hd. rewrite Hw, Hj, !Z.eqb_refl. simpl.
    eexists. split; [done|]. lra.
  - apply Exists_cons_tl. apply (IH rrow loc); [done | lia | done].
Qed.

End SpatialProofs.

Lemma Exists_concat {A} (P : A -> Prop) (ls : list (list A)) l :
  l ∈ ls -> Exists P l -> Exists P (concat ls).
Proof.
  intros Hl HP. induction ls as [|l' ls IH]; [by apply elem_of_nil in Hl|].
  simpl. apply Exists_app. apply elem_of_cons in Hl as [<- | Hl]; [by left|].
  right. by apply IH.
Qed.

Lemma overlap_relabelled np_cos f lats (ref : class_array) n j k :
  Forall (fun lat => exists w, area_weight np_cos lat = Fin w /\ (0 < w)%Q) lats ->
  length lats = n -> Forall (fun row => length row = n) ref ->
  exists s,
    overlap np_cos lats (fmap (M:=list) f <$> ref) ref j k = Fin s /\ (0 <= s)%Q /\
    (j <> f k \/ ~ occurs k ref -> (s == 0)%Q) /\
    (j = f k -> occurs k ref -> (0 < s)%Q).
Proof.
  intros Hw Hlen Hshape. unfold overlap.
  rewrite zip_with_fmap_l, zip_with_diag.
  destruct (nansum_nonneg
              (concat ((fun rrow => overlap_terms np_cos lats (f <$> rrow) rrow j k) <$> ref)))
    as (s & Hs & Hnn & Hpos).
  { apply concat_Forall, Forall_fmap, Forall_forall. intros rrow _. simpl.
    by apply overlap_terms_nonneg. }
  exists s. split; [done|]. split; [done|]. split.
  - intros Hcase.
    destruct (nansum_zero
                (concat ((fun rrow => overlap_terms np_cos lats (f <$> rrow) rrow j k) <$> ref)))
      as (s' & Hs' & Hz).
    { apply concat_Forall, Forall_fmap, Forall_forall. intros rrow Hrrow. simpl.
      apply overlap_terms_zero; [done|]. destruct Hcase as [Hj | Hk]; [by left | right].
      intros Hin. apply Hk. apply list_elem_of_lookup in Hrrow as [t Ht].
      apply list_elem_of_lookup in Hin as [loc Hloc].
      exists t, loc. unfold at2, class_array in *. by rewrite Ht. }
    rewrite Hs in Hs'. injection Hs' as ->. done.
  - intros Hj (t & loc & Hat). apply Hpos.
    unfold at2, class_array in *.
    destruct (ref !! t) as [rrow|] eqn:Ht; simpl in Hat; [|done].
    apply (Exists_concat _ _ (overlap_terms np_cos lats (f <$> rrow) rrow j k)).
    + apply list_elem_of_fmap. exists rrow. split; [done|].
      apply list_elem_of_lookup. eauto.
    + apply (overlap_terms_positive np_cos f j k lats rrow loc); [done | done | | done].
      rewrite Forall_forall in Hshape.
      assert (length rrow = n) as Hr by (apply Hshape, list_elem_of_lookup; eauto).
      apply lookup_lt_Some in Hat. lia.
Qed.

Lemma counts_column {A} (g : Z -> Z -> A) K (js : list Z) k :
  (k < K)%nat ->
  omap (fun row : list A => row !! k) ((fun j => g j <$> arange K) <$> js)
  = (fun j => g j (Z.of_nat k)) <$> js.
Proof.
  intros Hk. induction js as [|j js IH]; [done|].
  rewrite !fmap_cons. csimpl.
  rewrite list_lookup_fmap, arange_lookup by done. csimpl. by rewrite IH.
Qed.

(** X18.  [match_spatial] recovers a relabelling.  Let the candidate
    assignment be the reference relabelled entry by entry through a map
    [f] of [[0, K)] into itself, all locations having a positive area
    weight.  Then [match_spatial] returns [K >= 1] indices, the index for a
    reference class [k] that occurs being [f(k)], and the index for a class
    that does not occur being 0. *)
Theorem match_spatial_recovers_relabelling
    (np_cos : float64 -> float64) (f : Z -> Z) (lats : list float64)
    (ref : class_array) (K n : nat) :
  (0 < K)%nat ->
  Forall (fun lat => exists w, area_weight np_cos lat = Fin w /\ (0 < w)%Q) lats ->
  length lats = n -> Forall (fun row => length row = n) ref ->
  (forall k, 0 <= k < Z.of_nat K -> 0 <= f k < Z.of_nat K) ->
  exists inds,
    match_spatial np_cos lats (fmap (M:=list) f <$> ref) ref K = Ok inds /\
    length inds = K /\
    forall k, (k < K)%nat ->
      (occurs (Z.of_nat k) ref -> inds !! k = Some (f (Z.of_nat k))) /\
      (~ occurs (Z.of_nat k) ref -> inds !! k = Some 0).
Proof.
  intros HK Hw Hlen Hshape Hf. unfold match_spatial.
  replace (K =? 0)%nat with false by (symmetry; apply Nat.eqb_neq; lia).
  pose (P := fun (k : nat) (z : Z) =>
    (occurs (Z.of_nat k) ref -> z = f (Z.of_nat k)) /\
    (~ occurs (Z.of_nat k) ref -> z = 0)).
  destruct (traverse_Forall2
              (fun k => argmax (omap (fun row : list float64 => row !! k)
                 ((fun j => (fun k0 => overlap np_cos lats (fmap (M:=list) f <$> ref) ref j k0)
                              <$> arange K) <$> arange K)))
              P (seq 0 K)) as (inds & Hinds & Hall).
  { apply Forall_forall. intros k Hk. apply elem_of_seq in Hk.
    rewrite counts_column by lia.
    set (col := (fun j => overlap np_cos lats (fmap (M:=list) f <$> ref) ref j (Z.of_nat k))
                  <$> arange K).
    assert (forall j, (j < K)%nat -> exists s,
              col !! j = Some (Fin s) /\ (0 <= s)%Q /\
              (Z.of_nat j <> f (Z.of_nat k) \/ ~ occurs (Z.of_nat k) ref -> (s == 0)%Q) /\
              (Z.of_nat j = f (Z.of_nat k) -> occurs (Z.of_nat k) ref -> (0 < s)%Q)) as Hcol.
    { intros j Hj. unfold col. rewrite list_lookup_fmap, arange_lookup by done. simpl.
      destruct (overlap_relabelled np_cos f lats ref n (Z.of_nat j) (Z.of_nat k)
                  Hw Hlen Hshape) as (s & -> & H). eauto. }
    destruct (argmax_first_greatest col) as (m & qm & Harg & Hm & Hgreat & Hfirst).
    { unfold col. destruct K; [lia | done]. }
    { unfold col. apply Forall_fmap, Forall_forall. intros j Hj. simpl.
      by destruct (overlap_relabelled np_cos f lats ref n j (Z.of_nat k)
                     Hw Hlen Hshape) as (s & -> & _). }
    assert (m < K)%nat as HmK.
    { apply lookup_lt_Some in Hm. unfold col in Hm.
      by rewrite length_fmap, arange_length in Hm. }
    destruct (Hcol m HmK) as (sm & Hsm & Hsm0 & Hzero & Hpos).
    rewrite Hm in Hsm. injection Hsm as <-.
    exists (Z.of_nat m). split; [done|]. split.
    - intros Hocc.
      destruct (Hf (Z.of_nat k)) as [Hf0 HfK]; [lia|].
      destruct (Hcol (Z.to_nat (f (Z.of_nat k)))) as (s & Hs & _ & _ & Hspos); [lia|].
      rewrite Z2Nat.id in Hspos by lia. specialize (Hspos eq_refl Hocc).
      pose proof (Hgreat _ _ Hs) as Hle.
      destruct (decide (Z.of_nat m = f (Z.of_nat k))) as [|Hne]; [done|].
      specialize (Hzero (or_introl Hne)). lra.
    - intros Hnocc. destruct m as [|m]; [done|]. exfalso.
      destruct (Hcol 0%nat) as (s0 & Hs0 & _ & Hz0 & _); [lia|].
      pose proof (Hfirst 0%nat s0 ltac:(lia) Hs0) as Hlt.
      specialize (Hzero (or_intror Hnocc)). specialize (Hz0 (or_intror Hnocc)). lra. }
  rewrite Hinds. exists inds. split; [done|].
  assert (length inds = K) as Hli
    by (apply Forall2_length in Hall; by rewrite length_seq in Hall).
  split; [done|]. intros k Hk.
  destruct (lookup_lt_is_Some_2 inds k) as [z Hz]; [lia|].
  assert (seq 0 K !! k = Some k) as Hsk by (by apply lookup_seq_lt).
  pose proof (Forall2_lookup_lr _ _ _ _ _ _ Hall Hsk Hz) as [H1 H2].
  rewrite Hz. split; intros H; f_equal; auto.
Qed.

Lemma match_spatial_recovers_relabelling_witness :
  exists inds,
    match_spatial (fun _ => Fin 1) [Fin (-60); Fin (-45); Fin (-30)]
      (fmap (M:=list) (fun x => 2 - x) <$> [[0; 1; 1]; [0; 0; 1]])
      [[0; 1; 1]; [0; 0; 1]] 3 = Ok inds /\
    length inds = 3%nat /\
    forall k, (k < 3)%nat ->
      (occurs (Z.of_nat k) [[0; 1; 1]; [0; 0; 1]] ->
       inds !! k = Some ((fun x => 2 - x) (Z.of_nat k))) /\
      (~ occurs (Z.of_nat k) [[0; 1; 1]; [0; 0; 1]] -> inds !! k = Some 0).
Proof.
  apply (match_spatial_recovers_relabelling (fun _ => Fin 1) (fun x => 2 - x)
           [Fin (-60); Fin (-45); Fin (-30)] [[0; 1; 1]; [0; 0; 1]] 3 3).
  - lia.
  - repeat constructor; exists 1%Q; split; reflexivity.
  - reflexivity.
  - repeat constructor.
  - intros k Hk. lia.
Defined.

(** ** [avg_profiles] with the aligners and with unlabelled locations *)

Lemma avg_profiles_tops np_sqrt lev K data classes :
  (0 < lev)%nat ->
  exists tops,
    shallowest <$> avg_profiles np_sqrt lev data classes K = Some <$> tops /\
    length tops = K.
Proof.
  intros Hlev. destruct (avg_profiles_shape np_sqrt lev data classes K) as [Hlen Hshape].
  revert Hlen Hshape. generalize (avg_profiles np_sqrt lev data classes K) as avg.
  intros avg <- Hshape. induction Hshape as [|s avg [Hs _] _ (tops & IH & Hl)].
  - by exists [].
  - destruct (mean s) as [|x m] eqn:Hm; [simpl in Hs; lia|].
    exists (x :: tops). split; [|simpl; lia].
    rewrite !fmap_cons, IH. unfold shallowest. by rewrite Hm.
Qed.

(** X19.  The summaries of [avg_profiles] can always be handed to
    [temp_sort]: for [K >= 1] classes and a depth axis of at least one
    level, [temp_sort] with [arg] set returns a permutation of [[0, K)], in
    which every class without member comes after every class whose
    shallowest-level mean is a number. *)
Theorem temp_sort_after_avg_profiles
    (np_sqrt : float64 -> float64) (lev K : nat)
    (data : array3) (classes a : class_array) :
  (0 < K)%nat -> (0 < lev)%nat ->
  exists inds,
    temp_sort a (avg_profiles np_sqrt lev data classes K) true = Ok (inl inds) /\
    is_perm K inds /\
    forall r r' x x' s' q,
      inds !! r = Some x -> inds !! r' = Some x' ->
      x ∉ concat classes ->
      avg_profiles np_sqrt lev data classes K !! Z.to_nat x' = Some s' ->
      shallowest s' = Some (Fin q) ->
      (r' < r)%nat.
Proof.
  intros HK Hlev.
  destruct (avg_profiles_tops np_sqrt lev K data classes Hlev) as (tops & Htops & Hlt).
  exists (argsort tops). unfold temp_sort.
  rewrite (traverse_shallowest _ tops Htops). simpl. split; [done|].
  pose proof (argsort_is_perm tops) as Hp. rewrite Hlt in Hp. split; [done|].
  intros r r' x x' s' q Hr Hr' Habs Hs' Htop.
  destruct (is_perm_lookup_range K _ r x Hp Hr) as [Hx _].
  assert (tops !! Z.to_nat x = Some NaN) as Hkx.
  { pose proof (avg_profiles_absent_class np_sqrt lev K data classes (Z.to_nat x)) as He.
    rewrite Z2Nat.id in He by lia. specialize (He ltac:(lia) Habs).
    apply (f_equal (fun l => l !! Z.to_nat x)) in Htops.
    rewrite !list_lookup_fmap, He in Htops. simpl in Htops.
    destruct (tops !! Z.to_nat x) as [t|]; [|done]. simpl in Htops.
    unfold shallowest in Htops. simpl in Htops.
    destruct lev; [lia|]. simpl in Htops. congruence. }
  assert (tops !! Z.to_nat x' = Some (Fin q)) as Hkx'.
  { apply (f_equal (fun l => l !! Z.to_nat x')) in Htops.
    rewrite !list_lookup_fmap, Hs' in Htops. simpl in Htops.
    destruct (tops !! Z.to_nat x') as [t|]; [|done]. simpl in Htops. congruence. }
  destruct (Nat.lt_trichotomy r' r) as [Hlt' | [-> | Hgt]]; [done | |].
  - rewrite Hr in Hr'. injection Hr' as <-. congruence.
  - pose proof (argsort_sorted tops r r' x x' NaN (Fin q) Hgt Hr Hr' Hkx Hkx') as Hle.
    unfold sort_le in Hle. simpl in Hle. discriminate.
Qed.

Lemma temp_sort_after_avg_profiles_witness :
  exists inds,
    temp_sort [[0; 2; -1; 2]]
      (avg_profiles (fun x => x) 3 demo_data [[0; 2; -1; 2]; [0; 0; -1; 2]] 3) true
    = Ok (inl inds) /\
    is_perm 3 inds /\
    forall r r' x x' s' q,
      inds !! r = Some x -> inds !! r' = Some x' ->
      x ∉ concat [[0; 2; -1; 2]; [0; 0; -1; 2]] ->
      avg_profiles (fun x => x) 3 demo_data [[0; 2; -1; 2]; [0; 0; -1; 2]] 3
        !! Z.to_nat x' = Some s' ->
      shallowest s' = Some (Fin q) ->
      (r' < r)%nat.
Proof.
  apply (temp_sort_after_avg_profiles (fun x => x) 3 3 demo_data
           [[0; 2; -1; 2]; [0; 0; -1; 2]] [[0; 2; -1; 2]]).
  - lia.
  - lia.
Defined.

Lemma concat_zip_with {A B C} (h : A -> B -> C) (xs : list (list A)) (ys : list (list B)) :
  Forall2 (fun s c => length s = length c) xs ys ->
  concat (zip_with (zip_with h) xs ys) = zip_with h (concat xs) (concat ys).
Proof.
  induction 1 as [|s c xs ys Hlen _ IH]; [done|]. simpl.
  by rewrite zip_with_app, IH.
Qed.

Lemma where_class_replace (g : list float64 -> list float64) K i rows labels :
  (forall row, length (g row) = length row) -> 0 <= i < K ->
  where_class
    (zip_with (fun (row : list float64) (l : Z) =>
                 if (0 <=? l) && (l <? K) then row else g row) rows labels)
    labels i
  = where_class rows labels i.
Proof.
  intros Hg Hi. unfold where_class. revert labels.
  induction rows as [|row rows IH]; intros [|l labels]; simpl; try done.
  rewrite IH. f_equal.
  destruct (Z.eqb_spec l i) as [-> | Hne].
  - replace ((0 <=? i) && (i <? K)) with true; [done|].
    symmetry. apply andb_true_iff. split; [apply Z.leb_le | apply Z.ltb_lt]; lia.
  - destruct ((0 <=? l) && (l <? K)); [done|].
    apply list_eq_same_length with (length row);
      [by rewrite length_fmap | by rewrite length_fmap, Hg |].
    intros n x y _ Hx Hy. rewrite list_lookup_fmap in Hx, Hy.
    destruct (g row !! n); [|done]. destruct (row !! n); [|done].
    simpl in *. congruence.
Qed.

(** X20.  [avg_profiles] does not look at the profiles of the locations
    whose label is not a class of [[0, K)], the sentinel [-1] among them:
    replacing the values of these profiles, their length kept, gives the
    same summaries. *)
Theorem avg_profiles_ignores_unlabelled
    (np_sqrt : float64 -> float64) (lev K : nat)
    (data : array3) (classes : class_array) (g : list float64 -> list float64) :
  (forall row, length (g row) = length row) ->
  Forall2 (fun s c => length s = length c) data classes ->
  avg_profiles np_sqrt lev
    (zip_with (zip_with (fun (row : list float64) (l : Z) =>
                           if (0 <=? l) && (l <? Z.of_nat K) then row else g row))
              data classes)
    classes K
  = avg_profiles np_sqrt lev data classes K.
Proof.
  intros Hg Hshape. unfold avg_profiles. apply list_fmap_ext. intros n i Hi. simpl.
  assert (0 <= i < Z.of_nat K) as Hrange.
  { assert (n < K)%nat as Hn
      by (apply lookup_lt_Some in Hi; by rewrite arange_length in Hi).
    rewrite arange_lookup in Hi by done. injection Hi as <-. lia. }
  rewrite concat_zip_with by done.
  by rewrite where_class_replace.
Qed.

Lemma avg_profiles_ignores_unlabelled_witness :
  avg_profiles (fun x => x) 3
    (zip_with (zip_with (fun (row : list float64) (l : Z) =>
                           if (0 <=? l) && (l <? Z.of_nat 2) then row else zero_fill row))
              demo_data [[0; 1; -1; 1]; [0; 0; -1; 1]])
    [[0; 1; -1; 1]; [0; 0; -1; 1]] 2
  = avg_profiles (fun x => x) 3 demo_data [[0; 1; -1; 1]; [0; 0; -1; 1]] 2.
Proof.
  apply (avg_profiles_ignores_unlabelled (fun x => x) 3 2 demo_data
           [[0; 1; -1; 1]; [0; 0; -1; 1]] zero_fill).
  - apply zero_fill_length.
  - repeat constructor.
Defined.
